(** * nostragram: relay client and note-assembly pipeline

    A shallow embedding of [src/infrastructure/nostr/nostrClient.ts] and
    [src/infrastructure/services/NoteService.ts], and the properties of
    the specification stated over it.

    - JavaScript strings are sequences of UTF-16 code units ([list N]);
      [length], [startsWith], [endsWith] and [trim] act on code units as
      they do in the language.
    - Asynchronous methods are computations in a state-and-exception
      monad: the state records, in order, every call that leaves the
      method (collaborators, timers, console), so "before any HTTP call"
      and "without contacting a collaborator" are statements about the
      recorded trace.
    - [connect] reads and writes a static field across several
      [await]s; it is modelled once as a single uninterrupted call and
      once segment by segment, with the calls in flight interleaved by
      a schedule.
    - What the two classes are given from outside (the relay library,
      the signer, the HTTP client, the URL parser, the Unicode Emoji
      table, the helpers of [nostr/utils] and [nostr/lnurlPay]) is
      gathered in the records [Platform] and [Collaborators]; every
      property holds for all their instances. *)

From Equations Require Import Equations.
From Stdlib Require Import ZArith NArith String Ascii Lia DecimalString DecimalZ.
From stdpp Require Import base option list gmap.

Local Open Scope Z_scope.
Local Open Scope list_scope.

(* ================================================================= *)
(** ** JavaScript values *)

Module JS.

(** A JavaScript string: its UTF-16 code units. *)
Abbreviation jsstring := (list N).

(** ASCII literals of the source, as code units. *)
Fixpoint lit (s : string) : jsstring :=
  match s with
  | EmptyString => []
  | String a s' => N_of_ascii a :: lit s'
  end.

(** The inverse of [lit]; [None] when a unit is not a Latin-1 one. *)
Fixpoint unlit (s : jsstring) : option string :=
  match s with
  | [] => Some EmptyString
  | c :: s' =>
      if (c <? 256)%N
      then option_map (String (ascii_of_N c)) (unlit s')
      else None
  end.

(** [===] on strings. *)
Definition eqb_string (a b : jsstring) : bool := bool_decide (a = b).

(** [Number.prototype.toString] on an integer: its decimal digits,
    with a leading minus sign when negative. *)
Definition numberToString (n : Z) : jsstring :=
  lit (NilEmpty.string_of_int (Z.to_int n)).

(** Unary [+] on a string. The client applies it only to what
    [numberToString] printed; any string that is not a decimal integer
    is read as [NaN] ([None]). *)
Definition stringToNumber (s : jsstring) : option Z :=
  match unlit s with
  | Some t => option_map Z.of_int (NilEmpty.int_of_string t)
  | None => None
  end.

(** [String.prototype.startsWith]. *)
Fixpoint startsWith (s p : jsstring) {struct p} : bool :=
  match p, s with
  | [], _ => true
  | _ :: _, [] => false
  | c :: p', d :: s' => if N.eqb c d then startsWith s' p' else false
  end.

(** [String.prototype.endsWith]. *)
Definition endsWith (s p : jsstring) : bool :=
  startsWith (rev s) (rev p).

(** ECMAScript WhiteSpace and LineTerminator code points: what
    [String.prototype.trim] strips and what [\s] matches. *)
Definition isWhiteSpace (c : N) : bool :=
  ((9 <=? c) && (c <=? 13) || (c =? 32) || (c =? 160) || (c =? 5760)
   || (8192 <=? c) && (c <=? 8202) || (c =? 8232) || (c =? 8233)
   || (c =? 8239) || (c =? 8287) || (c =? 12288) || (c =? 65279))%N.

Fixpoint trimStart (s : jsstring) : jsstring :=
  match s with
  | [] => []
  | c :: s' => if isWhiteSpace c then trimStart s' else s
  end.

Definition trimEnd (s : jsstring) : jsstring := rev (trimStart (rev s)).

(** [String.prototype.trim]. *)
Definition trim (s : jsstring) : jsstring := trimEnd (trimStart s).

(** [String.prototype.toLowerCase] on the ASCII range, where it maps
    [A-Z] to [a-z] and fixes every other unit. The only strings the
    source lower-cases are URL path names, which the URL serialiser
    percent-encodes into ASCII. *)
Definition lowerUnit (c : N) : N :=
  if ((65 <=? c) && (c <=? 90))%N then (c + 32)%N else c.

Definition toLowerCase (s : jsstring) : jsstring := map lowerUnit s.

(** [String.prototype.split] with a one-unit separator. The result is
    never empty. *)
Fixpoint split (sep : N) (s : jsstring) : list jsstring :=
  match s with
  | [] => [[]]
  | c :: s' =>
      if N.eqb c sep then [] :: split sep s'
      else match split sep s' with
           | [] => [[c]]
           | p :: ps => (c :: p) :: ps
           end
  end.

End JS.

Import JS.

Arguments lit : simpl never.
Arguments numberToString : simpl never.
Arguments stringToNumber : simpl never.

(* ================================================================= *)
(** ** Protocol data and the error classes *)

(** [NostrEvent] of the relay library: the fields the client reads and
    writes. [id] and [sig] are optional. *)
Record NostrEvent : Type := mkNostrEvent {
  kind : Z;
  pubkey : jsstring;
  created_at : Z;
  tags : list (list jsstring);
  content : jsstring;
  id : option jsstring;
  sig : option jsstring;
}.

(** [LnurlPay] of [nostr/lnurlPay]: the provider's capability
    descriptor. Every field may be missing from the provider's answer. *)
Record LnurlPay : Type := mkLnurlPay {
  callback : option jsstring;
  minSendable : option Z;
  maxSendable : option Z;
  allowsNostr : bool;
  nostrPubkey : option jsstring;
}.

(** The body of the payment endpoint's answer. *)
Record ZapResponseData : Type := mkZapResponseData {
  status : jsstring;
  pr : option jsstring;
  verify : option jsstring;
  successAction : option jsstring;
}.

Set Warnings "-register-all".

(** A thrown value. [JsError] is a platform error object ([Error],
    [TypeError], or whatever a collaborator rejects with): class name,
    message and [cause]. The other constructors are the classes the
    client imports from [nostr/nostrErrors], with the arguments they are
    constructed from. *)
Inductive Thrown : Type :=
| JsError (name : string) (message : jsstring) (cause : option Thrown)
| NostrUnknownUserError (nip05Id : jsstring)
| NostrRequestLnurlPayError (metadata : NostrEvent) (cause : Thrown)
| NostrGetZapEndpointCallbackUrlError (metadata : NostrEvent) (lnurlPay : LnurlPay)
| NostrMinSendableConstraintError (amount min : Z)
| NostrMaxSendableConstraintError (amount max : Z)
| NostrCallZapEndpointError (response : option ZapResponseData)
| NostrInvoiceNotFoundError (response : option ZapResponseData).

(** [new Error(message)]. *)
Definition Error (message : jsstring) : Thrown := JsError "Error" message None.

(* ================================================================= *)
(** ** Asynchronous methods as computations *)

(** How a call completes. *)
Inductive Completion (A : Type) : Type :=
| Return (v : A)
| Throw (e : Thrown).
Arguments Return {A} _.
Arguments Throw {A} _.

(** A computation over a state [S]: run from a state, it completes and
    leaves a state. A throw keeps the state reached so far. *)
Definition M (S A : Type) : Type := S -> Completion A * S.

Definition ret {S A} (v : A) : M S A := fun s => (Return v, s).

Definition throw {S A} (e : Thrown) : M S A := fun s => (Throw e, s).

Definition bind {S A B} (c : M S A) (k : A -> M S B) : M S B :=
  fun s =>
    match c s with
    | (Return v, s') => k v s'
    | (Throw e, s') => (Throw e, s')
    end.

(** [try { c } catch (e) { h e }], and [promise.catch(h)]. *)
Definition try_catch {S A} (c : M S A) (h : Thrown -> M S A) : M S A :=
  fun s =>
    match c s with
    | (Return v, s') => (Return v, s')
    | (Throw e, s') => h e s'
    end.

(** A completion decided outside the method. *)
Definition settle {S A} (c : Completion A) : M S A := fun s => (c, s).

Declare Scope js_scope.
Delimit Scope js_scope with js.
Notation "'let!' x ':=' c 'in' k" := (bind c (fun x => k))
  (at level 10, x name, c at level 100, k at level 200) : js_scope.
Notation "'do!' c 'in' k" := (bind c (fun _ => k))
  (at level 10, c at level 100, k at level 200) : js_scope.
Local Open Scope js_scope.

(* ================================================================= *)
(** ** Collaborators *)

(** [NDKUser] of the relay library: who the user is. The [profile]
    property, which the library sets on the object when it fetches the
    profile, is given with the user where a method hands it out
    ([Users.getUserWithProfile]). *)
Record NDKUser : Type := mkNDKUser {
  user_npub : jsstring;
  user_pubkey : jsstring;
}.

(** [NDKUserProfile] of the relay library: the properties of a
    profile, by name. *)
Definition NDKUserProfile : Type := list (jsstring * jsstring).

(** How one call of an operation wrapped by the retry wrapper ends,
    seen from its race against the [FetchTimeout] timer: it resolves in
    time, rejects in time, or is still pending when the timer fires. *)
Inductive Attempt (A : Type) : Type :=
| Resolved (v : A)
| Rejected (e : Thrown)
| Pending.
Arguments Resolved {A} _.
Arguments Rejected {A} _.
Arguments Pending {A}.

(** Every call that leaves the client, as it is recorded. *)
Inductive Event : Type :=
(* the retry wrapper *)
| Invoke                                   (* operation() *)
| Delay (ms : Z)                           (* this.delay(ms) *)
| ConsoleError (label : jsstring) (e : Thrown)
| ConsoleLog (message : jsstring)
(* the relay library and the signer *)
| NewSigner (timeoutMSec : Z)              (* new NDKNip07Signer(..) *)
| SignerBlockUntilReady
| NewNDK (explicitRelayUrls : list jsstring)
| NdkConnect (timeoutMs : Z)
| SignerUser
| UserFetchProfile (u : NDKUser)
| NdkGetUser (npub : jsstring)
| FromNip05 (nip05Id : jsstring)
| SignerSign (e : NostrEvent)
(* HTTP *)
| HttpGetLnurlPay (url : option jsstring)  (* axios.get in #requestLnurlPay *)
| HttpGetZapEndpoint (url : jsstring)      (* axios.get in sendZapRequest *)
(* what the note service calls *)
| RepoFetchProfile (npub : jsstring)
| ClientFetchEvent (eventId : jsstring)
| ClientFetchEvents (kinds : list Z) (e : list jsstring)
| ClientCalculateZapsAmount (eventId : jsstring).

(** The trace of a run, oldest event first. *)
Abbreviation Trace := (list Event).

(** Record one event. *)
Definition emit (ev : Event) : M Trace unit :=
  fun t => (Return tt, t ++ [ev]).

(** Call a collaborator: record the call, then complete as it does. *)
Definition call {A} (ev : Event) (c : Completion A) : M Trace A :=
  do! emit ev in settle c.

(** What the client is given from outside: the relay library, the
    signer, the HTTP client and the helpers of [nostr/utils] and
    [nostr/lnurlPay]. *)
Record Platform : Type := mkPlatform {
  (* nostr/utils *)
  generateEventId : NostrEvent -> jsstring;
  unixtime : Z;
  (* nostr/lnurlPay *)
  toLnurlPayUrl : jsstring -> option jsstring;
  toBech32EncodedLnurl : option jsstring -> Completion jsstring;
  (* relay library *)
  NDKUser_fromNip05 : jsstring -> Completion (option NDKUser);
  ndk_getUser : jsstring -> Completion NDKUser;
  (* user.fetchProfile(), by invocation: how it ends and, when it
     resolves, the [profile] property it leaves on the user *)
  user_fetchProfile : NDKUser -> nat -> Attempt (option NDKUserProfile);
  signer_sign : NostrEvent -> Completion jsstring;
  (* the NIP-07 signer handshake and the relay connections *)
  new_NDKNip07Signer : Z -> Completion unit;
  signer_blockUntilReady : Completion unit;
  ndk_connect : Z -> Completion unit;
  signer_user : Completion NDKUser;
  loggedIn_fetchProfile : NDKUser -> Completion unit;
  (* axios.get, with the body read as the caller reads it *)
  axios_get_lnurlPay : option jsstring -> Completion LnurlPay;
  axios_get_zapEndpoint : jsstring -> Completion (option ZapResponseData);
  (* JSON.stringify({ lud16 }) and JSON.parse(..).lud16 *)
  JSON_stringify_lud16 : jsstring -> jsstring;
  JSON_parse_lud16 : jsstring -> Completion jsstring;
  (* encodeURI(JSON.stringify(event)) *)
  encodeURI_JSON : NostrEvent -> Completion jsstring;
  (* new URL(callback) with amount, nostr and lnurl appended *)
  zapEndpointUrl : jsstring -> jsstring -> jsstring -> option jsstring
                   -> Completion jsstring;
}.

(* ================================================================= *)
(** ** The retry wrapper ([NostrClient.#fetchWithRetry]) *)

Module Retry.

Definition FetchTimeout : Z := 1000.
Definition MaxRetries : nat := 3.
Definition RetryDelay : Z := 100.

Definition isInvoke (ev : Event) : bool :=
  match ev with Invoke => true | _ => false end.

Definition isDelay (ev : Event) : bool :=
  match ev with Delay _ => true | _ => false end.

Definition invocations (t : Trace) : nat := length (filter isInvoke t).
Definition delays (t : Trace) : nat := length (filter isDelay t).

Definition OperationTimeout : Thrown := Error (lit "Operation timeout").

(** The error an attempt fails with: what the operation rejected with,
    or the timer's error. [None] for an attempt that succeeds. *)
Definition attemptError {A} (a : Attempt A) : option Thrown :=
  match a with
  | Resolved _ => None
  | Rejected e => Some e
  | Pending => Some OperationTimeout
  end.

(** The invocations and delays of a run, without the console lines. *)
Definition timeline (t : Trace) : Trace :=
  filter (fun ev => isInvoke ev || isDelay ev) t.

(** [k] attempts with a [RetryDelay] pause between consecutive ones. *)
Fixpoint schedule (k : nat) : Trace :=
  match k with
  | O => []
  | S O => [Invoke]
  | S k' => schedule k' ++ [Delay RetryDelay; Invoke]
  end.

(** The spec's words: [x] is a [RetriesExhausted] error with [cause]
    attached. The sources define no such class; it is stated here as
    an error object of that name whose [cause] is [cause]. *)
Definition RetriesExhausted (cause x : Thrown) : Prop :=
  exists message, x = JsError "RetriesExhausted" message (Some cause).

(** How many [cause] links hang below a thrown value. *)
Fixpoint causeDepth (e : Thrown) : nat :=
  match e with
  | JsError _ _ (Some c) => S (causeDepth c)
  | NostrRequestLnurlPayError _ c => S (causeDepth c)
  | _ => O
  end.

Section Wrapper.
Context {A : Type}.

(** The wrapped operation is a closure; [operation k] is how its call
    ends when it has been called [k] times before. *)
Variable operation : nat -> Attempt A.

(** [fetchWithTimeout]: [Promise.race] of [operation()] and the
    timer. *)
Definition fetchWithTimeout : M Trace A :=
  fun t =>
    match operation (invocations t) with
    | Resolved v => (Return v, t ++ [Invoke])
    | Rejected e => (Throw e, t ++ [Invoke])
    | Pending => (Throw OperationTimeout, t ++ [Invoke])
    end.

Definition delay (ms : Z) : M Trace unit := emit (Delay ms).

Definition attemptLabel (retries : nat) : jsstring :=
  lit "Error in operation (attempt "
    ++ numberToString (Z.of_nat (retries + 1)) ++ lit "):".

Equations? fetchWithRetry (retries : nat) : M Trace A
  by wf (MaxRetries - retries)%nat lt :=
fetchWithRetry retries :=
  try_catch fetchWithTimeout (fun error =>
    do! emit (ConsoleError (attemptLabel retries) error) in
    match lt_dec retries (MaxRetries - 1) with
    | left _ =>
        do! emit (ConsoleLog (lit "Retrying in 0.1 seconds...")) in
        do! delay RetryDelay in
        fetchWithRetry (retries + 1)
    | right _ => throw error
    end).
Proof. unfold MaxRetries in *. lia. Qed.

End Wrapper.

(** What is recorded when an attempt fails and another follows. *)
Definition retryEvents (retries : nat) (e : Thrown) : Trace :=
  [Invoke; ConsoleError (attemptLabel retries) e;
   ConsoleLog (lit "Retrying in 0.1 seconds..."); Delay RetryDelay].

End Retry.

(* ================================================================= *)
(** ** The client ([NostrClient]) *)

(** An instance: the relay-library handle (its relay list) and the
    logged-in user. *)
Record NostrClient : Type := mkNostrClient {
  client_relays : list jsstring;
  client_user : NDKUser;
}.

Definition LoginTimeoutMSec : Z := 60000.

Definition Relays : list jsstring :=
  [lit "wss://relay.hakua.xyz"; lit "wss://relay.damus.io";
   lit "wss://relay.nostr.band"].

(** [TypeError] of reading a property of [undefined]. *)
Definition TypeError_undefined : Thrown :=
  JsError "TypeError" (lit "Cannot read properties of undefined") None.

(** *** connect *)

Module Session.

(** The process-wide state: the static field [NostrClient.#nostrClient]
    and the trace. *)
Record Runtime : Type := mkRuntime {
  nostrClient : option NostrClient;
  trace : Trace;
}.

Definition readSingleton : M Runtime (option NostrClient) :=
  fun rt => (Return (nostrClient rt), rt).

Definition writeSingleton (c : NostrClient) : M Runtime unit :=
  fun rt => (Return tt, mkRuntime (Some c) (trace rt)).

(** Run a computation over the trace inside the process state. *)
Definition onTrace {A} (c : M Trace A) : M Runtime A :=
  fun rt =>
    match c (trace rt) with
    | (r, t') => (r, mkRuntime (nostrClient rt) t')
    end.

Section Connect.
Variable P : Platform.

(** One call of [connect], run from its first line to its last with
    no other call in between. Calls that overlap are modelled below. *)
Definition connect : M Runtime NostrClient :=
  let! existing := readSingleton in
  match existing with
  | Some c => ret c
  | None =>
      do! onTrace (call (NewSigner LoginTimeoutMSec)
                        (new_NDKNip07Signer P LoginTimeoutMSec)) in
      do! onTrace (call SignerBlockUntilReady (signer_blockUntilReady P)) in
      do! onTrace (emit (NewNDK Relays)) in
      (* ndk.assertSigner() passes: the signer was just given *)
      do! onTrace (call (NdkConnect 1) (ndk_connect P 1)) in
      let! user := onTrace (call SignerUser (signer_user P)) in
      do! onTrace (call (UserFetchProfile user) (loggedIn_fetchProfile P user)) in
      let c := mkNostrClient Relays user in
      do! writeSingleton c in
      ret c
  end.

(** *** connect, from one [await] to the next

    [connect] above is one call run from its first line to its last
    with nothing in between. An [async] function runs up to its first
    [await] when it is called and from one [await] to the next each
    time it is resumed; other calls of [connect] run in between. The
    test of the static field (l.59) and the store into it (l.74) are
    in different segments, four [await]s apart. *)

(** Where a call of [connect] stands. *)
Inductive Call : Type :=
| AwaitBlockUntilReady               (* await signer.blockUntilReady() *)
| AwaitNdkConnect                    (* await ndk.connect(1) *)
| AwaitSignerUser                    (* await ndk.signer.user() *)
| AwaitFetchProfile (user : NDKUser) (* await user.fetchProfile() *)
| Settled (r : Completion NostrClient).

(** A segment that throws settles the call as rejected. *)
Definition segment (c : M Runtime Call) : Runtime -> Call * Runtime :=
  fun rt =>
    match c rt with
    | (Return k, rt') => (k, rt')
    | (Throw e, rt') => (Settled (Throw e), rt')
    end.

(** From the call to the first [await]. *)
Definition begin : Runtime -> Call * Runtime :=
  segment
    (let! existing := readSingleton in
     match existing with
     | Some c => ret (Settled (Return c))
     | None =>
         do! onTrace (call (NewSigner LoginTimeoutMSec)
                           (new_NDKNip07Signer P LoginTimeoutMSec)) in
         do! onTrace (emit SignerBlockUntilReady) in
         ret AwaitBlockUntilReady
     end).

(** From the [await] a call stands at to the next one, or to its end.
    The awaited promise settles as the platform says. *)
Definition resume (k : Call) : Runtime -> Call * Runtime :=
  match k with
  | AwaitBlockUntilReady =>
      segment
        (do! settle (signer_blockUntilReady P) in
         do! onTrace (emit (NewNDK Relays)) in
         do! onTrace (emit (NdkConnect 1)) in
         ret AwaitNdkConnect)
  | AwaitNdkConnect =>
      segment
        (do! settle (ndk_connect P 1) in
         do! onTrace (emit SignerUser) in
         ret AwaitSignerUser)
  | AwaitSignerUser =>
      segment
        (let! user := settle (signer_user P) in
         do! onTrace (emit (UserFetchProfile user)) in
         ret (AwaitFetchProfile user))
  | AwaitFetchProfile user =>
      segment
        (do! settle (loggedIn_fetchProfile P user) in
         let c := mkNostrClient Relays user in
         do! writeSingleton c in
         ret (Settled (Return c)))
  | Settled r => fun rt => (Settled r, rt)
  end.

(** What the event loop does next: somebody calls [connect], or the
    call number [i] (in the order the calls were made, from 0) is
    resumed. *)
Inductive Action : Type :=
| Enter
| Resume (i : nat).

(** The process state and the calls of [connect] made so far. *)
Record Process : Type := mkProcess {
  runtime : Runtime;
  calls : list Call;
}.

Definition act (s : Process) (a : Action) : Process :=
  match a with
  | Enter =>
      let '(k, rt') := begin (runtime s) in
      mkProcess rt' (calls s ++ [k])
  | Resume i =>
      match calls s !! i with
      | Some k =>
          let '(k', rt') := resume k (runtime s) in
          mkProcess rt' (<[i := k']> (calls s))
      | None => s
      end
  end.

Definition run (schedule : list Action) (s : Process) : Process :=
  fold_left act schedule s.

(** One call, resumed until it has settled. *)
Definition alone : list Action := Enter :: repeat (Resume 0) 4.

(** Two calls, the second made after the first has been resumed [j]
    times; the first is then resumed until it has settled. *)
Definition overlapping (j : nat) : list Action :=
  Enter :: repeat (Resume 0) j ++ Enter :: repeat (Resume 0) (4 - j).

End Connect.

End Session.

(** *** getUser, getUserWithProfile *)

Module Users.

Section Lookup.
Variable P : Platform.

(** [npub.length !== 63 || !npub.startsWith('npub')]. *)
Definition invalidNpub (npub : jsstring) : bool :=
  negb (length npub =? 63)%nat || negb (startsWith npub (lit "npub")).

Definition InvalidNpub (npub : jsstring) : Thrown :=
  Error (lit "Invalid npub: " ++ npub).

Definition getUser (npub : jsstring) : M Trace NDKUser :=
  if invalidNpub npub then throw (InvalidNpub npub)
  else
    try_catch (call (NdkGetUser npub) (ndk_getUser P npub))
      (fun e =>
         do! emit (ConsoleError (lit "Error: getUser:") e) in
         throw e).

(** The [NDKUser] object that [getUserWithProfile] returns, as it is
    when it is returned: the user [ndk.getUser] gave, and its [profile]
    property. *)
Record UserWithProfile : Type := mkUserWithProfile {
  fetched : NDKUser;
  fetched_profile : option NDKUserProfile;
}.

(** The method returns the object it called [fetchProfile] on, so the
    profile of what it returns is the one the fetch that resolved has
    left there. *)
Definition getUserWithProfile (npub : jsstring) : M Trace UserWithProfile :=
  if invalidNpub npub then throw (InvalidNpub npub)
  else
    try_catch
      (let! user := call (NdkGetUser npub) (ndk_getUser P npub) in
       let! profile :=
         try_catch (Retry.fetchWithRetry (user_fetchProfile P user) 0)
           (fun e =>
              do! emit (ConsoleError
                          (lit "Error: getUserWithProfile: fetchProfile:") e) in
              throw e) in
       ret (mkUserWithProfile user profile))
      (fun e =>
         do! emit (ConsoleError (lit "Error: getUserWithProfile:") e) in
         throw e).

End Lookup.

End Users.

(** *** sendZapRequest *)

Module Zap.

(** [NDKKind.ZapRequest]. *)
Definition ZapRequest : Z := 9734.

(** What [sendZapRequest] resolves to. *)
Record SendZapRequestResponse : Type := mkSendZapRequestResponse {
  resp_pr : jsstring;
  resp_verify : option jsstring;
  resp_successAction : option jsstring;
}.

(** A number that may be [NaN], as a string. *)
Definition amountToString (a : option Z) : jsstring :=
  match a with Some n => numberToString n | None => lit "NaN" end.

(** [if (b) throw e]. *)
Definition throw_if (b : bool) (e : Thrown) : M Trace unit :=
  if b then throw e else ret tt.

Section Flow.
Variable P : Platform.
Variable self : NostrClient.

(** The four tags the id is computed over. *)
Definition zapTags (msat : Z) (lnurl : jsstring) (to : NDKUser)
  : list (list jsstring) :=
  [ lit "relays" :: Relays;
    [lit "amount"; numberToString msat];
    [lit "lnurl"; lnurl];
    [lit "p"; user_pubkey to] ].

(** [event.tags.push(tag)]. *)
Definition pushTag (e : NostrEvent) (tag : list jsstring) : NostrEvent :=
  mkNostrEvent (kind e) (pubkey e) (created_at e) (tags e ++ [tag])
               (content e) (id e) (sig e).

Definition makeZapRequest (nip05Id : jsstring) (msat : Z)
  : M Trace NostrEvent :=
  let! to := call (FromNip05 nip05Id) (NDKUser_fromNip05 P nip05Id) in
  match to with
  | None => throw (NostrUnknownUserError nip05Id)
  | Some to =>
      let created := unixtime P in
      let! lnurl := settle (toBech32EncodedLnurl P (toLnurlPayUrl P nip05Id)) in
      let unsignedEvent :=
        mkNostrEvent ZapRequest (user_pubkey (client_user self)) created
                     (zapTags msat lnurl to) (lit "zap request") None None in
      let eventId := generateEventId P unsignedEvent in
      ret (pushTag unsignedEvent [lit "e"; eventId])
  end.

Definition requestLnurlPay (metadata : NostrEvent) : M Trace LnurlPay :=
  let! lud16 := settle (JSON_parse_lud16 P (content metadata)) in
  let lnurlPayUrl := toLnurlPayUrl P lud16 in
  let! body := call (HttpGetLnurlPay lnurlPayUrl)
                    (axios_get_lnurlPay P lnurlPayUrl) in
  match allowsNostr body, nostrPubkey body with
  | true, Some (_ :: _) => ret body
  | _, _ =>
      throw (Error (lud16 ++ lit " doesn't support Nostr. body: [object Object]"))
  end.

Definition getZapEndpointWithParams
    (unsignedEvent : NostrEvent) (sig : jsstring) (lud16 : jsstring)
  : M Trace jsstring :=
  match tags unsignedEvent !! 4%nat with
  | None => throw TypeError_undefined
  | Some tag4 =>
      let metadata :=
        mkNostrEvent 0 (pubkey unsignedEvent) (created_at unsignedEvent)
                     (tags unsignedEvent) (JSON_stringify_lud16 P lud16)
                     (tag4 !! 1%nat) (Some sig) in
      let! lnurlPay :=
        try_catch (requestLnurlPay metadata)
          (fun e => throw (NostrRequestLnurlPayError metadata e)) in
      match callback lnurlPay with
      | Some ((_ :: _) as callbackUrl) =>
          let! nostr := settle (encodeURI_JSON P unsignedEvent) in
          match tags unsignedEvent !! 1%nat with
          | None => throw TypeError_undefined
          | Some tag1 =>
              (* +unsignedEvent.tags[1][1]; NaN compares false *)
              let amount := tag1 !! 1%nat ≫= stringToNumber in
              do! match minSendable lnurlPay, amount with
                  | Some min, Some a =>
                      throw_if (negb (min =? 0) && (a <? min))
                               (NostrMinSendableConstraintError a min)
                  | _, _ => ret tt
                  end in
              do! match maxSendable lnurlPay, amount with
                  | Some max, Some a =>
                      throw_if (negb (max =? 0) && (max <? a))
                               (NostrMaxSendableConstraintError a max)
                  | _, _ => ret tt
                  end in
              match tags unsignedEvent !! 2%nat with
              | None => throw TypeError_undefined
              | Some tag2 =>
                  settle (zapEndpointUrl P callbackUrl
                            (amountToString amount) nostr (tag2 !! 1%nat))
              end
          end
      | _ => throw (NostrGetZapEndpointCallbackUrlError metadata lnurlPay)
      end
  end.

Definition sendZapRequest (nip05Id : jsstring) (sat : Z)
  : M Trace SendZapRequestResponse :=
  let millisats := sat * 1000 in
  let! unsignedEvent := makeZapRequest nip05Id millisats in
  let! sig := call (SignerSign unsignedEvent) (signer_sign P unsignedEvent) in
  let! zapEndpoint := getZapEndpointWithParams unsignedEvent sig nip05Id in
  let! response := call (HttpGetZapEndpoint zapEndpoint)
                        (axios_get_zapEndpoint P zapEndpoint) in
  match response with
  | Some data =>
      if eqb_string (status data) (lit "OK") then
        match pr data with
        | Some ((_ :: _) as invoice) =>
            ret (mkSendZapRequestResponse invoice (verify data)
                                          (successAction data))
        | _ => throw (NostrInvoiceNotFoundError response)
        end
      else throw (NostrCallZapEndpointError response)
  | None => throw (NostrCallZapEndpointError response)
  end.

End Flow.

(** What the properties of the flow are stated with. *)

Section Stated.
Variable P : Platform.
Variable self : NostrClient.

(** The event before the [e] tag is pushed. *)
Definition unsignedZapRequest (msat : Z) (lnurl : jsstring) (to : NDKUser)
: NostrEvent :=
mkNostrEvent ZapRequest (user_pubkey (client_user self)) (unixtime P)
             (zapTags msat lnurl to) (lit "zap request") None None.

(** An event with its last tag taken off. *)
Definition withoutLastTag (e : NostrEvent) : NostrEvent :=
mkNostrEvent (kind e) (pubkey e) (created_at e) (removelast (tags e))
             (content e) (id e) (sig e).

(** The [GET]s to the payment endpoint in a trace. *)
Definition isZapEndpointGet (ev : Event) : bool :=
match ev with HttpGetZapEndpoint _ => true | _ => false end.

Definition zapEndpointGets (t : Trace) : Trace := filter isZapEndpointGet t.

(** What the provider answers for an address, when it answers. *)
Definition providerAnswer (nip05Id : jsstring) : option LnurlPay :=
match JSON_parse_lud16 P (JSON_stringify_lud16 P nip05Id) with
| Return lud16 =>
    match axios_get_lnurlPay P (toLnurlPayUrl P lud16) with
    | Return lnurlPay => Some lnurlPay
    | Throw _ => None
    end
| Throw _ => None
end.

(** The amount is outside a bound the provider declared and that is
  not zero. *)
Definition belowDeclaredMin (lnurlPay : LnurlPay) (amount : Z) : Prop :=
exists min, minSendable lnurlPay = Some min /\ min <> 0 /\ amount < min.

Definition aboveDeclaredMax (lnurlPay : LnurlPay) (amount : Z) : Prop :=
exists max, maxSendable lnurlPay = Some max /\ max <> 0 /\ max < amount.

(** The event [makeZapRequest] builds. *)
Definition builtZapRequest (msat : Z) (lnurl : jsstring) (to : NDKUser)
: NostrEvent :=
pushTag (unsignedZapRequest msat lnurl to)
  [lit "e"; generateEventId P (unsignedZapRequest msat lnurl to)].

(** The flow gets as far as the amount check: the recipient
  resolves, the signer signs, the provider answers with Nostr
  support and a callback URL, and the request serialises. *)
Definition reachesValidation (nip05Id : jsstring) (sat : Z) (t : Trace)
  (lnurlPay : LnurlPay) : Prop :=
exists ev t1 sig nostr,
  makeZapRequest P self nip05Id (sat * 1000) t = (Return ev, t1)
  /\ signer_sign P ev = Return sig
  /\ providerAnswer nip05Id = Some lnurlPay
  /\ allowsNostr lnurlPay = true
  /\ (exists c k, nostrPubkey lnurlPay = Some (c :: k))
  /\ (exists c cb, callback lnurlPay = Some (c :: cb))
  /\ encodeURI_JSON P ev = Return nostr.

End Stated.

End Zap.

(* ================================================================= *)
(** ** Regular expressions *)

Module Regex.

(** The fragment of the regular-expression syntax the source uses. *)
Inductive regex : Type :=
| Lit (s : jsstring)              (* a literal run of units *)
| Class (f : N -> bool)           (* one unit of a class *)
| PlusClass (f : N -> bool)       (* [..]+, greedy *)
| Seq (r1 r2 : regex)
| Alt (r1 r2 : regex)
| Opt (r : regex).                (* (?:..)?, greedy *)

Fixpoint dropLit (p s : jsstring) {struct p} : option jsstring :=
  match p, s with
  | [], _ => Some s
  | _ :: _, [] => None
  | c :: p', d :: s' => if N.eqb c d then dropLit p' s' else None
  end.

(** [f+] against [s]: as many units as possible, giving one back at a
    time until the continuation accepts. *)
Fixpoint plusK {R} (f : N -> bool) (s : jsstring)
  (k : jsstring -> option R) : option R :=
  match s with
  | [] => None
  | c :: s' =>
      if f c then
        match plusK f s' k with
        | Some r => Some r
        | None => k s'
        end
      else None
  end.

(** Backtracking match of [r] at the start of [s]; [k] receives what is
    left of [s] and decides whether the rest of the pattern matches. *)
Fixpoint matchK {R} (r : regex) (s : jsstring)
  (k : jsstring -> option R) : option R :=
  match r with
  | Lit p => match dropLit p s with Some s' => k s' | None => None end
  | Class f =>
      match s with
      | c :: s' => if f c then k s' else None
      | [] => None
      end
  | PlusClass f => plusK f s k
  | Seq r1 r2 => matchK r1 s (fun s' => matchK r2 s' k)
  | Alt r1 r2 =>
      match matchK r1 s k with
      | Some x => Some x
      | None => matchK r2 s k
      end
  | Opt r1 =>
      match matchK r1 s k with
      | Some x => Some x
      | None => k s
      end
  end.

(** The text matched at the start of [s], if the pattern matches there. *)
Definition matchHere (r : regex) (s : jsstring) : option jsstring :=
  match matchK r s (fun rest => Some rest) with
  | Some rest => Some (take (length s - length rest) s)
  | None => None
  end.

(** [RegExp.prototype.test]: a match at some position. *)
Fixpoint test (r : regex) (s : jsstring) : bool :=
  match matchHere r s with
  | Some _ => true
  | None => match s with [] => false | _ :: s' => test r s' end
  end.

(** [String.prototype.match] with a global pattern that cannot match
    the empty string: the matches from left to right, each search
    resuming where the previous match ended. [skip] counts the units of
    the previous match still to step over. *)
Fixpoint matchAllFrom (r : regex) (skip : nat) (s : jsstring)
  : list jsstring :=
  match s with
  | [] => []
  | _ :: s' =>
      match skip with
      | S n => matchAllFrom r n s'
      | O =>
          match matchHere r s with
          | Some m => m :: matchAllFrom r (length m - 1) s'
          | None => matchAllFrom r 0 s'
          end
      end
  end.

Definition matchAll (r : regex) (s : jsstring) : list jsstring :=
  matchAllFrom r 0 s.

(** [\w] *)
Definition isWord (c : N) : bool :=
  ((48 <=? c) && (c <=? 57) || (65 <=? c) && (c <=? 90)
   || (97 <=? c) && (c <=? 122) || (c =? 95))%N.

(** [[\w-]] *)
Definition isWordOrDash (c : N) : bool := isWord c || (c =? 45)%N.

(** [[^\s]] *)
Definition isNotSpace (c : N) : bool := negb (isWhiteSpace c).

(** UTF-16 decoding, as a pattern with the [u] flag reads its input: a
    high surrogate followed by a low one is one code point; any other
    unit, a lone surrogate included, is a code point by itself. *)
Fixpoint codePoints (s : jsstring) : list N :=
  match s with
  | [] => []
  | hi :: s' =>
      match s' with
      | lo :: s'' =>
          if ((55296 <=? hi) && (hi <=? 56319)
              && (56320 <=? lo) && (lo <=? 57343))%N
          then (65536 + (hi - 55296) * 1024 + (lo - 56320))%N
                 :: codePoints s''
          else hi :: codePoints s'
      | [] => [hi]
      end
  end.

End Regex.

(* ================================================================= *)
(** ** The note service ([NoteService]) *)

(** [NDKEvent] of the relay library, as the service reads it. *)
Record NDKEvent : Type := mkNDKEvent {
  ev_id : jsstring;
  ev_author : NDKUser;
  ev_content : jsstring;
  ev_tags : list (list jsstring);
  ev_created_at : option Z;
  ev_raw : jsstring;          (* JSON.stringify(event.rawEvent()) *)
}.

(** [UserProfileType], as far as the sources show it. *)
Record UserProfileType : Type := mkUserProfile {
  nostrAddress : option jsstring;
}.

(** [User] of [domain/entities/User]. *)
Record User : Type := mkUser {
  npub : jsstring;
  user_key : jsstring;
  profile : option UserProfileType;
}.

Inductive MediaType : Type := image | video | youtube.

(** [Media] of [domain/entities/Note]. *)
Record Media : Type := mkMedia {
  media_type : MediaType;
  media_url : jsstring;
}.

(** [NoteReactions]. [customReactions] is a plain object used as a
    map from reaction text to count. *)
Record NoteReactions : Type := mkNoteReactions {
  likesCount : Z;
  repostsCount : Z;
  zapsAmount : Z;
  customReactions : gmap jsstring Z;
}.

(** [Note]. Dates are milliseconds since the epoch. *)
Inductive Note : Type := mkNote {
  note_id : jsstring;
  author : User;
  text : jsstring;
  media : list Media;
  json : jsstring;
  replyParentNote : option Note;
  replyChildNotes : list Note;
  reactions : NoteReactions;
  note_created_at : Z;
}.

(** What the service is given from outside. *)
Record Collaborators : Type := mkCollaborators {
  (* new URL(url).pathname; None when the constructor throws *)
  URL_pathname : jsstring -> option jsstring;
  (* the Unicode property Emoji of a code point *)
  Emoji : N -> bool;
  (* #userProfileRepository.fetchProfile *)
  repo_fetchProfile : jsstring -> Completion (option UserProfileType);
  (* #nostrClient.fetchEvent / fetchEvents / calculateZapsAmount *)
  client_fetchEvent : jsstring -> Completion (option NDKEvent);
  client_fetchEvents : list Z -> list jsstring -> Completion (list NDKEvent);
  client_calculateZapsAmount : jsstring -> Completion Z;
}.

(** [NDKKind.Reaction], [NDKKind.Repost]. *)
Definition Reaction : Z := 7.
Definition Repost : Z := 6.

Module NoteService.

Definition imageExtensions : list jsstring :=
  [lit "jpg"; lit "jpeg"; lit "png"; lit "gif"; lit "webp"; lit "svg"].

Definition videoExtensions : list jsstring :=
  [lit "mp4"; lit "webm"; lit "ogg"; lit "mov"; lit "avi"].

(** [Array.prototype.includes] on strings. *)
Definition includes (l : list jsstring) (x : jsstring) : bool :=
  existsb (eqb_string x) l.

Import Regex.

(** [/(https?:\/\/[^\s]+)/g] *)
Definition urlPattern : regex :=
  Seq (Lit (lit "http"))
  (Seq (Opt (Lit (lit "s")))
  (Seq (Lit (lit "://"))
       (PlusClass isNotSpace))).

(** [/(?:https?:\/\/)?(?:www\.)?(?:youtube\.com|youtu\.be)\/(?:watch\?v=)?[\w-]+/] *)
Definition youTubePattern : regex :=
  Seq (Opt (Seq (Lit (lit "http"))
           (Seq (Opt (Lit (lit "s"))) (Lit (lit "://")))))
  (Seq (Opt (Lit (lit "www.")))
  (Seq (Alt (Lit (lit "youtube.com")) (Lit (lit "youtu.be")))
  (Seq (Lit (lit "/"))
  (Seq (Opt (Lit (lit "watch?v=")))
       (PlusClass isWordOrDash))))).

(** [TypeError] of [new URL] on a string that is not a URL. *)
Definition TypeError_InvalidURL : Thrown :=
  JsError "TypeError" (lit "Invalid URL") None.

Definition dot : N := 46.
Definition colon : N := 58.

Section Service.
Variable C : Collaborators.

Definition getUrlExtension (url : jsstring) : M Trace (option jsstring) :=
  match URL_pathname C url with
  | None => throw TypeError_InvalidURL
  | Some pathname =>
      let parts := split dot pathname in
      if (1 <? length parts)%nat
      then ret (option_map toLowerCase (last parts))
      else ret None
  end.

(** [extension ? list.includes(extension) : false]; the empty string
    is falsy. *)
Definition knownExtension (l : list jsstring) (extension : option jsstring)
  : bool :=
  match extension with
  | Some ((_ :: _) as e) => includes l e
  | _ => false
  end.

Definition isImageUrl (url : jsstring) : M Trace bool :=
  let! extension := getUrlExtension url in
  ret (knownExtension imageExtensions extension).

Definition isVideoUrl (url : jsstring) : M Trace bool :=
  let! extension := getUrlExtension url in
  ret (knownExtension videoExtensions extension).

Definition isYouTubeUrl (url : jsstring) : bool :=
  test youTubePattern url.

(** One turn of the loop of [extractMedia]: what is pushed for
    [url], if anything. *)
Definition classify (url : jsstring) : M Trace (option Media) :=
  let! isImage := isImageUrl url in
  if isImage then ret (Some (mkMedia image url))
  else
    let! isVideo := isVideoUrl url in
    if isVideo then ret (Some (mkMedia video url))
    else if isYouTubeUrl url then ret (Some (mkMedia youtube url))
    else ret None.

(** [for (const url of matches) { .. }] *)
Fixpoint extractLoop (matches : list jsstring) (media : list Media)
  : M Trace (list Media) :=
  match matches with
  | [] => ret media
  | url :: rest =>
      let! m := classify url in
      extractLoop rest (match m with
                        | Some x => media ++ [x]
                        | None => media
                        end)
  end.

Definition extractMedia (event : NDKEvent) : M Trace (list Media) :=
  let matches := matchAll urlPattern (ev_content event) in
  extractLoop matches [].

(** [content.match(/\p{Emoji}/u)]: some code point of [content] has
    the property. *)
Definition matchEmoji (content : jsstring) : bool :=
  existsb (Emoji C) (codePoints content).

(** The counters of the loop of [createNoteReactionsFromEvent]. *)
Definition Counters : Type := (Z * gmap jsstring Z)%type.

(** One turn of that loop. *)
Definition countReaction (acc : Counters) (reactionEvent : NDKEvent)
  : Counters :=
  let '(likesCount, customReactions) := acc in
  let content := trim (ev_content reactionEvent) in
  if eqb_string content (lit "+") || eqb_string content []
  then (likesCount + 1, customReactions)
  else if (startsWith content [colon] && endsWith content [colon])
          || ((length content =? 1)%nat && matchEmoji content)
  then (likesCount,
        <[content := default 0 (customReactions !! content) + 1]>
          customReactions)
  else (likesCount, customReactions).

Definition createNoteReactionsFromEvent (event : NDKEvent)
  : M Trace NoteReactions :=
  let! reactionEvents :=
    call (ClientFetchEvents [Reaction] [ev_id event])
         (client_fetchEvents C [Reaction] [ev_id event]) in
  let '(likesCount, customReactions) :=
    fold_left countReaction reactionEvents (0, ∅) in
  let! repostEvents :=
    call (ClientFetchEvents [Repost] [ev_id event])
         (client_fetchEvents C [Repost] [ev_id event]) in
  let repostsCount := Z.of_nat (length repostEvents) in
  let! zapsAmount :=
    call (ClientCalculateZapsAmount (ev_id event))
         (client_calculateZapsAmount C (ev_id event)) in
  ret (mkNoteReactions likesCount repostsCount zapsAmount customReactions).

(** [event.tags.find((tag) => tag[0] === 'e')?.[1]] *)
Definition replyEventIdOf (event : NDKEvent) : option jsstring :=
  match find (fun tag => match tag with
                         | t0 :: _ => eqb_string t0 (lit "e")
                         | [] => false
                         end) (ev_tags event) with
  | Some tag => tag !! 1%nat
  | None => None
  end.

(** The body of [createNoteFromEvent], with the recursive call as
    [self]. *)
Definition createNoteFromEvent_body
    (self : NDKEvent -> nat -> M Trace Note)
    (event : NDKEvent) (depth : nat) : M Trace Note :=
  let npub := user_npub (ev_author event) in
  let! profile := call (RepoFetchProfile npub) (repo_fetchProfile C npub) in
  let author := mkUser npub (user_pubkey (ev_author event)) profile in
  let! media := extractMedia event in
  let json := ev_raw event in
  let replyEventId := replyEventIdOf event in
  let! replyEvent :=
    match replyEventId, depth with
    | Some ((_ :: _) as eventId), O =>
        call (ClientFetchEvent eventId) (client_fetchEvent C eventId)
    | _, _ => ret None
    end in
  let! replyParentNote :=
    match replyEvent with
    | Some e => let! n := self e 1%nat in ret (Some n)
    | None => ret None
    end in
  let! reactions := createNoteReactionsFromEvent event in
  let created :=
    match ev_created_at event with
    | Some t => if t =? 0 then 0 else t * 1000
    | None => 0
    end in
  ret (mkNote (ev_id event) author (ev_content event) media json
              replyParentNote [] reactions created).

(** The recursion stops by itself: a call at depth 1 never reaches
    [self]. [createNoteFromEvent] is the body with itself as [self],
    unrolled the two levels that can run; [createNoteFromEvent_unfold]
    below is the source's recursive equation. *)
Definition unreachable (e : NDKEvent) (depth : nat) : M Trace Note :=
  throw (Error (lit "unreachable")).

Definition createNoteFromEvent (event : NDKEvent) (depth : nat)
  : M Trace Note :=
  createNoteFromEvent_body
    (createNoteFromEvent_body unreachable) event depth.

End Service.

(** What the properties of the service are stated with. *)

(** The fetches of a reply parent in a trace. *)
Definition isReplyFetch (ev : Event) : bool :=
  match ev with ClientFetchEvent _ => true | _ => false end.

Definition replyFetches (t : Trace) : Trace := filter isReplyFetch t.

(** The extension the source computes from a parsed path. *)
Definition extensionOfParts (pathname : jsstring) : option jsstring :=
  if (1 <? length (split dot pathname))%nat
  then option_map toLowerCase (last (split dot pathname))
  else None.

(** What the loop of [extractMedia] pushes for a URL whose path is
    [pathname]. *)
Definition pushed (pathname url : jsstring) : option Media :=
  if knownExtension imageExtensions (extensionOfParts pathname)
  then Some (mkMedia image url)
  else if knownExtension videoExtensions (extensionOfParts pathname)
  then Some (mkMedia video url)
  else if isYouTubeUrl url then Some (mkMedia youtube url)
  else None.

(** The spec's words: [ext] is the substring of [pathname] after its
    last dot, lower-cased. *)
Definition hasExtension (pathname ext : jsstring) : Prop :=
  exists before after,
    pathname = before ++ dot :: after
    /\ ~ In dot after
    /\ ext = toLowerCase after.

(** The strings of [ms] occur in [s] one after the other, without
    overlap, in the order of the list. *)
Inductive occursInOrder : list jsstring -> jsstring -> Prop :=
| occurs_none s : occursInOrder [] s
| occurs_next gap m rest ms :
    occursInOrder ms rest -> occursInOrder (m :: ms) (gap ++ m ++ rest).

(** The grinning face, U+1F600: one code point, two code units. *)
Definition grinningFace : jsstring := [55357; 56832]%N.

End NoteService.

(* ================================================================= *)
(** ** What a pattern matches *)

Module Language.

Import Regex.

(** [Matches r m]: the string [m] is in the language of [r]. *)
Inductive Matches : regex -> jsstring -> Prop :=
| MLit p : Matches (Lit p) p
| MClass f c : f c = true -> Matches (Class f) [c]
| MPlusOne f c : f c = true -> Matches (PlusClass f) [c]
| MPlusMore f c m :
    f c = true -> Matches (PlusClass f) m -> Matches (PlusClass f) (c :: m)
| MSeq r1 r2 m1 m2 :
    Matches r1 m1 -> Matches r2 m2 -> Matches (Seq r1 r2) (m1 ++ m2)
| MAltL r1 r2 m : Matches r1 m -> Matches (Alt r1 r2) m
| MAltR r1 r2 m : Matches r2 m -> Matches (Alt r1 r2) m
| MOptSome r m : Matches r m -> Matches (Opt r) m
| MOptNone r : Matches (Opt r) [].

(** [s] has [m] somewhere inside. *)
Definition contains (s m : jsstring) : Prop :=
  exists before after, s = before ++ m ++ after.

End Language.

(* ================================================================= *)
(** ** [User.verified] *)

Module Entities.

(** [!!user.profile?.nostrAddress] *)
Definition verified (user : User) : bool :=
  match profile user with
  | Some p =>
      match nostrAddress p with
      | Some (_ :: _) => true
      | _ => false
      end
  | None => false
  end.

End Entities.

(* ================================================================= *)
(** ** Subscribing to notes ([NoteService.subscribeNotes],
       [NostrClient.subscribeEvents], [NostrClient.getLoggedInUser]) *)

Module Feed.

(** [NDKKind.Text] *)
Definition Text : Z := 1.

(** [NDKFilter], with the fields the service sets. *)
Record NDKFilter : Type := mkNDKFilter {
  kinds : list Z;
  authors : list jsstring;
  since : option Z;
  until : option Z;
  limit : Z;
  search : option jsstring;
}.

(** [SubscribeNotesOptions]; every field is optional. Dates are
    milliseconds since the epoch. *)
Record SubscribeNotesOptions : Type := mkSubscribeNotesOptions {
  authorPubkeys : option (list jsstring);
  opt_since : option Z;
  opt_until : option Z;
  opt_limit : option Z;
  opt_image : option bool;
  opt_isForever : option bool;
}.

(** What this layer calls besides the calls of [Event]. *)
Inductive FeedCall : Type :=
| GetFollows (u : NDKUser)                          (* user.follows() *)
| NdkSubscribe (filters : NDKFilter) (closeOnEose : bool)
| ConsoleErrorSubscribe (e : Thrown)
| OnNote (n : Note).                                (* onNote(note) *)

(** The trace of the service calls and the trace of the feed calls,
    each in its order. *)
Definition FeedState : Type := (Trace * list FeedCall)%type.

(** What this layer is given from outside. *)
Record FeedPlatform : Type := mkFeedPlatform {
  unixtimeOf : Z -> Z;                                  (* nostr/utils *)
  user_follows : NDKUser -> Completion (list NDKUser);
  ndk_subscribe : NDKFilter -> bool -> Completion unit;
}.

Definition feedCall {A} (ev : FeedCall) (c : Completion A)
  : M FeedState A :=
  fun s => (c, (fst s, snd s ++ [ev])).

(** Run a service computation on the service trace. *)
Definition onService {A} (c : M Trace A) : M FeedState A :=
  fun s => match c (fst s) with (r, t') => (r, (t', snd s)) end.

(** [Array.prototype.join] *)
Fixpoint join (sep : jsstring) (l : list jsstring) : jsstring :=
  match l with
  | [] => []
  | [x] => x
  | x :: rest => x ++ sep ++ join sep rest
  end.

Section Subscriptions.
Variable F : FeedPlatform.
Variable C : Collaborators.
Variable self : NostrClient.

(** [NostrClient.getLoggedInUser] *)
Definition getLoggedInUser : M FeedState NDKUser := ret (client_user self).

(** [NostrClient.subscribeEvents]; [isForever] is [None] when the
    caller passes [undefined], and then takes its default [true]. The
    returned handle is not modelled. *)
Definition subscribeEvents (filters : NDKFilter) (isForever : option bool)
  : M FeedState unit :=
  let isForever := default true isForever in
  try_catch
    (feedCall (NdkSubscribe filters (negb isForever))
              (ndk_subscribe F filters (negb isForever)))
    (fun e => do! feedCall (ConsoleErrorSubscribe e) (Return tt) in throw e).

(** The filter [subscribeNotes] builds. *)
Definition filterOptions (options : option SubscribeNotesOptions)
    (follows : list NDKUser) : NDKFilter :=
  mkNDKFilter
    [Text]
    (match options ≫= authorPubkeys with
     | Some a => a
     | None => map user_pubkey follows
     end)
    (option_map (unixtimeOf F) (options ≫= opt_since))
    (option_map (unixtimeOf F) (options ≫= opt_until))
    (default 20 (options ≫= opt_limit))
    (match options ≫= opt_image with
     | Some true =>
         Some (lit "http.+(" ++ join (lit "|") NoteService.imageExtensions
                 ++ lit ")")
     | _ => None
     end).

(** The listener [subscribeNotes] registers. *)
Definition noteListener (event : NDKEvent) : M FeedState unit :=
  let! note := onService (NoteService.createNoteFromEvent C event 0) in
  feedCall (OnNote note) (Return tt).

Definition subscribeNotes (options : option SubscribeNotesOptions)
  : M FeedState unit :=
  let! user := getLoggedInUser in
  let! follows := feedCall (GetFollows user) (user_follows F user) in
  subscribeEvents (filterOptions options follows)
                  (options ≫= opt_isForever).

(** [postNote], [subscribeZaps] *)
Definition notImplemented : M FeedState unit :=
  throw (Error (lit "Method not implemented.")).

End Subscriptions.

(** The notes handed to [onNote], in order. *)
Definition delivered (s : FeedState) : list Note :=
  omap (fun c => match c with OnNote n => Some n | _ => None end) (snd s).

(** The subscriptions opened, in order. *)
Definition subscriptions (s : FeedState) : list (NDKFilter * bool) :=
  omap (fun c => match c with
                 | NdkSubscribe f b => Some (f, b)
                 | _ => None
                 end) (snd s).

End Feed.

(* ================================================================= *)
(** ** What the further properties are stated with *)

Module Stated.

(** The recorded calls of each kind. *)
Definition isProfileFetch (ev : Event) : bool :=
  match ev with RepoFetchProfile _ => true | _ => false end.

Definition isEventsFetch (ev : Event) : bool :=
  match ev with ClientFetchEvents _ _ => true | _ => false end.

Definition isZapsCalc (ev : Event) : bool :=
  match ev with ClientCalculateZapsAmount _ => true | _ => false end.

Definition count (p : Event -> bool) (t : Trace) : nat :=
  length (filter p t).

(** A reaction that counts as a like: trimmed, it is [+] or empty. *)
Definition isLike (reactionEvent : NDKEvent) : bool :=
  let content := trim (ev_content reactionEvent) in
  eqb_string content (lit "+") || eqb_string content [].

(** A reaction that counts as a custom reaction: not a like, and
    wrapped in colons or one code unit with the Emoji property. *)
Definition isCustom (C : Collaborators) (reactionEvent : NDKEvent) : bool :=
  let content := trim (ev_content reactionEvent) in
  negb (isLike reactionEvent)
  && ((startsWith content [NoteService.colon]
       && endsWith content [NoteService.colon])
      || match content with [c] => Emoji C c | _ => false end).

(** How many of [events] are custom reactions with text [key]. *)
Definition customCount (C : Collaborators) (key : jsstring)
    (events : list NDKEvent) : nat :=
  length (filter (fun ev => isCustom C ev
                            && eqb_string (trim (ev_content ev)) key)
                 events).

(** A count read from the reactions object: absent when zero. *)
Definition tally (n : nat) : option Z :=
  match n with O => None | _ => Some (Z.of_nat n) end.

(** The two hosts of the YouTube pattern. *)
Definition youTubeHosts : list jsstring :=
  [lit "youtube.com"; lit "youtu.be"].

(** The two schemes of the URL pattern. *)
Definition urlSchemes : list jsstring := [lit "http://"; lit "https://"].

(** The steps of [connect], in order, for a signer that gives [user]. *)
Definition connectSteps (user : NDKUser) : Trace :=
  [NewSigner LoginTimeoutMSec; SignerBlockUntilReady; NewNDK Relays;
   NdkConnect 1; SignerUser; UserFetchProfile user].

(** The metadata event [getZapEndpointWithParams] builds from a
    request, a signature and an address. *)
Definition zapMetadata (P : Platform) (unsignedEvent : NostrEvent)
    (sig lud16 : jsstring) : NostrEvent :=
  mkNostrEvent 0 (pubkey unsignedEvent) (created_at unsignedEvent)
               (tags unsignedEvent) (JSON_stringify_lud16 P lud16)
               (tags unsignedEvent !! 4%nat ≫= (fun tag => tag !! 1%nat))
               (Some sig).

(** The two amount checks, as the source evaluates them. *)
Definition tooSmall (lnurlPay : LnurlPay) (amount : Z) : bool :=
  match minSendable lnurlPay with
  | Some min => negb (min =? 0) && (amount <? min)
  | None => false
  end.

Definition tooLarge (lnurlPay : LnurlPay) (amount : Z) : bool :=
  match maxSendable lnurlPay with
  | Some max => negb (max =? 0) && (max <? amount)
  | None => false
  end.

(** What [sendZapRequest] makes of the payment endpoint's answer. *)
Definition invoiceOf (response : option ZapResponseData)
  : Completion Zap.SendZapRequestResponse :=
  match response with
  | Some data =>
      if eqb_string (status data) (lit "OK") then
        match pr data with
        | Some ((_ :: _) as invoice) =>
            Return (Zap.mkSendZapRequestResponse invoice (verify data)
                                                 (successAction data))
        | _ => Throw (NostrInvoiceNotFoundError response)
        end
      else Throw (NostrCallZapEndpointError response)
  | None => Throw (NostrCallZapEndpointError response)
  end.

(** The calls of a complete [sendZapRequest], in order. *)
Definition zapCalls (nip05Id : jsstring) (ev : NostrEvent)
    (lnurlPayUrl : option jsstring) (zapEndpoint : jsstring) : Trace :=
  [FromNip05 nip05Id; SignerSign ev; HttpGetLnurlPay lnurlPayUrl;
   HttpGetZapEndpoint zapEndpoint].

(** [c] records at most [k] more calls of the kind [p]. *)
Definition adds {A} (p : Event -> bool) (c : M Trace A) (k : nat) : Prop :=
  forall t r t', c t = (r, t') -> (count p t' <= count p t + k)%nat.

(** 1 for a call of the kind [p], 0 otherwise. *)
Definition weight (p : Event -> bool) (ev : Event) : nat :=
  if p ev then 1%nat else 0%nat.

End Stated.

(* ================================================================= *)
(** ** Concrete collaborators to run the model on *)

Module Demo.

Definition alice : NDKUser := mkNDKUser (lit "npub1alice") (lit "pk-alice").
Definition bob : NDKUser := mkNDKUser (lit "npub1bob") (lit "pk-bob").

Definition client : NostrClient := mkNostrClient Relays alice.

Definition invoice : ZapResponseData :=
  mkZapResponseData (lit "OK") (Some (lit "lnbc1")) None None.

(** A provider that takes between 1000 and 100000000 millisatoshis. *)
Definition openProvider : LnurlPay :=
  mkLnurlPay (Some (lit "https://pay.example/cb")) (Some 1000)
             (Some 100000000) true (Some (lit "pk-provider")).

(** A provider that declares both bounds as 0. *)
Definition closedProvider : LnurlPay :=
  mkLnurlPay (Some (lit "https://pay.example/cb")) (Some 0) (Some 0)
             true (Some (lit "pk-provider")).

(** A platform on which every collaborator answers, with [lnurlPay] as
    the provider's answer. *)
Definition platform (lnurlPay : LnurlPay) : Platform := {|
  generateEventId e :=
    lit "id-" ++ pubkey e ++ numberToString (created_at e)
      ++ concat (concat (tags e)) ++ content e;
  unixtime := 1700000000;
  toLnurlPayUrl a := Some (lit "https://pay.example/lnurlp/" ++ a);
  toBech32EncodedLnurl u := Return (lit "lnurl1" ++ default [] u);
  NDKUser_fromNip05 a := Return (Some bob);
  ndk_getUser n := Return (mkNDKUser n (lit "pk"));
  user_fetchProfile u k := Resolved (Some [(lit "name", user_npub u)]);
  signer_sign e := Return (lit "sig");
  new_NDKNip07Signer ms := Return tt;
  signer_blockUntilReady := Return tt;
  ndk_connect ms := Return tt;
  signer_user := Return alice;
  loggedIn_fetchProfile u := Return tt;
  axios_get_lnurlPay u := Return lnurlPay;
  axios_get_zapEndpoint u := Return (Some invoice);
  JSON_stringify_lud16 a := a;
  JSON_parse_lud16 s := Return s;
  encodeURI_JSON e := Return (lit "%7B%7D");
  zapEndpointUrl cb amount nostr lnurl :=
    Return (cb ++ lit "?amount=" ++ amount ++ lit "&nostr=" ++ nostr
               ++ lit "&lnurl=" ++ default (lit "undefined") lnurl);
|}.

(** The units up to the first one that satisfies [stop], and the rest. *)
Fixpoint span (stop : N -> bool) (s : jsstring) : jsstring * jsstring :=
  match s with
  | [] => ([], [])
  | c :: s' =>
      if stop c then ([], s)
      else let '(a, b) := span stop s' in (c :: a, b)
  end.

Definition oneOf (cs : jsstring) (c : N) : bool := existsb (N.eqb c) cs.

(** A small stand-in for [new URL(url).pathname]: http(s) URLs with a
    plain host name; anything else is rejected, as the platform's
    parser rejects a host with a forbidden code point. *)
Definition pathname (url : jsstring) : option jsstring :=
  let afterScheme :=
    match Regex.dropLit (lit "https://") url with
    | Some rest => Some rest
    | None => Regex.dropLit (lit "http://") url
    end in
  match afterScheme with
  | None => None
  | Some rest =>
      let '(host, after) := span (oneOf (lit "/?#")) rest in
      if (length host =? 0)%nat || existsb (oneOf (lit "[]<>^|% ")) host
      then None
      else
        let '(path, _) := span (oneOf (lit "?#")) after in
        Some (match path with [] => lit "/" | _ => path end)
  end.

Definition post (e : NDKUser) (eid : string) (text : string)
    (etags : list (list jsstring)) : NDKEvent :=
  mkNDKEvent (lit eid) e (lit text) etags (Some 1700000000) (lit "{}").

(** A reply chain of three hops: [d] replies to [c], [c] to [b], [b]
    to [a]. *)
Definition a : NDKEvent := post alice "a" "hello" [].
Definition b : NDKEvent := post bob "b" "hi" [[lit "e"; lit "a"]].
Definition c : NDKEvent := post alice "c" "how are you" [[lit "e"; lit "b"]].
Definition d : NDKEvent :=
  post bob "d" "fine https://example.com/cat.JPG" [[lit "e"; lit "c"]].

(** A note whose text holds a URL-like substring that is not a URL. *)
Definition broken : NDKEvent := post alice "x" "look at http://[ now" [].

Definition relayStore : list NDKEvent := [a; b; c; d].

Definition collaborators : Collaborators := {|
  URL_pathname := pathname;
  Emoji cp := ((128512 <=? cp) && (cp <=? 128591))%N;
  repo_fetchProfile n := Return None;
  client_fetchEvent eid :=
    Return (find (fun e => eqb_string (ev_id e) eid) relayStore);
  client_fetchEvents kinds e := Return [];
  client_calculateZapsAmount eid := Return 0;
|}.

(** A run to try the wrapper on: the operation rejects twice with
  [boom], then resolves with 7. *)
(** The same relays, holding one reaction to [a]: the grinning face. *)
Definition grinning : NDKEvent :=
  mkNDKEvent (lit "r") bob NoteService.grinningFace [[lit "e"; lit "a"]]
             (Some 1700000001) (lit "{}").

Definition reacted : Collaborators := {|
  URL_pathname := pathname;
  Emoji cp := ((128512 <=? cp) && (cp <=? 128591))%N;
  repo_fetchProfile n := Return None;
  client_fetchEvent eid :=
    Return (find (fun e => eqb_string (ev_id e) eid) relayStore);
  client_fetchEvents kinds e :=
    Return (if bool_decide (kinds = [Reaction]) then [grinning] else []);
  client_calculateZapsAmount eid := Return 0;
|}.

Definition boom : Thrown := Error (lit "boom").
Definition flaky (k : nat) : Attempt Z :=
match k with
| O | S O => Rejected boom
| _ => Resolved 7
end.
(** An operation that rejects with [boom] every time. *)
Definition alwaysFails (k : nat) : Attempt Z := Rejected boom.

(** A well-formed npub. *)
Definition carol : jsstring :=
  lit "npub1v20e8yj9y7n58q5kfp0fahea9g4p3pmv2ufjgc6c9mcnugyeemyqu6s59g".

(** A provider that does not take zaps. *)
Definition plainProvider : LnurlPay :=
  mkLnurlPay (Some (lit "https://pay.example/cb")) (Some 1000)
             (Some 100000000) false None.

(** The platform with the relays down: connecting to them fails, and
    so does every profile fetch. *)
Definition offline : Platform :=
  let P := platform openProvider in
  mkPlatform (generateEventId P) (unixtime P) (toLnurlPayUrl P)
             (toBech32EncodedLnurl P) (NDKUser_fromNip05 P) (ndk_getUser P)
             (fun _ _ => Rejected boom) (signer_sign P)
             (new_NDKNip07Signer P) (signer_blockUntilReady P)
             (fun _ => Throw boom) (signer_user P) (loggedIn_fetchProfile P)
             (axios_get_lnurlPay P) (axios_get_zapEndpoint P)
             (JSON_stringify_lud16 P) (JSON_parse_lud16 P)
             (encodeURI_JSON P) (zapEndpointUrl P).

(** The profile the relays hold for every user. *)
Definition storedProfile : NDKUserProfile :=
  [(lit "name", lit "Carol"); (lit "lud16", lit "carol@pay.example")].

(** The platform with slow relays: a profile fetch is rejected the
    first time, is still pending when the timer fires the second time,
    and resolves the third time. *)
Definition patchy : Platform :=
  let P := platform openProvider in
  mkPlatform (generateEventId P) (unixtime P) (toLnurlPayUrl P)
             (toBech32EncodedLnurl P) (NDKUser_fromNip05 P) (ndk_getUser P)
             (fun _ k =>
                match k with
                | O => Rejected boom
                | S O => Pending
                | _ => Resolved (Some storedProfile)
                end)
             (signer_sign P)
             (new_NDKNip07Signer P) (signer_blockUntilReady P)
             (ndk_connect P) (signer_user P) (loggedIn_fetchProfile P)
             (axios_get_lnurlPay P) (axios_get_zapEndpoint P)
             (JSON_stringify_lud16 P) (JSON_parse_lud16 P)
             (encodeURI_JSON P) (zapEndpointUrl P).

(** The same relays, with a repository that knows an address for
    everybody. *)
Definition named : Collaborators := {|
  URL_pathname := pathname;
  Emoji cp := ((128512 <=? cp) && (cp <=? 128591))%N;
  repo_fetchProfile n :=
    Return (Some (mkUserProfile (Some (lit "alice@example.com"))));
  client_fetchEvent eid :=
    Return (find (fun e => eqb_string (ev_id e) eid) relayStore);
  client_fetchEvents kinds e := Return [];
  client_calculateZapsAmount eid := Return 0;
|}.

(** The same relays, holding four reactions, one repost and 21
    satoshis of zaps for every note. *)
Definition lively : Collaborators := {|
  URL_pathname := pathname;
  Emoji cp := ((128512 <=? cp) && (cp <=? 128591))%N;
  repo_fetchProfile n := Return None;
  client_fetchEvent eid :=
    Return (find (fun e => eqb_string (ev_id e) eid) relayStore);
  client_fetchEvents kinds e :=
    Return (if bool_decide (kinds = [Reaction])
            then [post bob "r1" "+" []; post bob "r2" " " [];
                  post bob "r3" ":smile:" []; post bob "r4" "hello" []]
            else [post bob "rp" "" []]);
  client_calculateZapsAmount eid := Return 21;
|}.

(** Relays that accept every subscription, for a user who follows
    [bob]. *)
Definition feed : Feed.FeedPlatform := {|
  Feed.unixtimeOf ms := ms / 1000;
  Feed.user_follows u := Return [bob];
  Feed.ndk_subscribe filters closeOnEose := Return tt;
|}.

(** Five notes with images since a date, once. *)
Definition imagesOnce : Feed.SubscribeNotesOptions :=
  Feed.mkSubscribeNotesOptions None (Some 1700000000000) None (Some 5)
                               (Some true) (Some false).

End Demo.

(* ================================================================= *)
(** * Properties *)

Import Retry Session Users Zap Regex NoteService.

(** ** The monad *)

Lemma bind_Return {S A B} (c : M S A) (k : A -> M S B) s v s' :
  c s = (Return v, s') -> bind c k s = k v s'.
Proof. intros H. unfold bind. now rewrite H. Qed.

Lemma bind_Throw {S A B} (c : M S A) (k : A -> M S B) s e s' :
  c s = (Throw e, s') -> bind c k s = (Throw e, s').
Proof. intros H. unfold bind. now rewrite H. Qed.

Lemma call_Return {A} ev (v : A) t :
  call ev (Return v) t = (Return v, t ++ [ev]).
Proof. reflexivity. Qed.

Lemma call_Throw {A} ev e t :
  call (A := A) ev (Throw e) t = (Throw e, t ++ [ev]).
Proof. reflexivity. Qed.

(** Step through [bind c k s = ..] in a hypothesis by the way [c]
    completes. *)
Ltac bind_case H r s' E :=
  match type of H with
  | bind ?c ?k ?s = _ =>
      destruct (c s) as [[r|r] s'] eqn:E;
      [ rewrite (bind_Return _ _ _ _ _ E) in H
      | rewrite (bind_Throw _ _ _ _ _ E) in H ];
      cbv beta in H
  end.

(** ** The retry wrapper *)

Section RetryProperties.
Context {A : Type}.
Variable operation : nat -> Attempt A.

Lemma invocations_app t d :
  invocations (t ++ d) = (invocations t + invocations d)%nat.
Proof. unfold invocations. now rewrite filter_app, length_app. Qed.

Lemma delays_app t d : delays (t ++ d) = (delays t + delays d)%nat.
Proof. unfold delays. now rewrite filter_app, length_app. Qed.

(** An attempt that resolves ends the run. *)
Lemma fetchWithRetry_resolved retries t v :
  operation (invocations t) = Resolved v ->
  fetchWithRetry operation retries t = (Return v, t ++ [Invoke]).
Proof.
  intros H. rewrite fetchWithRetry_equation_1.
  unfold try_catch, fetchWithTimeout. now rewrite H.
Qed.

(** A failed attempt within the budget is followed by a delay and
    another attempt. *)
Lemma fetchWithRetry_retry retries t e :
  attemptError (operation (invocations t)) = Some e ->
  (retries < MaxRetries - 1)%nat ->
  fetchWithRetry operation retries t
  = fetchWithRetry operation (retries + 1) (t ++ retryEvents retries e).
Proof.
  intros H Hlt. rewrite (fetchWithRetry_equation_1 operation retries).
  unfold try_catch, fetchWithTimeout.
  destruct (operation (invocations t)) as [v|e'|]; simpl in H;
    try discriminate; injection H as <-;
    (destruct (lt_dec retries (MaxRetries - 1)); [|contradiction]);
    unfold bind, emit, delay, emit, retryEvents; simpl;
    now rewrite <- !app_assoc.
Qed.

(** A failed last attempt surfaces its error as it is. *)
Lemma fetchWithRetry_exhausted retries t e :
  attemptError (operation (invocations t)) = Some e ->
  ~ (retries < MaxRetries - 1)%nat ->
  fetchWithRetry operation retries t
  = (Throw e, t ++ [Invoke; ConsoleError (attemptLabel retries) e]).
Proof.
  intros H Hge. rewrite fetchWithRetry_equation_1.
  unfold try_catch, fetchWithTimeout.
  destruct (operation (invocations t)) as [v|e'|]; simpl in H;
    try discriminate; injection H as <-;
    (destruct (lt_dec retries (MaxRetries - 1)); [contradiction|]);
    unfold bind, emit, throw; simpl; now rewrite <- !app_assoc.
Qed.

Lemma attemptError_cases (a : Attempt A) :
  (exists v, a = Resolved v) \/ (exists e, attemptError a = Some e).
Proof. destruct a; simpl; eauto. Qed.

Lemma invocations_retryEvents t retries e :
  invocations (t ++ retryEvents retries e) = S (invocations t).
Proof. rewrite invocations_app. simpl. unfold invocations. simpl. lia. Qed.

(** The run when the first two attempts fail and the third is
    reached. *)
Lemma fetchWithRetry_third_attempt t e0 e1 :
  attemptError (operation (invocations t)) = Some e0 ->
  attemptError (operation (invocations t + 1)) = Some e1 ->
  fetchWithRetry operation 0 t
  = fetchWithRetry operation 2
      (t ++ retryEvents 0 e0 ++ retryEvents 1 e1).
Proof.
  intros H0 H1.
  rewrite (fetchWithRetry_retry 0 t e0 H0) by (unfold MaxRetries; lia).
  rewrite (fetchWithRetry_retry (0 + 1) _ e1).
  - now rewrite <- app_assoc.
  - rewrite invocations_retryEvents.
    now replace (S (invocations t)) with (invocations t + 1)%nat by lia.
  - unfold MaxRetries; lia.
Qed.

Lemma invocations_third t e0 e1 :
  invocations (t ++ retryEvents 0 e0 ++ retryEvents 1 e1)
  = (invocations t + 2)%nat.
Proof.
  rewrite app_assoc, !invocations_retryEvents. lia.
Qed.

(** Three failing attempts: the third error is thrown. *)
Lemma fetchWithRetry_all_fail t e0 e1 e2 :
  attemptError (operation (invocations t)) = Some e0 ->
  attemptError (operation (invocations t + 1)) = Some e1 ->
  attemptError (operation (invocations t + 2)) = Some e2 ->
  fetchWithRetry operation 0 t
  = (Throw e2,
     t ++ retryEvents 0 e0 ++ retryEvents 1 e1
       ++ [Invoke; ConsoleError (attemptLabel 2) e2]).
Proof.
  intros H0 H1 H2.
  rewrite (fetchWithRetry_third_attempt t e0 e1 H0 H1).
  rewrite (fetchWithRetry_exhausted 2 _ e2).
  - now rewrite <- !app_assoc.
  - now rewrite invocations_third.
  - unfold MaxRetries; lia.
Qed.

(** Two failing attempts and a third that resolves: its value is
    returned. *)
Lemma fetchWithRetry_third_succeeds t e0 e1 v :
  attemptError (operation (invocations t)) = Some e0 ->
  attemptError (operation (invocations t + 1)) = Some e1 ->
  operation (invocations t + 2) = Resolved v ->
  fetchWithRetry operation 0 t
  = (Return v, t ++ retryEvents 0 e0 ++ retryEvents 1 e1 ++ [Invoke]).
Proof.
  intros H0 H1 H2.
  rewrite (fetchWithRetry_third_attempt t e0 e1 H0 H1).
  rewrite (fetchWithRetry_resolved 2 _ v).
  - now rewrite <- !app_assoc.
  - now rewrite invocations_third.
Qed.

(** Every run is one, two or three attempts with a delay between
    consecutive ones, and only adds to the trace. *)
Lemma fetchWithRetry_schedule (t : Trace) :
  forall r t',
    fetchWithRetry operation 0 t = (r, t') ->
    exists d k, t' = t ++ d /\ (1 <= k <= 3)%nat
                /\ timeline d = schedule k.
Proof.
  intros r t' Hrun.
  destruct (attemptError_cases (operation (invocations t)))
    as [[v0 R0]|[e0 F0]].
  { rewrite (fetchWithRetry_resolved 0 t v0 R0) in Hrun.
    injection Hrun as <- <-. exists [Invoke], 1%nat.
    repeat split; lia. }
  destruct (attemptError_cases (operation (invocations t + 1)))
    as [[v1 R1]|[e1 F1]].
  { rewrite (fetchWithRetry_retry 0 t e0 F0) in Hrun
      by (unfold MaxRetries; lia).
    rewrite (fetchWithRetry_resolved (0 + 1) _ v1) in Hrun.
    - injection Hrun as <- <-.
      exists (retryEvents 0 e0 ++ [Invoke]), 2%nat.
      rewrite <- app_assoc. repeat split; lia.
    - rewrite invocations_retryEvents.
      now replace (S (invocations t)) with (invocations t + 1)%nat by lia. }
  destruct (attemptError_cases (operation (invocations t + 2)))
    as [[v2 R2]|[e2 F2]].
  { rewrite (fetchWithRetry_third_succeeds t e0 e1 v2 F0 F1 R2) in Hrun.
    injection Hrun as <- <-.
    exists (retryEvents 0 e0 ++ retryEvents 1 e1 ++ [Invoke]), 3%nat.
    repeat split; lia. }
  rewrite (fetchWithRetry_all_fail t e0 e1 e2 F0 F1 F2) in Hrun.
  injection Hrun as <- <-.
  exists (retryEvents 0 e0 ++ retryEvents 1 e1
          ++ [Invoke; ConsoleError (attemptLabel 2) e2]), 3%nat.
  repeat split; lia.
Qed.

(** C2. The wrapper makes at most three attempts, with one
    [RetryDelay] pause between consecutive attempts and none after
    the last: whatever the operation does, the invocations and delays
    of a run are [schedule k] for some [k] from 1 to 3. If the first
    two attempts fail and the third resolves with [v], the run
    returns [v] after exactly three invocations and two delays. If
    all three fail, the run throws the error of the third attempt. *)
Theorem fetchWithRetry_three_attempts (t : Trace) :
  (forall r t',
      fetchWithRetry operation 0 t = (r, t') ->
      exists d k, t' = t ++ d /\ (1 <= k <= 3)%nat
                  /\ timeline d = schedule k) /\
  (forall e0 e1 v,
      attemptError (operation (invocations t)) = Some e0 ->
      attemptError (operation (invocations t + 1)) = Some e1 ->
      operation (invocations t + 2) = Resolved v ->
      exists d, fetchWithRetry operation 0 t = (Return v, t ++ d)
                /\ timeline d = schedule 3
                /\ invocations d = 3%nat /\ delays d = 2%nat) /\
  (forall e0 e1 e2,
      attemptError (operation (invocations t)) = Some e0 ->
      attemptError (operation (invocations t + 1)) = Some e1 ->
      attemptError (operation (invocations t + 2)) = Some e2 ->
      exists d, fetchWithRetry operation 0 t = (Throw e2, t ++ d)
                /\ timeline d = schedule 3
                /\ invocations d = 3%nat /\ delays d = 2%nat).
Proof.
  split; [|split].
  - apply fetchWithRetry_schedule.
  - intros e0 e1 v F0 F1 R2.
    exists (retryEvents 0 e0 ++ retryEvents 1 e1 ++ [Invoke]).
    rewrite (fetchWithRetry_third_succeeds t e0 e1 v F0 F1 R2).
    repeat split.
  - intros e0 e1 e2 F0 F1 F2.
    exists (retryEvents 0 e0 ++ retryEvents 1 e1
            ++ [Invoke; ConsoleError (attemptLabel 2) e2]).
    rewrite (fetchWithRetry_all_fail t e0 e1 e2 F0 F1 F2).
    repeat split.
Qed.

(** No thrown value is its own cause. *)
Lemma not_own_cause (e : Thrown) : ~ RetriesExhausted e e.
Proof.
  intros [message H]. apply (f_equal causeDepth) in H. simpl in H. lia.
Qed.

(** C8, as the code has it. When every attempt fails, the wrapper
    rethrows the error of the last attempt itself: what the
    operation rejected with, or the timer's [Operation timeout]
    error. Nothing is wrapped around it. *)
Theorem fetchWithRetry_rethrows_last_error (t : Trace) e0 e1 e2 :
  attemptError (operation (invocations t)) = Some e0 ->
  attemptError (operation (invocations t + 1)) = Some e1 ->
  attemptError (operation (invocations t + 2)) = Some e2 ->
  exists x, fst (fetchWithRetry operation 0 t) = Throw x
            /\ x = e2 /\ ~ RetriesExhausted e2 x.
Proof.
  intros F0 F1 F2. exists e2.
  rewrite (fetchWithRetry_all_fail t e0 e1 e2 F0 F1 F2).
  repeat split. apply not_own_cause.
Qed.

End RetryProperties.

Lemma fetchWithRetry_three_attempts_witness :
  exists d, Retry.fetchWithRetry Demo.flaky 0 [] = (Return 7, [] ++ d)
            /\ Retry.timeline d = Retry.schedule 3
            /\ Retry.invocations d = 3%nat /\ Retry.delays d = 2%nat.
Proof.
  apply (proj1 (proj2 (fetchWithRetry_three_attempts Demo.flaky []))
           Demo.boom Demo.boom 7); reflexivity.
Defined.

Lemma fetchWithRetry_rethrows_last_error_witness :
  exists x, fst (Retry.fetchWithRetry Demo.alwaysFails 0 []) = Throw x
            /\ x = Demo.boom /\ ~ Retry.RetriesExhausted Demo.boom x.
Proof.
  apply (fetchWithRetry_rethrows_last_error Demo.alwaysFails [] Demo.boom Demo.boom Demo.boom);
    reflexivity.
Defined.

(** C8 as the spec words it fails: an operation that rejects with
    [Demo.boom] three times makes the wrapper throw [Demo.boom], which is not a
    [RetriesExhausted] error wrapping anything. *)
Lemma fetchWithRetry_no_RetriesExhausted :
  ~ (exists x cause,
        fst (Retry.fetchWithRetry Demo.alwaysFails 0 []) = Throw x
        /\ Retry.RetriesExhausted cause x).
Proof.
  intros (x & cause & Hx & message & Hw).
  rewrite (fetchWithRetry_all_fail Demo.alwaysFails [] Demo.boom Demo.boom Demo.boom) in Hx
    by reflexivity.
  simpl in Hx. injection Hx as <-. discriminate Hw.
Qed.

(** ** Strings *)

Lemma startsWith_prefix (s p : jsstring) :
  startsWith s p = true <-> exists rest, s = p ++ rest.
Proof.
  revert s. induction p as [|c p IH]; intros s; simpl.
  - split; eauto.
  - destruct s as [|d s].
    + split; [discriminate | intros [rest H]; discriminate].
    + destruct (N.eqb_spec c d) as [->|Hne].
      * rewrite IH. split; intros [rest H]; exists rest.
        -- now rewrite H.
        -- now injection H.
      * split; [discriminate|]. intros [rest H]. injection H as H _.
        congruence.
Qed.

Lemma unlit_lit (s : string) : unlit (lit s) = Some s.
Proof.
  induction s as [|a s IH]; simpl; [reflexivity|].
  destruct (N.ltb_spec (N_of_ascii a) 256) as [_|Hge].
  - now rewrite IH, ascii_N_embedding.
  - pose proof (N_ascii_bounded a). lia.
Qed.

(** A number printed and read back is the same number. *)
Lemma stringToNumber_numberToString (n : Z) :
  stringToNumber (numberToString n) = Some n.
Proof.
  unfold stringToNumber, numberToString.
  now rewrite unlit_lit, NilEmpty.isi; simpl; rewrite DecimalZ.of_to.
Qed.

(** ** getUser, getUserWithProfile *)

Section UsersProperties.
Variable P : Platform.

Lemma invalidNpub_spec (npub : jsstring) :
  invalidNpub npub = true
  <-> length npub <> 63%nat \/ ~ (exists rest, npub = lit "npub" ++ rest).
Proof.
  unfold invalidNpub. rewrite orb_true_iff, !negb_true_iff.
  rewrite Nat.eqb_neq, <- startsWith_prefix.
  now rewrite not_true_iff_false.
Qed.

(** C10. [getUser] and [getUserWithProfile] check their argument
    first. An [npub] whose length is not 63 or that does not begin
    with [npub] makes both throw [Invalid npub: ..] with nothing
    recorded: no collaborator is called, nothing is logged. Whenever
    either of them records anything, the argument has passed the
    check, and the first thing recorded is the lookup
    [ndk.getUser({ npub })]. *)
Theorem npub_checked_before_lookup (npub : jsstring) (t : Trace) :
  (length npub <> 63%nat \/ ~ (exists rest, npub = lit "npub" ++ rest) ->
     getUser P npub t = (Throw (InvalidNpub npub), t)
     /\ getUserWithProfile P npub t = (Throw (InvalidNpub npub), t)) /\
  (forall r r' t',
      getUser P npub t = (r, t') \/ getUserWithProfile P npub t = (r', t') ->
      t' <> t ->
      (length npub = 63%nat /\ exists rest, npub = lit "npub" ++ rest)
      /\ exists d, t' = t ++ NdkGetUser npub :: d).
Proof.
  split.
  - intros H. apply invalidNpub_spec in H.
    unfold getUser, getUserWithProfile. now rewrite H.
  - intros r r' t' Hrun Hne.
    destruct (invalidNpub npub) eqn:Hinv.
    + exfalso. apply Hne.
      unfold getUser, getUserWithProfile in Hrun. rewrite Hinv in Hrun.
      destruct Hrun as [H|H]; now injection H.
    + split.
      * apply not_true_iff_false in Hinv. rewrite invalidNpub_spec in Hinv.
        split.
        -- destruct (Nat.eq_dec (length npub) 63%nat); [assumption|].
           exfalso; apply Hinv; now left.
        -- apply startsWith_prefix.
           destruct (startsWith npub (lit "npub")) eqn:Hs; [reflexivity|].
           exfalso; apply Hinv; right.
           rewrite <- startsWith_prefix, Hs. discriminate.
      * unfold getUser, getUserWithProfile in Hrun. rewrite Hinv in Hrun.
        unfold try_catch, bind, call, emit, settle, throw, ret in Hrun.
        destruct Hrun as [H|H].
        -- destruct (ndk_getUser P npub) as [u|e].
           ++ injection H as _ <-. now exists [].
           ++ injection H as _ <-. rewrite <- app_assoc. simpl. eauto.
        -- destruct (ndk_getUser P npub) as [u|e];
             cbn -[Retry.fetchWithRetry] in H.
           ++ destruct (Retry.fetchWithRetry (user_fetchProfile P u) 0
                          (t ++ [NdkGetUser npub])) as [[v|e] t1] eqn:Hf;
                destruct (fetchWithRetry_schedule _ _ _ _ Hf)
                  as (d & _ & -> & _);
                injection H as _ <-; rewrite <- !app_assoc; simpl; eauto.
           ++ injection H as _ <-. rewrite <- app_assoc. simpl. eauto.
Qed.

End UsersProperties.

(** ** connect *)

Section SessionProperties.
Variable P : Platform.

Lemma connect_existing (rt : Runtime) (c : NostrClient) :
  nostrClient rt = Some c -> connect P rt = (Return c, rt).
Proof.
  intros H. unfold connect, bind, readSingleton, ret. now rewrite H.
Qed.

(** What [connect] leaves in the static field: the client it
    returned, or what was there when it failed. *)
Lemma connect_singleton (rt rt' : Runtime) (r : Completion NostrClient) :
  connect P rt = (r, rt') ->
  match r with
  | Return c => nostrClient rt' = Some c
  | Throw _ => nostrClient rt' = nostrClient rt
  end.
Proof.
  destruct rt as [[c0|] t].
  - rewrite (connect_existing (mkRuntime (Some c0) t) c0 eq_refl).
    now intros [= <- <-].
  - unfold connect, bind, readSingleton, writeSingleton, onTrace, call,
      bind, emit, settle, ret. simpl.
    destruct (new_NDKNip07Signer P LoginTimeoutMSec);
      [|now intros [= <- <-]].
    destruct (signer_blockUntilReady P); [|now intros [= <- <-]].
    simpl.
    destruct (ndk_connect P 1); [|now intros [= <- <-]].
    simpl.
    destruct (signer_user P) as [u|]; [|now intros [= <- <-]].
    simpl.
    destruct (loggedIn_fetchProfile P u); now intros [= <- <-].
Qed.

(** Calls that run one after the other. With a client in the static
    field, [connect] returns that client and changes nothing: the
    field keeps its value and nothing is recorded, so there is no
    handshake, no relay connection and no profile fetch. A [connect]
    that returns a client has stored it, so every later [connect]
    returns the same one; a [connect] that fails stores nothing. *)
Lemma connect_idempotent (rt : Runtime) :
  (forall c, nostrClient rt = Some c -> connect P rt = (Return c, rt)) /\
  (forall c rt',
      connect P rt = (Return c, rt') ->
      nostrClient rt' = Some c /\ connect P rt' = (Return c, rt')) /\
  (forall e rt',
      connect P rt = (Throw e, rt') -> nostrClient rt' = nostrClient rt).
Proof.
  split; [|split].
  - apply connect_existing.
  - intros c rt' H. pose proof (connect_singleton _ _ _ H) as Hs.
    simpl in Hs. split; [assumption|]. now apply connect_existing.
  - intros e rt' H. exact (connect_singleton _ _ _ H).
Qed.

(** *** Calls that overlap *)

Lemma run_cons a schedule s : run P (a :: schedule) s = run P schedule (act P s a).
Proof. reflexivity. Qed.

Lemma run_app l1 l2 s : run P (l1 ++ l2) s = run P l2 (run P l1 s).
Proof. unfold run. apply fold_left_app. Qed.

Lemma act_Enter s :
  act P s Enter
  = mkProcess (snd (begin P (runtime s)))
              (calls s ++ [fst (begin P (runtime s))]).
Proof. unfold act. now destruct (begin P (runtime s)). Qed.

Lemma act_Resume s i k :
  calls s !! i = Some k ->
  act P s (Resume i)
  = mkProcess (snd (resume P k (runtime s)))
              (<[i := fst (resume P k (runtime s))]> (calls s)).
Proof.
  intros H. unfold act. rewrite H. now destruct (resume P k (runtime s)).
Qed.

(** A call that finds a client settles at once and records nothing. *)
Lemma begin_existing rt c :
  nostrClient rt = Some c -> begin P rt = (Settled (Return c), rt).
Proof.
  intros H. unfold begin, segment, bind, readSingleton, ret. now rewrite H.
Qed.

(** A settled call stays as it is. *)
Lemma resume_Settled r rt : resume P (Settled r) rt = (Settled r, rt).
Proof. reflexivity. Qed.

(** Only the first segment reads the static field: resumed, a call
    goes the same way and records the same whatever the field holds. *)
Lemma resume_blind k field1 field2 t :
  fst (resume P k (mkRuntime field1 t)) = fst (resume P k (mkRuntime field2 t))
  /\ trace (snd (resume P k (mkRuntime field1 t)))
     = trace (snd (resume P k (mkRuntime field2 t))).
Proof.
  destruct k as [| | |u|r];
    unfold resume, segment, bind, settle, onTrace, emit, writeSingleton, ret;
    cbn.
  - now destruct (signer_blockUntilReady P).
  - now destruct (ndk_connect P 1).
  - now destruct (signer_user P).
  - now destruct (loggedIn_fetchProfile P u).
  - split; reflexivity.
Qed.

(** One call, resumed until it has settled and with no other call in
    between, is [connect]. *)
Lemma alone_connect (rt : Runtime) :
  run P alone (mkProcess rt [])
  = mkProcess (snd (connect P rt)) [Settled (fst (connect P rt))].
Proof.
  unfold alone. cbn [repeat]. rewrite run_cons, act_Enter. cbn [runtime calls app].
  destruct rt as [[c0|] t].
  - rewrite (begin_existing (mkRuntime (Some c0) t) c0 eq_refl).
    rewrite (connect_existing (mkRuntime (Some c0) t) c0 eq_refl).
    reflexivity.
  - unfold begin, connect, segment, bind, readSingleton, writeSingleton,
      onTrace, call, bind, emit, settle, ret. cbn.
    destruct (new_NDKNip07Signer P LoginTimeoutMSec); [|reflexivity].
    cbn. unfold segment, bind, settle, onTrace, emit, ret. cbn.
    destruct (signer_blockUntilReady P); [|reflexivity].
    cbn. unfold segment, bind, settle, onTrace, emit, ret. cbn.
    destruct (ndk_connect P 1); [|reflexivity].
    cbn. unfold segment, bind, settle, onTrace, emit, ret. cbn.
    destruct (signer_user P) as [u|]; [|reflexivity].
    cbn. unfold segment, bind, settle, writeSingleton, ret. cbn.
    rewrite <- !app_assoc. cbn.
    destruct (loggedIn_fetchProfile P u); reflexivity.
Qed.

Section Overlap.
Variable user : NDKUser.
Hypothesis Hsigner : new_NDKNip07Signer P LoginTimeoutMSec = Return tt.
Hypothesis Hready : signer_blockUntilReady P = Return tt.
Hypothesis Hrelays : ndk_connect P 1 = Return tt.
Hypothesis Huser : signer_user P = Return user.
Hypothesis Hprofile : loggedIn_fetchProfile P user = Return tt.

Lemma begin_fresh rt :
  nostrClient rt = None ->
  begin P rt
  = (AwaitBlockUntilReady,
     mkRuntime None
               (trace rt ++ [NewSigner LoginTimeoutMSec; SignerBlockUntilReady])).
Proof.
  destruct rt as [f t]. cbn. intros ->.
  unfold begin, segment, bind, readSingleton, onTrace, call, bind,
    emit, settle, ret. cbn. rewrite Hsigner. cbn.
  now rewrite <- app_assoc.
Qed.

(** After the first [await] a call does not look at the static field
    any more: it goes on whatever the field holds, and its last
    segment stores. *)
Lemma resume_AwaitBlockUntilReady rt :
  resume P AwaitBlockUntilReady rt
  = (AwaitNdkConnect,
     mkRuntime (nostrClient rt) (trace rt ++ [NewNDK Relays; NdkConnect 1])).
Proof.
  unfold resume, segment, bind, settle, onTrace, emit, ret.
  rewrite Hready. cbn. now rewrite <- app_assoc.
Qed.

Lemma resume_AwaitNdkConnect rt :
  resume P AwaitNdkConnect rt
  = (AwaitSignerUser, mkRuntime (nostrClient rt) (trace rt ++ [SignerUser])).
Proof.
  unfold resume, segment, bind, settle, onTrace, emit, ret.
  now rewrite Hrelays.
Qed.

Lemma resume_AwaitSignerUser rt :
  resume P AwaitSignerUser rt
  = (AwaitFetchProfile user,
     mkRuntime (nostrClient rt) (trace rt ++ [UserFetchProfile user])).
Proof.
  unfold resume, segment, bind, settle, onTrace, emit, ret.
  now rewrite Huser.
Qed.

Lemma resume_AwaitFetchProfile rt :
  resume P (AwaitFetchProfile user) rt
  = (Settled (Return (mkNostrClient Relays user)),
     mkRuntime (Some (mkNostrClient Relays user)) (trace rt)).
Proof.
  unfold resume, segment, bind, settle, writeSingleton, ret.
  now rewrite Hprofile.
Qed.

Ltac connect_step :=
  rewrite run_cons;
  first [ rewrite act_Enter; rewrite begin_fresh by reflexivity
        | erewrite act_Resume by reflexivity;
          first [ rewrite resume_AwaitBlockUntilReady
                | rewrite resume_AwaitNdkConnect
                | rewrite resume_AwaitSignerUser
                | rewrite resume_AwaitFetchProfile
                | rewrite resume_Settled ] ];
  cbn [runtime calls trace nostrClient fst snd app
       insert list_insert lookup list_lookup].

(** A second call made after the first has settled reads the field:
    the six steps are done once. *)
Lemma sequential_calls (rt : Runtime) :
  nostrClient rt = None ->
  run P (alone ++ [Enter]) (mkProcess rt [])
  = mkProcess (mkRuntime (Some (mkNostrClient Relays user))
                         (trace rt ++ Stated.connectSteps user))
              [Settled (Return (mkNostrClient Relays user));
               Settled (Return (mkNostrClient Relays user))].
Proof.
  destruct rt as [f t]. cbn [nostrClient trace]. intros ->.
  unfold alone. cbn [repeat app].
  do 5 connect_step.
  rewrite run_cons, act_Enter. cbn [runtime calls].
  erewrite begin_existing by reflexivity. cbn [fst snd app].
  unfold run, Stated.connectSteps. cbn [fold_left].
  now rewrite <- !app_assoc.
Qed.

(** C9. The code at two calls of [connect] that overlap. A second
    call made before the first has stored its client (after the first
    has been resumed [j] times, [j] from 0 to 3) has passed the test
    of the static field and never repeats it. When the first call has
    settled and the field holds its client, the second still stands at
    its first [await]; resumed, it creates its own NDK instance,
    connects to the relays, asks for the user and fetches the profile
    once more, and then, standing before the store with the field
    already set, stores a client again. Each of the six steps has
    been done twice. *)
Theorem overlapping_connects_initialise_twice (rt : Runtime) (j : nat) :
  nostrClient rt = None ->
  (j <= 3)%nat ->
  exists before,
    run P (overlapping j) (mkProcess rt [])
    = mkProcess (mkRuntime (Some (mkNostrClient Relays user))
                           (trace rt ++ before))
                [Settled (Return (mkNostrClient Relays user));
                 AwaitBlockUntilReady]
    /\ run P (overlapping j ++ repeat (Resume 1) 3) (mkProcess rt [])
       = mkProcess (mkRuntime (Some (mkNostrClient Relays user))
                              (trace rt ++ before
                                 ++ [NewNDK Relays; NdkConnect 1; SignerUser;
                                     UserFetchProfile user]))
                   [Settled (Return (mkNostrClient Relays user));
                    AwaitFetchProfile user]
    /\ run P (overlapping j ++ repeat (Resume 1) 4) (mkProcess rt [])
       = mkProcess (mkRuntime (Some (mkNostrClient Relays user))
                              (trace rt ++ before
                                 ++ [NewNDK Relays; NdkConnect 1; SignerUser;
                                     UserFetchProfile user]))
                   [Settled (Return (mkNostrClient Relays user));
                    Settled (Return (mkNostrClient Relays user))]
    /\ before ++ [NewNDK Relays; NdkConnect 1; SignerUser;
                  UserFetchProfile user]
       ≡ₚ Stated.connectSteps user ++ Stated.connectSteps user.
Proof.
  destruct rt as [f t]. cbn [nostrClient trace]. intros -> Hj.
  assert (j = 0 \/ j = 1 \/ j = 2 \/ j = 3)%nat
    as [-> | [-> | [-> | ->]]] by lia;
    (eexists; split; [|split; [|split]];
     [unfold overlapping; cbn [repeat app Nat.sub];
      repeat connect_step; unfold run; cbn [fold_left];
      rewrite <- ?app_assoc; cbn [app]; reflexivity ..
     |unfold Stated.connectSteps; solve_Permutation]).
Qed.

End Overlap.

End SessionProperties.

(** ** sendZapRequest *)

Section ZapProperties.
Variable P : Platform.
Variable self : NostrClient.

(** What [makeZapRequest] returns, when it returns. *)
Lemma makeZapRequest_Return nip05Id msat t ev t' :
  makeZapRequest P self nip05Id msat t = (Return ev, t') ->
  exists to lnurl,
    NDKUser_fromNip05 P nip05Id = Return (Some to)
    /\ toBech32EncodedLnurl P (toLnurlPayUrl P nip05Id) = Return lnurl
    /\ t' = t ++ [FromNip05 nip05Id]
    /\ ev = pushTag (unsignedZapRequest P self msat lnurl to)
              [lit "e";
               generateEventId P (unsignedZapRequest P self msat lnurl to)].
Proof.
  unfold makeZapRequest, bind, call, bind, emit, settle, throw, ret.
  destruct (NDKUser_fromNip05 P nip05Id) as [[to|]|]; try discriminate.
  destruct (toBech32EncodedLnurl P (toLnurlPayUrl P nip05Id)) as [lnurl|];
    try discriminate.
  intros [= <- <-]. now exists to, lnurl.
Qed.

(** C1. For every zap request [makeZapRequest] builds: its tags are
    the four tags [relays], [amount], [lnurl], [p] followed by the
    [e] tag; the second element of the [e] tag is the id computed
    over the event as it was before the push (kind, pubkey,
    created_at, the four tags, content); and computing the id again
    over the returned event with the [e] tag taken off gives that
    same value. *)
Theorem makeZapRequest_id_stable nip05Id msat t ev t' :
  makeZapRequest P self nip05Id msat t = (Return ev, t') ->
  exists to lnurl eventId,
    eventId = generateEventId P (unsignedZapRequest P self msat lnurl to)
    /\ tags ev = zapTags msat lnurl to ++ [[lit "e"; eventId]]
    /\ tags ev !! 4%nat = Some [lit "e"; eventId]
    /\ withoutLastTag ev = unsignedZapRequest P self msat lnurl to
    /\ generateEventId P (withoutLastTag ev) = eventId.
Proof.
  intros H. destruct (makeZapRequest_Return _ _ _ _ _ H)
    as (to & lnurl & _ & _ & _ & ->).
  exists to, lnurl, (generateEventId P (unsignedZapRequest P self msat lnurl to)).
  repeat split.
Qed.

Lemma zapEndpointGets_app t d :
  zapEndpointGets (t ++ d) = zapEndpointGets t ++ zapEndpointGets d.
Proof. apply filter_app. Qed.

Lemma makeZapRequest_trace nip05Id msat t r t' :
  makeZapRequest P self nip05Id msat t = (r, t') ->
  t' = t ++ [FromNip05 nip05Id].
Proof.
  unfold makeZapRequest, bind, call, bind, emit, settle, throw, ret.
  destruct (NDKUser_fromNip05 P nip05Id) as [[to|]|];
    try (now intros [= <- <-]).
  destruct (toBech32EncodedLnurl P (toLnurlPayUrl P nip05Id));
    now intros [= <- <-].
Qed.

(** On a request [makeZapRequest] built, an amount outside a declared
    non-zero bound stops [getZapEndpointWithParams] with an error,
    after the one [GET] for the provider's metadata. *)
Lemma getZapEndpointWithParams_out_of_bounds
    msat lnurl to sig nip05Id t lnurlPay r t' :
  providerAnswer P nip05Id = Some lnurlPay ->
  belowDeclaredMin lnurlPay msat \/ aboveDeclaredMax lnurlPay msat ->
  getZapEndpointWithParams P (builtZapRequest P self msat lnurl to) sig nip05Id t
  = (r, t') ->
  (exists e, r = Throw e) /\ zapEndpointGets t' = zapEndpointGets t.
Proof.
  intros Hans Hout. unfold providerAnswer in Hans.
  unfold getZapEndpointWithParams, requestLnurlPay, try_catch, bind, call,
    bind, emit, settle, throw, throw_if, ret. simpl.
  destruct (JSON_parse_lud16 P (JSON_stringify_lud16 P nip05Id))
    as [lud16|]; [|discriminate].
  destruct (axios_get_lnurlPay P (toLnurlPayUrl P lud16)) as [lp|];
    [|discriminate].
  injection Hans as ->.
  rewrite stringToNumber_numberToString.
  destruct (allowsNostr lnurlPay);
    [destruct (nostrPubkey lnurlPay) as [[|c0 k]|]|];
    try (intros [= <- <-]; rewrite zapEndpointGets_app; simpl;
         rewrite app_nil_r; eauto).
  destruct (callback lnurlPay) as [[|c1 cb]|];
    try (intros [= <- <-]; rewrite zapEndpointGets_app; simpl;
         rewrite app_nil_r; eauto).
  destruct (encodeURI_JSON P _) as [nostr|];
    try (intros [= <- <-]; rewrite zapEndpointGets_app; simpl;
         rewrite app_nil_r; eauto).
  destruct (minSendable lnurlPay) as [min|] eqn:Hmin;
    [destruct (negb (min =? 0) && (msat <? min)) eqn:Bmin|];
    try (intros [= <- <-]; rewrite zapEndpointGets_app; simpl;
         rewrite app_nil_r; now eauto);
    (destruct (maxSendable lnurlPay) as [max|] eqn:Hmax;
     [destruct (negb (max =? 0) && (max <? msat)) eqn:Bmax|]);
    try (intros [= <- <-]; rewrite zapEndpointGets_app; simpl;
         rewrite app_nil_r; now eauto);
    exfalso;
    destruct Hout as [(m & Hm & Hnz & Hlt)|(m & Hm & Hnz & Hlt)];
    try congruence;
    match goal with
    | H1 : ?f lnurlPay = Some ?a, H2 : ?f lnurlPay = Some ?b |- _ =>
        assert (a = b) by congruence; subst
    end;
    apply andb_false_iff in Bmin || apply andb_false_iff in Bmax;
    rewrite negb_false_iff in *; lia.
Qed.

(** An amount outside a declared non-zero bound makes
    [sendZapRequest] fail without any [GET] to the payment
    endpoint, whatever else happens on the way. *)
Lemma sendZapRequest_out_of_bounds nip05Id sat t lnurlPay r t' :
  providerAnswer P nip05Id = Some lnurlPay ->
  belowDeclaredMin lnurlPay (sat * 1000)
  \/ aboveDeclaredMax lnurlPay (sat * 1000) ->
  sendZapRequest P self nip05Id sat t = (r, t') ->
  (exists e, r = Throw e) /\ zapEndpointGets t' = zapEndpointGets t.
Proof.
  intros Hans Hout Hrun.
  unfold sendZapRequest in Hrun.
  destruct (makeZapRequest P self nip05Id (sat * 1000) t)
    as [[ev|e] t1] eqn:Hmk;
    pose proof (makeZapRequest_trace _ _ _ _ _ Hmk) as ->.
  2:{ rewrite (bind_Throw _ _ _ _ _ Hmk) in Hrun. injection Hrun as <- <-.
      rewrite zapEndpointGets_app; simpl; rewrite app_nil_r; eauto. }
  rewrite (bind_Return _ _ _ _ _ Hmk) in Hrun. cbv beta in Hrun.
  destruct (makeZapRequest_Return _ _ _ _ _ Hmk)
    as (to & lnurl & _ & _ & _ & ->).
  fold (builtZapRequest P self (sat * 1000) lnurl to) in Hrun.
  set (ev := builtZapRequest P self (sat * 1000) lnurl to) in *.
  destruct (signer_sign P ev) as [sig|e] eqn:Hsig.
  2:{ unfold bind at 1 in Hrun. rewrite call_Throw in Hrun.
      injection Hrun as <- <-.
      rewrite !zapEndpointGets_app; simpl; rewrite !app_nil_r; eauto. }
  unfold bind at 1 in Hrun. rewrite call_Return in Hrun.
  destruct (getZapEndpointWithParams P ev sig nip05Id
              ((t ++ [FromNip05 nip05Id]) ++ [SignerSign ev]))
    as [r1 t2] eqn:Hget.
  destruct (getZapEndpointWithParams_out_of_bounds
              _ _ _ _ _ _ _ _ _ Hans Hout Hget) as [[e ->] Ht2].
  rewrite (bind_Throw _ _ _ _ _ Hget) in Hrun. injection Hrun as <- <-.
  rewrite Ht2, !zapEndpointGets_app; simpl; rewrite !app_nil_r; eauto.
Qed.

(** The error the amount check ends with, on a request
    [makeZapRequest] built and a provider that passes the earlier
    checks. *)
Lemma getZapEndpointWithParams_bounds
    msat lnurl to sig nip05Id t lnurlPay nostr :
  providerAnswer P nip05Id = Some lnurlPay ->
  allowsNostr lnurlPay = true ->
  (exists c k, nostrPubkey lnurlPay = Some (c :: k)) ->
  (exists c cb, callback lnurlPay = Some (c :: cb)) ->
  encodeURI_JSON P (builtZapRequest P self msat lnurl to) = Return nostr ->
  (forall min, minSendable lnurlPay = Some min -> min <> 0 -> msat < min ->
     fst (getZapEndpointWithParams P (builtZapRequest P self msat lnurl to)
            sig nip05Id t)
     = Throw (NostrMinSendableConstraintError msat min)) /\
  (forall max, maxSendable lnurlPay = Some max -> max <> 0 -> max < msat ->
     ~ belowDeclaredMin lnurlPay msat ->
     fst (getZapEndpointWithParams P (builtZapRequest P self msat lnurl to)
            sig nip05Id t)
     = Throw (NostrMaxSendableConstraintError msat max)).
Proof.
  intros Hans Hallows (c0 & k & Hkey) (c1 & cb & Hcb) Henc.
  unfold providerAnswer in Hans.
  assert (H4 : tags (builtZapRequest P self msat lnurl to) !! 4%nat
               = Some [lit "e";
                       generateEventId P (unsignedZapRequest P self msat lnurl to)])
    by reflexivity.
  assert (H1 : tags (builtZapRequest P self msat lnurl to) !! 1%nat
               = Some [lit "amount"; numberToString msat]) by reflexivity.
  assert (H2 : tags (builtZapRequest P self msat lnurl to) !! 2%nat
               = Some [lit "lnurl"; lnurl]) by reflexivity.
  set (ev := builtZapRequest P self msat lnurl to) in *. clearbody ev.
  unfold getZapEndpointWithParams, requestLnurlPay, try_catch, bind, call,
    bind, emit, settle, throw, throw_if, ret.
  rewrite H4, H1, H2. simpl.
  destruct (JSON_parse_lud16 P (JSON_stringify_lud16 P nip05Id))
    as [lud16|]; [|discriminate].
  destruct (axios_get_lnurlPay P (toLnurlPayUrl P lud16)) as [lp|];
    [|discriminate].
  injection Hans as ->.
  rewrite stringToNumber_numberToString, Hallows, Hkey, Hcb, Henc.
  split.
  - intros min Hmin Hnz Hlt. rewrite Hmin.
    replace (negb (min =? 0) && (msat <? min)) with true; [reflexivity|].
    symmetry. apply andb_true_iff. rewrite negb_true_iff. split; lia.
  - intros max Hmax Hnz Hlt Hnot. rewrite Hmax.
    replace (negb (max =? 0) && (max <? msat)) with true
      by (symmetry; apply andb_true_iff; rewrite negb_true_iff; split; lia).
    destruct (minSendable lnurlPay) as [min|] eqn:Hmin; [|reflexivity].
    destruct (negb (min =? 0) && (msat <? min)) eqn:B; [|reflexivity].
    exfalso. apply Hnot. exists min.
    apply andb_true_iff in B. rewrite negb_true_iff in B.
    destruct B as [B0 B1].
    apply Z.eqb_neq in B0. apply Z.ltb_lt in B1. now repeat split.
Qed.

Lemma sendZapRequest_bounds nip05Id sat t lnurlPay :
  reachesValidation P self nip05Id sat t lnurlPay ->
  (forall min,
      minSendable lnurlPay = Some min -> min <> 0 -> sat * 1000 < min ->
      fst (sendZapRequest P self nip05Id sat t)
      = Throw (NostrMinSendableConstraintError (sat * 1000) min)) /\
  (forall max,
      maxSendable lnurlPay = Some max -> max <> 0 -> max < sat * 1000 ->
      ~ belowDeclaredMin lnurlPay (sat * 1000) ->
      fst (sendZapRequest P self nip05Id sat t)
      = Throw (NostrMaxSendableConstraintError (sat * 1000) max)).
Proof.
  intros (ev & t1 & sig & nostr & Hmk & Hsig & Hans & Hallows & Hkey
          & Hcb & Henc).
  destruct (makeZapRequest_Return _ _ _ _ _ Hmk)
    as (to & lnurl & _ & _ & _ & ->).
  fold (builtZapRequest P self (sat * 1000) lnurl to) in *.
  assert (Hsend : forall e,
             fst (getZapEndpointWithParams P
                    (builtZapRequest P self (sat * 1000) lnurl to) sig nip05Id
                    (t1 ++ [SignerSign (builtZapRequest P self (sat * 1000) lnurl to)]))
             = Throw e ->
             fst (sendZapRequest P self nip05Id sat t) = Throw e).
  { intros e He. unfold sendZapRequest.
    rewrite (bind_Return _ _ _ _ _ Hmk). cbv beta.
    unfold bind at 1. rewrite Hsig, call_Return.
    destruct (getZapEndpointWithParams P _ sig nip05Id _) as [r1 t2] eqn:Hget.
    simpl in He. subst r1. now rewrite (bind_Throw _ _ _ _ _ Hget). }
  split.
  - intros min Hmin Hnz Hlt. apply Hsend.
    destruct (getZapEndpointWithParams_bounds (sat * 1000) lnurl to sig
                nip05Id (t1 ++ [SignerSign (builtZapRequest P self (sat * 1000) lnurl to)])
                lnurlPay nostr Hans Hallows Hkey Hcb Henc) as [H _].
    now apply H.
  - intros max Hmax Hnz Hlt Hnot. apply Hsend.
    destruct (getZapEndpointWithParams_bounds (sat * 1000) lnurl to sig
                nip05Id (t1 ++ [SignerSign (builtZapRequest P self (sat * 1000) lnurl to)])
                lnurlPay nostr Hans Hallows Hkey Hcb Henc) as [_ H].
    now apply H.
Qed.

(** C6, as the code has it. A bound counts as declared when the
    provider's answer carries it and it is not zero. An amount below
    a declared [minSendable] or above a declared [maxSendable] makes
    [sendZapRequest] fail, and no [GET] to the payment endpoint is
    recorded, wherever on the way the failure occurs. When the flow
    gets as far as the amount check, the failure is
    [MinSendableConstraintError] for an amount below the minimum,
    and [MaxSendableConstraintError] for one above the maximum and
    not below the minimum. *)
Theorem amount_checked_before_callback nip05Id sat t lnurlPay :
  providerAnswer P nip05Id = Some lnurlPay ->
  (belowDeclaredMin lnurlPay (sat * 1000)
   \/ aboveDeclaredMax lnurlPay (sat * 1000) ->
   forall r t',
     sendZapRequest P self nip05Id sat t = (r, t') ->
     (exists e, r = Throw e) /\ zapEndpointGets t' = zapEndpointGets t) /\
  (reachesValidation P self nip05Id sat t lnurlPay ->
   (forall min,
       minSendable lnurlPay = Some min -> min <> 0 -> sat * 1000 < min ->
       fst (sendZapRequest P self nip05Id sat t)
       = Throw (NostrMinSendableConstraintError (sat * 1000) min)) /\
   (forall max,
       maxSendable lnurlPay = Some max -> max <> 0 -> max < sat * 1000 ->
       ~ belowDeclaredMin lnurlPay (sat * 1000) ->
       fst (sendZapRequest P self nip05Id sat t)
       = Throw (NostrMaxSendableConstraintError (sat * 1000) max))).
Proof.
  intros Hans. split.
  - intros Hout r t' Hrun.
    exact (sendZapRequest_out_of_bounds _ _ _ _ _ _ Hans Hout Hrun).
  - apply sendZapRequest_bounds.
Qed.

End ZapProperties.

(** ** The note service *)

Section NoteServiceProperties.
Variable C : Collaborators.

Lemma replyFetches_app t d :
  replyFetches (t ++ d) = replyFetches t ++ replyFetches d.
Proof. apply filter_app. Qed.

Lemma getUrlExtension_parsed url pathname t :
  URL_pathname C url = Some pathname ->
  getUrlExtension C url t = (Return (extensionOfParts pathname), t).
Proof.
  intros H. unfold getUrlExtension, extensionOfParts. rewrite H.
  now destruct (1 <? length (split dot pathname))%nat.
Qed.

Lemma classify_parsed url pathname t :
  URL_pathname C url = Some pathname ->
  classify C url t = (Return (pushed pathname url), t).
Proof.
  intros H. unfold classify, isImageUrl, isVideoUrl, pushed, bind.
  rewrite !(getUrlExtension_parsed url pathname _ H). unfold ret.
  destruct (knownExtension imageExtensions _); [reflexivity|].
  rewrite !(getUrlExtension_parsed url pathname _ H).
  destruct (knownExtension videoExtensions _); [reflexivity|].
  now destruct (isYouTubeUrl url).
Qed.

(** A URL the platform does not parse makes the loop throw. *)
Lemma classify_unparsed url t :
  URL_pathname C url = None ->
  classify C url t = (Throw TypeError_InvalidURL, t).
Proof.
  intros H. unfold classify, isImageUrl, bind, getUrlExtension.
  now rewrite H.
Qed.

(** [classify] and [extractMedia] record nothing. *)
Lemma classify_trace url t r t' : classify C url t = (r, t') -> t' = t.
Proof.
  destruct (URL_pathname C url) as [pathname|] eqn:H.
  - rewrite (classify_parsed _ _ _ H). now intros [= _ <-].
  - rewrite (classify_unparsed _ _ H). now intros [= _ <-].
Qed.

Lemma extractLoop_trace matches media t r t' :
  extractLoop C matches media t = (r, t') -> t' = t.
Proof.
  revert media t. induction matches as [|url rest IH]; intros media t H.
  - now injection H as _ <-.
  - simpl in H. bind_case H m t1 E; apply classify_trace in E; subst t1.
    + now apply IH in H.
    + now injection H as _ <-.
Qed.

(** *** Extensions *)

Lemma split_nonempty sep s : split sep s <> [].
Proof.
  destruct s as [|c s]; simpl; [discriminate|].
  destruct (N.eqb c sep); [discriminate|].
  destruct (split sep s); discriminate.
Qed.

Lemma split_no_sep sep s : ~ In sep s -> split sep s = [s].
Proof.
  induction s as [|c s IH]; simpl; intros H; [reflexivity|].
  destruct (N.eqb_spec c sep) as [->|Hne]; [exfalso; auto|].
  rewrite IH by tauto. reflexivity.
Qed.

Lemma last_cons_nonempty {A} (x : A) l : l <> [] -> last (x :: l) = last l.
Proof. destruct l; [congruence|reflexivity]. Qed.

Lemma split_app_sep sep before after :
  last (split sep (before ++ sep :: after)) = last (split sep after)
  /\ (1 < length (split sep (before ++ sep :: after)))%nat.
Proof.
  induction before as [|c before [IHl IHn]]; simpl.
  - rewrite N.eqb_refl. split.
    + apply last_cons_nonempty, split_nonempty.
    + pose proof (split_nonempty sep after).
      destruct (split sep after); simpl; [congruence|lia].
  - destruct (N.eqb c sep).
    + split; [|simpl; lia].
      rewrite last_cons_nonempty; [assumption|apply split_nonempty].
    + destruct (split sep (before ++ sep :: after)) as [|p ps] eqn:E;
        [simpl in IHn; lia|].
      split; [|exact IHn].
      rewrite <- IHl. destruct ps; [simpl in IHn; lia|reflexivity].
Qed.

(** Every string either has no [sep] or splits at its last one. *)
Lemma last_sep_cases sep (s : jsstring) :
  ~ In sep s
  \/ exists before after, s = before ++ sep :: after /\ ~ In sep after.
Proof.
  induction s as [|c s [IH|(before & after & -> & IH)]].
  - left. intros [].
  - destruct (N.eqb_spec c sep) as [->|Hne].
    + right. now exists [], s.
    + left. intros [H|H]; auto.
  - right. now exists (c :: before), after.
Qed.

Lemma extensionOfParts_last_dot before after :
  ~ In dot after ->
  extensionOfParts (before ++ dot :: after) = Some (toLowerCase after).
Proof.
  intros H. unfold extensionOfParts.
  destruct (split_app_sep dot before after) as [Hl Hn].
  apply Nat.ltb_lt in Hn. rewrite Hn, Hl, (split_no_sep _ _ H).
  reflexivity.
Qed.

Lemma extensionOfParts_hasExtension pathname ext :
  extensionOfParts pathname = Some ext <-> hasExtension pathname ext.
Proof.
  split.
  - intros H.
    destruct (last_sep_cases dot pathname)
      as [Hno|(before & after & -> & Hno)].
    + unfold extensionOfParts in H. rewrite (split_no_sep _ _ Hno) in H.
      discriminate.
    + rewrite (extensionOfParts_last_dot _ _ Hno) in H.
      injection H as <-. now exists before, after.
  - intros (before & after & -> & Hno & ->).
    now apply extensionOfParts_last_dot.
Qed.

Lemma includes_In l x : includes l x = true <-> In x l.
Proof.
  unfold includes. rewrite existsb_exists. split.
  - intros (y & Hy & E). unfold eqb_string in E.
    apply bool_decide_eq_true in E. now subst.
  - intros H. exists x. split; [assumption|].
    unfold eqb_string. now apply bool_decide_eq_true.
Qed.

Lemma knownExtension_In l ext :
  ~ In [] l -> (knownExtension l (Some ext) = true <-> In ext l).
Proof.
  intros Hl. destruct ext as [|c e]; simpl.
  - split; [discriminate|intros H; exfalso; auto].
  - apply includes_In.
Qed.

Lemma imageExtensions_nonempty : ~ In [] imageExtensions.
Proof. unfold imageExtensions. simpl. intros H. decompose [or] H; discriminate || assumption. Qed.

Lemma videoExtensions_nonempty : ~ In [] videoExtensions.
Proof. unfold videoExtensions. simpl. intros H. decompose [or] H; discriminate || assumption. Qed.

(** No extension is both an image and a video extension. *)
Lemma extensions_disjoint ext :
  In ext imageExtensions -> In ext videoExtensions -> False.
Proof.
  unfold imageExtensions, videoExtensions. simpl. intros Hi Hv.
  decompose [or] Hi; try assumption; subst ext;
    decompose [or] Hv; try assumption; discriminate.
Qed.

(** *** Matches in encounter order *)

Lemma occursInOrder_cons c ms s :
  occursInOrder ms s -> occursInOrder ms (c :: s).
Proof.
  intros H. destruct H as [s|gap m rest ms H]; [constructor|].
  change (c :: gap ++ m ++ rest) with ((c :: gap) ++ m ++ rest).
  now constructor.
Qed.

Lemma matchHere_prefix r s m :
  matchHere r s = Some m -> s = m ++ drop (length m) s.
Proof.
  unfold matchHere. destruct (matchK r s _) as [rest|]; [|discriminate].
  intros [= <-]. rewrite length_take.
  replace (drop _ s) with (drop (length s - length rest) s)
    by (f_equal; lia).
  now rewrite take_drop.
Qed.

Lemma matchAllFrom_in_order r skip s :
  occursInOrder (matchAllFrom r skip s) (drop skip s).
Proof.
  revert skip. induction s as [|c s IH]; intros skip; simpl.
  - constructor.
  - destruct skip as [|n]; [|apply IH].
    rewrite drop_0.
    destruct (matchHere r (c :: s)) as [m|] eqn:E.
    + pose proof (matchHere_prefix _ _ _ E) as Hs.
      destruct m as [|c' m]; simpl in *.
      * apply (occurs_next [] [] (c :: s)).
        specialize (IH 0%nat). rewrite drop_0 in IH.
        now apply occursInOrder_cons.
      * injection Hs as <- Hs. rewrite Nat.sub_0_r.
        rewrite Hs at 2.
        apply (occurs_next [] (c :: m)). apply IH.
    + specialize (IH 0%nat). rewrite drop_0 in IH.
      now apply occursInOrder_cons.
Qed.

Lemma matchAll_in_order r s : occursInOrder (matchAll r s) s.
Proof. apply (matchAllFrom_in_order r 0). Qed.

(** *** The loop of [extractMedia] *)

Lemma extractLoop_parsed matches media t :
  (forall url, In url matches -> URL_pathname C url <> None) ->
  exists pushes,
    Forall2 (fun url m => classify C url t = (Return m, t)) matches pushes
    /\ extractLoop C matches media t = (Return (media ++ omap (fun m => m) pushes), t).
Proof.
  revert media. induction matches as [|url rest IH]; intros media Hall.
  - exists []. split; [constructor|]. simpl. now rewrite app_nil_r.
  - destruct (URL_pathname C url) as [pathname|] eqn:Hp;
      [|exfalso; apply (Hall url); [now left|assumption]].
    pose proof (classify_parsed url pathname t Hp) as Hc.
    destruct (IH (match pushed pathname url with
                  | Some x => media ++ [x]
                  | None => media
                  end)) as (pushes & HF & Hrun).
    { intros u Hu. apply Hall. now right. }
    exists (pushed pathname url :: pushes). split.
    + now constructor.
    + simpl. rewrite (bind_Return _ _ _ _ _ Hc), Hrun.
      destruct (pushed pathname url); simpl;
        [now rewrite <- app_assoc|reflexivity].
Qed.

Lemma extractLoop_unparsed matches media t url :
  In url matches -> URL_pathname C url = None ->
  extractLoop C matches media t = (Throw TypeError_InvalidURL, t).
Proof.
  revert media. induction matches as [|u rest IH]; intros media Hin Hnone.
  - destruct Hin.
  - simpl. destruct (URL_pathname C u) as [pathname|] eqn:Hp.
    + rewrite (bind_Return _ _ _ _ _ (classify_parsed u pathname t Hp)).
      apply IH; [|assumption].
      destruct Hin as [->|Hin]; [congruence|assumption].
    + now rewrite (bind_Throw _ _ _ _ _ (classify_unparsed u t Hp)).
Qed.

(** C5. For a URL the platform parses, with path [pathname]: if the
    substring after the last dot of the path, lower-cased, is one of
    jpg, jpeg, png, gif, webp, svg, the classifier pushes an [image];
    if it is one of mp4, webm, ogg, mov, avi, a [video]; if it is
    neither (or the path has no dot) and the URL matches the YouTube
    pattern, a [youtube]; otherwise nothing. The URLs found in a
    note's text occur in it from left to right in the order of the
    list, and the media list is what the classifier pushes for each
    of them, in that order. *)
Theorem media_classification :
  (forall url pathname t,
      URL_pathname C url = Some pathname ->
      (forall ext, hasExtension pathname ext -> In ext imageExtensions ->
         classify C url t = (Return (Some (mkMedia image url)), t)) /\
      (forall ext, hasExtension pathname ext -> In ext videoExtensions ->
         classify C url t = (Return (Some (mkMedia video url)), t)) /\
      ((forall ext, hasExtension pathname ext ->
          ~ In ext imageExtensions /\ ~ In ext videoExtensions) ->
       classify C url t
       = (Return (if isYouTubeUrl url then Some (mkMedia youtube url)
                  else None), t))) /\
  (forall event t,
      (forall url, In url (matchAll urlPattern (ev_content event)) ->
                   URL_pathname C url <> None) ->
      occursInOrder (matchAll urlPattern (ev_content event))
                    (ev_content event)
      /\ exists pushes,
          Forall2 (fun url m => classify C url t = (Return m, t))
                  (matchAll urlPattern (ev_content event)) pushes
          /\ extractMedia C event t = (Return (omap (fun m => m) pushes), t)).
Proof.
  split.
  - intros url pathname t Hp. rewrite (classify_parsed url pathname t Hp).
    unfold pushed. split; [|split].
    + intros ext Hext Hin. apply extensionOfParts_hasExtension in Hext.
      rewrite Hext.
      now rewrite (proj2 (knownExtension_In _ ext imageExtensions_nonempty) Hin).
    + intros ext Hext Hin. apply extensionOfParts_hasExtension in Hext.
      rewrite Hext.
      rewrite (proj2 (knownExtension_In _ ext videoExtensions_nonempty) Hin).
      destruct (knownExtension imageExtensions (Some ext)) eqn:Hi;
        [|reflexivity].
      apply (knownExtension_In _ ext imageExtensions_nonempty) in Hi.
      destruct (extensions_disjoint ext Hi Hin).
    + intros Hnone.
      destruct (extensionOfParts pathname) as [ext|] eqn:Hext;
        [|reflexivity].
      apply extensionOfParts_hasExtension in Hext.
      destruct (Hnone ext Hext) as [Hi Hv].
      destruct (knownExtension imageExtensions (Some ext)) eqn:Bi.
      { apply (knownExtension_In _ ext imageExtensions_nonempty) in Bi.
        contradiction. }
      destruct (knownExtension videoExtensions (Some ext)) eqn:Bv.
      { apply (knownExtension_In _ ext videoExtensions_nonempty) in Bv.
        contradiction. }
      reflexivity.
  - intros event t Hall. split; [apply matchAll_in_order|].
    destruct (extractLoop_parsed _ [] t Hall) as (pushes & HF & Hrun).
    exists pushes. split; [assumption|]. exact Hrun.
Qed.

(** *** Assembling a note *)

Lemma bind_ext {S A B} (c : M S A) (k1 k2 : A -> M S B) s :
  (forall v s', k1 v s' = k2 v s') -> bind c k1 s = bind c k2 s.
Proof.
  intros H. unfold bind. destruct (c s) as [[v|e] s']; [apply H|reflexivity].
Qed.

Lemma bind_first {S A B} (c1 c2 : M S A) (k : A -> M S B) s :
  c1 s = c2 s -> bind c1 k s = bind c2 k s.
Proof. intros H. unfold bind. now rewrite H. Qed.

Lemma call_trace {A} ev (c : Completion A) t r t' :
  call ev c t = (r, t') -> r = c /\ t' = t ++ [ev].
Proof. destruct c; now intros [= <- <-]. Qed.

Lemma call_no_fetch {A} ev (c : Completion A) t r t' :
  isReplyFetch ev = false ->
  call ev c t = (r, t') -> replyFetches t' = replyFetches t.
Proof.
  intros Hev H. apply call_trace in H as [_ ->].
  rewrite replyFetches_app. unfold replyFetches at 2.
  rewrite filter_cons_False by (rewrite Hev; exact (fun x => x)).
  apply app_nil_r.
Qed.

Lemma extractMedia_trace event t r t' :
  extractMedia C event t = (r, t') -> t' = t.
Proof. apply extractLoop_trace. Qed.

Lemma createNoteReactionsFromEvent_no_fetch event t r t' :
  createNoteReactionsFromEvent C event t = (r, t') ->
  replyFetches t' = replyFetches t.
Proof.
  unfold createNoteReactionsFromEvent. intros H.
  bind_case H reactionEvents t1 E1;
    apply call_no_fetch in E1; [|reflexivity| |reflexivity];
    [|injection H as _ <-; assumption].
  destruct (fold_left (countReaction C) reactionEvents (0, ∅))
    as [likes custom].
  bind_case H repostEvents t2 E2;
    apply call_no_fetch in E2; [|reflexivity| |reflexivity];
    [|injection H as _ <-; congruence].
  bind_case H zaps t3 E3;
    apply call_no_fetch in E3; [|reflexivity| |reflexivity];
    injection H as _ <-; congruence.
Qed.

(** Below the root, the reply tag is not followed: nothing is
    fetched and the note has no parent. *)
Lemma body_below_root self event depth t r t' :
  depth <> 0%nat ->
  createNoteFromEvent_body C self event depth t = (r, t') ->
  replyFetches t' = replyFetches t
  /\ forall n, r = Return n -> replyParentNote n = None.
Proof.
  intros Hd H. destruct depth as [|d]; [congruence|].
  unfold createNoteFromEvent_body in H.
  bind_case H x1 t1 E1;
    apply call_no_fetch in E1; [|reflexivity| |reflexivity];
    [|injection H as <- <-; split; [assumption|discriminate]].
  bind_case H x2 t2 E2; apply extractMedia_trace in E2; subst t2;
    [|injection H as <- <-; split; [assumption|discriminate]].
  assert (Hnone : forall o : option jsstring,
             match o with
             | Some (_ :: _ as eventId) =>
                 match S d with
                 | O => call (ClientFetchEvent eventId)
                          (client_fetchEvent C eventId)
                 | S _ => ret None
                 end
             | _ => ret None
             end = ret (S := Trace) (@None NDKEvent)).
  { intros [[|c o]|]; reflexivity. }
  rewrite Hnone in H. unfold bind at 1, ret at 1 in H.
  unfold bind at 1, ret at 1 in H.
  bind_case H x3 t3 E3;
    apply createNoteReactionsFromEvent_no_fetch in E3.
  - injection H as <- <-. split; [congruence|].
    now intros n [= <-].
  - injection H as <- <-. split; [congruence|discriminate].
Qed.

(** Below the root the body does not look at [self]. *)
Lemma body_below_root_self self1 self2 event depth t :
  depth <> 0%nat ->
  createNoteFromEvent_body C self1 event depth t
  = createNoteFromEvent_body C self2 event depth t.
Proof.
  intros Hd. destruct depth as [|d]; [congruence|].
  unfold createNoteFromEvent_body.
  apply bind_ext; intros x1 t1. apply bind_ext; intros x2 t2.
  destruct (replyEventIdOf event) as [[|c o]|]; reflexivity.
Qed.

(** The source's recursive equation. *)
Lemma createNoteFromEvent_unfold event depth t :
  createNoteFromEvent C event depth t
  = createNoteFromEvent_body C (createNoteFromEvent C) event depth t.
Proof.
  unfold createNoteFromEvent at 1. unfold createNoteFromEvent_body at 1.
  unfold createNoteFromEvent_body at 2.
  apply bind_ext; intros x1 t1. apply bind_ext; intros x2 t2.
  apply bind_ext; intros [e|] t3; [|reflexivity].
  apply bind_first. apply bind_first. unfold createNoteFromEvent.
  now apply body_below_root_self.
Qed.

(** At the root: which fetch is made and which parent is set, for a
    [self] that does not fetch and sets no parent. *)
Lemma body_root self event t n t' :
  (forall e s r s',
      self e 1%nat s = (r, s') ->
      replyFetches s' = replyFetches s
      /\ forall p, r = Return p -> replyParentNote p = None) ->
  createNoteFromEvent_body C self event 0 t = (Return n, t') ->
  match replyEventIdOf event with
  | Some ((_ :: _) as eventId) =>
      replyFetches t' = replyFetches t ++ [ClientFetchEvent eventId]
      /\ match client_fetchEvent C eventId with
         | Return (Some e) =>
             exists p t1 t2,
               self e 1%nat t1 = (Return p, t2)
               /\ replyParentNote n = Some p
               /\ replyParentNote p = None
         | _ => replyParentNote n = None
         end
  | _ => replyFetches t' = replyFetches t /\ replyParentNote n = None
  end.
Proof.
  intros Hself H. unfold createNoteFromEvent_body in H.
  bind_case H x1 t1 E1;
    apply call_no_fetch in E1; [|reflexivity| |reflexivity];
    [|discriminate].
  bind_case H x2 t2 E2; apply extractMedia_trace in E2; subst t2;
    [|discriminate].
  destruct (replyEventIdOf event) as [[|c o]|].
  1, 3: unfold bind at 1, ret at 1 in H; unfold bind at 1, ret at 1 in H;
    bind_case H x3 t3 E3; [|discriminate];
    apply createNoteReactionsFromEvent_no_fetch in E3;
    injection H as <- <-; split; [congruence|reflexivity].
  bind_case H replyEvent t3 E3; [|discriminate].
  apply call_trace in E3 as [<- ->].
  assert (Hf : replyFetches (t1 ++ [ClientFetchEvent (c :: o)])
               = replyFetches t ++ [ClientFetchEvent (c :: o)]).
  { rewrite replyFetches_app, E1. reflexivity. }
  destruct replyEvent as [e|].
  - bind_case H parent t4 E4; [|discriminate].
    bind_case E4 p t5 E5; [|discriminate].
    injection E4 as <- <-.
    destruct (Hself _ _ _ _ E5) as [Hs Hp].
    bind_case H x3 t6 E6; [|discriminate].
    apply createNoteReactionsFromEvent_no_fetch in E6.
    injection H as <- <-. split; [congruence|].
    exists p, (t1 ++ [ClientFetchEvent (c :: o)]), t5.
    repeat split; [assumption|]. now apply Hp.
  - unfold bind at 1, ret at 1 in H.
    bind_case H x3 t6 E6; [|discriminate].
    apply createNoteReactionsFromEvent_no_fetch in E6.
    injection H as <- <-. split; [congruence|reflexivity].
Qed.

(** C4. Assembled at depth 1, an event's reply tag is not followed:
    no event is fetched and the note has no parent. Assembled at
    depth 0, a note's parent, if it has one, has no parent itself,
    whatever the reply chain below it; and when the event carries an
    [e] tag with a non-empty id that the relays resolve, exactly that
    one event is fetched, and the note's parent is that event
    assembled at depth 1. *)
Theorem one_level_of_reply_ancestry :
  (forall event t r t',
      createNoteFromEvent C event 1 t = (r, t') ->
      replyFetches t' = replyFetches t
      /\ forall n, r = Return n -> replyParentNote n = None) /\
  (forall event t n t',
      createNoteFromEvent C event 0 t = (Return n, t') ->
      (forall p, replyParentNote n = Some p -> replyParentNote p = None) /\
      (forall eventId e,
          replyEventIdOf event = Some eventId -> eventId <> [] ->
          client_fetchEvent C eventId = Return (Some e) ->
          replyFetches t' = replyFetches t ++ [ClientFetchEvent eventId]
          /\ exists p t1 t2,
              createNoteFromEvent C e 1 t1 = (Return p, t2)
              /\ replyParentNote n = Some p)).
Proof.
  split.
  - intros event t r t' H. unfold createNoteFromEvent in H.
    now apply body_below_root in H.
  - intros event t n t' H. unfold createNoteFromEvent in H.
    apply body_root in H.
    2:{ intros e s r s' He. now apply body_below_root in He. }
    split.
    + intros p Hp.
      destruct (replyEventIdOf event) as [[|c o]|];
        try (destruct H as [_ H]; congruence).
      destruct H as [_ H].
      destruct (client_fetchEvent C (c :: o)) as [[e|]|];
        try congruence.
      destruct H as (p' & t1 & t2 & _ & Hn & Hnone). congruence.
    + intros eventId e Hid Hne Hfetch. rewrite Hid in H.
      destruct eventId as [|c o]; [congruence|].
      destruct H as [Hf H]. split; [assumption|].
      rewrite Hfetch in H. destruct H as (p & t1 & t2 & Hp & Hn & _).
      exists p, t1, t2. split; [|assumption].
      unfold createNoteFromEvent.
      rewrite (body_below_root_self _ unreachable) by discriminate.
      exact Hp.
Qed.

(** C7, on the code. A URL-like substring the platform's URL parser
    rejects is not treated as having no extension: [extractMedia]
    throws the parser's [TypeError], and [createNoteFromEvent] does
    not return a note; it throws that [TypeError] as soon as the
    author's profile has been fetched. *)
Theorem unparsable_url_aborts_assembly event url depth t :
  In url (matchAll urlPattern (ev_content event)) ->
  URL_pathname C url = None ->
  fst (extractMedia C event t) = Throw TypeError_InvalidURL
  /\ (forall n, fst (createNoteFromEvent C event depth t) <> Return n)
  /\ (forall p,
         repo_fetchProfile C (user_npub (ev_author event)) = Return p ->
         fst (createNoteFromEvent C event depth t)
         = Throw TypeError_InvalidURL).
Proof.
  intros Hin Hnone.
  assert (Hm : forall s, extractMedia C event s
                         = (Throw TypeError_InvalidURL, s)).
  { intros s. unfold extractMedia.
    exact (extractLoop_unparsed _ [] s url Hin Hnone). }
  split; [now rewrite Hm|].
  assert (Hrun : forall self,
             createNoteFromEvent_body C self event depth t
             = match repo_fetchProfile C (user_npub (ev_author event)) with
               | Return _ =>
                   (Throw TypeError_InvalidURL,
                    t ++ [RepoFetchProfile (user_npub (ev_author event))])
               | Throw e =>
                   (Throw e,
                    t ++ [RepoFetchProfile (user_npub (ev_author event))])
               end).
  { intros self. unfold createNoteFromEvent_body.
    destruct (repo_fetchProfile C (user_npub (ev_author event))) as [p|e].
    - rewrite (bind_Return _ _ _ _ _ (call_Return _ p t)).
      now rewrite (bind_Throw _ _ _ _ _ (Hm _)).
    - now rewrite (bind_Throw _ _ _ _ _ (call_Throw _ e t)). }
  unfold createNoteFromEvent. rewrite Hrun. split.
  - intros n. now destruct (repo_fetchProfile C _).
  - intros p ->. reflexivity.
Qed.

(** *** Reactions *)

(** What one reaction does to the counters. *)
Lemma countReaction_cases likes custom reactionEvent :
  let content := trim (ev_content reactionEvent) in
  (content = lit "+" \/ content = [] ->
     countReaction C (likes, custom) reactionEvent = (likes + 1, custom)) /\
  (content <> lit "+" -> content <> [] ->
     (startsWith content [colon] = true /\ endsWith content [colon] = true)
     \/ (exists c, content = [c] /\ Emoji C c = true) ->
     countReaction C (likes, custom) reactionEvent
     = (likes, <[content := default 0 (custom !! content) + 1]> custom)) /\
  (content <> lit "+" -> content <> [] ->
     ~ (startsWith content [colon] = true /\ endsWith content [colon] = true) ->
     ~ (exists c, content = [c] /\ Emoji C c = true) ->
     countReaction C (likes, custom) reactionEvent = (likes, custom)).
Proof.
  intros content. unfold countReaction. fold content. clearbody content.
  unfold eqb_string. repeat split.
  - intros [->| ->]; reflexivity.
  - intros Hp He Hc.
    rewrite !bool_decide_eq_false_2 by assumption. cbn [orb].
    destruct Hc as [[-> ->]|(c & -> & Hc)]; [reflexivity|].
    unfold matchEmoji. cbn [codePoints existsb length Nat.eqb].
    rewrite Hc. cbn [andb orb]. now rewrite orb_true_r.
  - intros Hp He Hw Hc.
    rewrite !bool_decide_eq_false_2 by assumption. cbn [orb].
    assert (Hcolons : startsWith content [colon] && endsWith content [colon]
                      = false).
    { apply not_true_iff_false. rewrite andb_true_iff. exact Hw. }
    assert (Hemoji : (length content =? 1)%nat && matchEmoji C content
                     = false).
    { apply not_true_iff_false. rewrite andb_true_iff, Nat.eqb_eq.
      intros [Hlen Hm]. apply Hc.
      destruct content as [|c [|c' rest]]; simpl in Hlen; try lia.
      exists c. split; [reflexivity|].
      unfold matchEmoji in Hm. cbn [codePoints existsb] in Hm.
      now rewrite orb_false_r in Hm. }
    now rewrite Hcolons, Hemoji.
Qed.

(** C3, on the code. A reaction whose content is the single emoji
    character U+1F600 changes neither counter: its length in code
    units is 2, so the single-character test fails, it is not wrapped
    in colons and it is not [+] or empty. *)
Theorem astral_emoji_reaction_ignored
    (acc : Counters) (eid : jsstring) (who : NDKUser)
    (etags : list (list jsstring)) (created : option Z) (raw : jsstring) :
  codePoints grinningFace = [128512%N]
  /\ length grinningFace = 2%nat
  /\ countReaction C acc (mkNDKEvent eid who grinningFace etags created raw)
     = acc
  /\ fold_left (countReaction C)
       [mkNDKEvent eid who grinningFace etags created raw] (0, ∅)
     = (0, ∅).
Proof.
  repeat split; try reflexivity. now destruct acc.
Qed.

End NoteServiceProperties.

(** *** Runs *)

Example matchAll_urls :
  Regex.matchAll NoteService.urlPattern
    (lit "see https://a.io/x.png and http://b.io/v.mp4 ok")
  = [lit "https://a.io/x.png"; lit "http://b.io/v.mp4"].
Proof. reflexivity. Qed.

Example isYouTubeUrl_watch :
  NoteService.isYouTubeUrl (lit "https://www.youtube.com/watch?v=dQw4w9WgXcQ")
  = true.
Proof. reflexivity. Qed.

Example isYouTubeUrl_share :
  NoteService.isYouTubeUrl (lit "https://youtu.be/dQw4w9WgXcQ") = true.
Proof. reflexivity. Qed.

Example isYouTubeUrl_other :
  NoteService.isYouTubeUrl (lit "https://example.com/watch?v=1") = false.
Proof. reflexivity. Qed.

Example trim_spaces : trim (lit "  +  ") = lit "+".
Proof. reflexivity. Qed.

Example numberToString_1000 : numberToString 1000 = lit "1000".
Proof. reflexivity. Qed.

Example pathname_cat :
  Demo.pathname (lit "https://example.com/cat.JPG?x=1") = Some (lit "/cat.JPG").
Proof. reflexivity. Qed.

Example pathname_bracket : Demo.pathname (lit "http://[") = None.
Proof. reflexivity. Qed.

Example extractMedia_d :
  NoteService.extractMedia Demo.collaborators Demo.d []
  = (Return [mkMedia image (lit "https://example.com/cat.JPG")], []).
Proof. reflexivity. Qed.

Example reactions_counted :
  fold_left (NoteService.countReaction Demo.collaborators)
    [Demo.post Demo.bob "r1" "+" []; Demo.post Demo.bob "r2" " " [];
     Demo.post Demo.bob "r3" ":smile:" [];
     Demo.post Demo.bob "r4" "hello" []]
    (0, ∅)
  = (2, {[ lit ":smile:" := 1 ]}).
Proof. vm_compute. reflexivity. Qed.

(** *** The properties on these runs *)

Lemma makeZapRequest_id_stable_witness :
  exists ev t',
    makeZapRequest (Demo.platform Demo.openProvider) Demo.client
      (lit "bob@pay.example") 21000 [] = (Return ev, t')
    /\ exists to lnurl eventId,
        eventId = generateEventId (Demo.platform Demo.openProvider)
                    (unsignedZapRequest (Demo.platform Demo.openProvider)
                       Demo.client 21000 lnurl to)
        /\ tags ev = zapTags 21000 lnurl to ++ [[lit "e"; eventId]]
        /\ tags ev !! 4%nat = Some [lit "e"; eventId]
        /\ withoutLastTag ev
           = unsignedZapRequest (Demo.platform Demo.openProvider)
               Demo.client 21000 lnurl to
        /\ generateEventId (Demo.platform Demo.openProvider)
             (withoutLastTag ev) = eventId.
Proof.
  eexists. eexists. split; [reflexivity|].
  eapply (makeZapRequest_id_stable (Demo.platform Demo.openProvider)
            Demo.client (lit "bob@pay.example") 21000 []).
  reflexivity.
Defined.

Lemma connect_idempotent_witness :
  connect (Demo.platform Demo.openProvider)
    (mkRuntime (Some Demo.client) [])
  = (Return Demo.client, mkRuntime (Some Demo.client) []).
Proof.
  apply (proj1 (connect_idempotent (Demo.platform Demo.openProvider)
                  (mkRuntime (Some Demo.client) []))).
  reflexivity.
Defined.

(** Two calls made one right after the other, before anything is
    resumed: both find the field empty and both go through the six
    steps. *)
Example connect_twice_in_one_tick :
  run (Demo.platform Demo.openProvider)
      ([Enter; Enter] ++ repeat (Resume 0) 4 ++ repeat (Resume 1) 4)
      (mkProcess (mkRuntime None []) [])
  = mkProcess
      (mkRuntime (Some Demo.client)
         [NewSigner 60000; SignerBlockUntilReady;
          NewSigner 60000; SignerBlockUntilReady;
          NewNDK Relays; NdkConnect 1; SignerUser; UserFetchProfile Demo.alice;
          NewNDK Relays; NdkConnect 1; SignerUser; UserFetchProfile Demo.alice])
      [Settled (Return Demo.client); Settled (Return Demo.client)].
Proof. reflexivity. Qed.

Lemma overlapping_connects_initialise_twice_witness :
  exists before,
    run (Demo.platform Demo.openProvider) (overlapping 0)
        (mkProcess (mkRuntime None []) [])
    = mkProcess (mkRuntime (Some (mkNostrClient Relays Demo.alice))
                           (trace (mkRuntime None []) ++ before))
                [Settled (Return (mkNostrClient Relays Demo.alice));
                 AwaitBlockUntilReady]
    /\ run (Demo.platform Demo.openProvider)
           (overlapping 0 ++ repeat (Resume 1) 3)
           (mkProcess (mkRuntime None []) [])
       = mkProcess (mkRuntime (Some (mkNostrClient Relays Demo.alice))
                              (trace (mkRuntime None []) ++ before
                                 ++ [NewNDK Relays; NdkConnect 1; SignerUser;
                                     UserFetchProfile Demo.alice]))
                   [Settled (Return (mkNostrClient Relays Demo.alice));
                    AwaitFetchProfile Demo.alice]
    /\ run (Demo.platform Demo.openProvider)
           (overlapping 0 ++ repeat (Resume 1) 4)
           (mkProcess (mkRuntime None []) [])
       = mkProcess (mkRuntime (Some (mkNostrClient Relays Demo.alice))
                              (trace (mkRuntime None []) ++ before
                                 ++ [NewNDK Relays; NdkConnect 1; SignerUser;
                                     UserFetchProfile Demo.alice]))
                   [Settled (Return (mkNostrClient Relays Demo.alice));
                    Settled (Return (mkNostrClient Relays Demo.alice))]
    /\ before ++ [NewNDK Relays; NdkConnect 1; SignerUser;
                  UserFetchProfile Demo.alice]
       ≡ₚ Stated.connectSteps Demo.alice ++ Stated.connectSteps Demo.alice.
Proof.
  apply (overlapping_connects_initialise_twice
           (Demo.platform Demo.openProvider) Demo.alice
           eq_refl eq_refl eq_refl eq_refl eq_refl
           (mkRuntime None []) 0).
  - reflexivity.
  - lia.
Defined.

Lemma npub_checked_before_lookup_witness :
  getUser (Demo.platform Demo.openProvider) (lit "alice") []
  = (Throw (InvalidNpub (lit "alice")), [])
  /\ getUserWithProfile (Demo.platform Demo.openProvider) (lit "alice") []
     = (Throw (InvalidNpub (lit "alice")), []).
Proof.
  apply (proj1 (npub_checked_before_lookup
                  (Demo.platform Demo.openProvider) (lit "alice") [])).
  left. vm_compute. lia.
Defined.

Lemma amount_checked_before_callback_witness :
  fst (sendZapRequest (Demo.platform Demo.openProvider) Demo.client
         (lit "bob@pay.example") 0 [])
  = Throw (NostrMinSendableConstraintError (0 * 1000) 1000).
Proof.
  apply (proj2 (amount_checked_before_callback
                  (Demo.platform Demo.openProvider) Demo.client
                  (lit "bob@pay.example") 0 [] Demo.openProvider eq_refl)).
  - do 4 eexists. repeat split; try reflexivity; do 2 eexists; reflexivity.
  - reflexivity.
  - lia.
  - lia.
Defined.

(** C6 as the spec words it fails: the provider declares
    [maxSendable] 0, the amount is 1000 millisatoshis, and the flow
    does not fail: the payment endpoint is called and the invoice is
    returned. *)
Lemma zero_maxSendable_not_enforced :
  providerAnswer (Demo.platform Demo.closedProvider) (lit "bob@pay.example")
  = Some Demo.closedProvider
  /\ maxSendable Demo.closedProvider = Some 0
  /\ 0 < 1 * 1000
  /\ fst (sendZapRequest (Demo.platform Demo.closedProvider) Demo.client
            (lit "bob@pay.example") 1 [])
     = Return (mkSendZapRequestResponse (lit "lnbc1") None None)
  /\ exists url,
      zapEndpointGets
        (snd (sendZapRequest (Demo.platform Demo.closedProvider) Demo.client
                (lit "bob@pay.example") 1 []))
      = [HttpGetZapEndpoint url].
Proof.
  repeat split; try reflexivity. eexists. vm_compute. reflexivity.
Qed.

Lemma media_classification_witness :
  classify Demo.collaborators (lit "https://example.com/cat.JPG") []
  = (Return (Some (mkMedia image (lit "https://example.com/cat.JPG"))), []).
Proof.
  apply (proj1 (proj1 (media_classification Demo.collaborators)
                  (lit "https://example.com/cat.JPG") (lit "/cat.JPG") []
                  eq_refl) (lit "jpg")).
  - exists (lit "/cat"), (lit "JPG"). repeat split.
    vm_compute. intuition discriminate.
  - vm_compute. tauto.
Defined.

Lemma one_level_of_reply_ancestry_witness :
  exists n t',
    createNoteFromEvent Demo.collaborators Demo.d 0 [] = (Return n, t')
    /\ (forall p, replyParentNote n = Some p -> replyParentNote p = None).
Proof.
  eexists. eexists. split; [vm_compute; reflexivity|].
  refine (proj1 (proj2 (one_level_of_reply_ancestry Demo.collaborators)
                   Demo.d [] _ _ _)).
  vm_compute. reflexivity.
Defined.

Lemma unparsable_url_aborts_assembly_witness :
  fst (extractMedia Demo.collaborators Demo.broken [])
  = Throw TypeError_InvalidURL
  /\ (forall n, fst (createNoteFromEvent Demo.collaborators Demo.broken 0 [])
                <> Return n)
  /\ (forall p,
         repo_fetchProfile Demo.collaborators
           (user_npub (ev_author Demo.broken)) = Return p ->
         fst (createNoteFromEvent Demo.collaborators Demo.broken 0 [])
         = Throw TypeError_InvalidURL).
Proof.
  apply (unparsable_url_aborts_assembly Demo.collaborators Demo.broken
           (lit "http://[") 0 []).
  - vm_compute. now left.
  - reflexivity.
Defined.

Example fetchWithRetry_flaky :
  fst (Retry.fetchWithRetry Demo.flaky 0 []) = Return 7
  /\ Retry.timeline (snd (Retry.fetchWithRetry Demo.flaky 0 []))
     = [Invoke; Delay 100; Invoke; Delay 100; Invoke].
Proof. split; reflexivity. Qed.

Example getUserWithProfile_valid :
  fst (getUserWithProfile (Demo.platform Demo.openProvider)
         (lit "npub1v20e8yj9y7n58q5kfp0fahea9g4p3pmv2ufjgc6c9mcnugyeemyqu6s59g") [])
  = Return (mkUserWithProfile
              (mkNDKUser
                 (lit "npub1v20e8yj9y7n58q5kfp0fahea9g4p3pmv2ufjgc6c9mcnugyeemyqu6s59g")
                 (lit "pk"))
              (Some [(lit "name",
                      lit "npub1v20e8yj9y7n58q5kfp0fahea9g4p3pmv2ufjgc6c9mcnugyeemyqu6s59g")])).
Proof. vm_compute. reflexivity. Qed.

Example grinning_reaction_lost :
  Emoji Demo.reacted 128512 = true
  /\ codePoints (ev_content Demo.grinning) = [128512%N]
  /\ fst (createNoteReactionsFromEvent Demo.reacted Demo.a [])
     = Return (mkNoteReactions 0 0 0 ∅).
Proof. repeat split. Qed.

(* ================================================================= *)
(** * Further properties *)

Import Language Entities Stated.

(** ** The retry wrapper, in general *)

Section RetryInGeneral.
Context {A : Type}.
Variable operation : nat -> Attempt A.

Lemma invocations_last_attempt l (e : Thrown) :
  invocations [Invoke] = 1%nat /\ delays [Invoke] = 0%nat
  /\ invocations [Invoke; ConsoleError l e] = 1%nat
  /\ delays [Invoke; ConsoleError l e] = 0%nat.
Proof. repeat split. Qed.

(** The four ways a run from the first attempt goes. *)
Lemma fetchWithRetry_cases (t : Trace) :
  (exists v,
      operation (invocations t) = Resolved v
      /\ fetchWithRetry operation 0 t = (Return v, t ++ [Invoke]))
  \/ (exists e0 v,
         attemptError (operation (invocations t)) = Some e0
         /\ operation (invocations t + 1) = Resolved v
         /\ fetchWithRetry operation 0 t
            = (Return v, t ++ retryEvents 0 e0 ++ [Invoke]))
  \/ (exists e0 e1 v,
         attemptError (operation (invocations t)) = Some e0
         /\ attemptError (operation (invocations t + 1)) = Some e1
         /\ operation (invocations t + 2) = Resolved v
         /\ fetchWithRetry operation 0 t
            = (Return v,
               t ++ retryEvents 0 e0 ++ retryEvents 1 e1 ++ [Invoke]))
  \/ (exists e0 e1 e2,
         attemptError (operation (invocations t)) = Some e0
         /\ attemptError (operation (invocations t + 1)) = Some e1
         /\ attemptError (operation (invocations t + 2)) = Some e2
         /\ fetchWithRetry operation 0 t
            = (Throw e2,
               t ++ retryEvents 0 e0 ++ retryEvents 1 e1
                 ++ [Invoke; ConsoleError (attemptLabel 2) e2])).
Proof.
  destruct (attemptError_cases (operation (invocations t)))
    as [[v0 R0]|[e0 F0]].
  { left. exists v0. split; [assumption|].
    now apply fetchWithRetry_resolved. }
  destruct (attemptError_cases (operation (invocations t + 1)))
    as [[v1 R1]|[e1 F1]].
  { right; left. exists e0, v1. repeat split; try assumption.
    rewrite (fetchWithRetry_retry operation 0 t e0 F0)
      by (unfold MaxRetries; lia).
    rewrite (fetchWithRetry_resolved operation (0 + 1) _ v1).
    - now rewrite <- app_assoc.
    - rewrite invocations_retryEvents.
      now replace (S (invocations t)) with (invocations t + 1)%nat by lia. }
  destruct (attemptError_cases (operation (invocations t + 2)))
    as [[v2 R2]|[e2 F2]].
  { right; right; left. exists e0, e1, v2. repeat split; try assumption.
    now apply fetchWithRetry_third_succeeds. }
  right; right; right. exists e0, e1, e2. repeat split; try assumption.
  now apply fetchWithRetry_all_fail.
Qed.

Lemma attemptError_Resolved (a : Attempt A) v e :
  a = Resolved v -> attemptError a = Some e -> False.
Proof. intros ->. discriminate. Qed.

(** Which attempt a returned value comes from. *)
Lemma fetchWithRetry_first_success (t : Trace) (v : A) :
  fst (fetchWithRetry operation 0 t) = Return v
  <-> exists k,
        (k < 3)%nat
        /\ operation (invocations t + k) = Resolved v
        /\ forall j, (j < k)%nat ->
             exists e, attemptError (operation (invocations t + j)) = Some e.
Proof.
  destruct (fetchWithRetry_cases t)
    as [(v0 & R0 & E)|[(e0 & v1 & F0 & R1 & E)
       |[(e0 & e1 & v2 & F0 & F1 & R2 & E)|(e0 & e1 & e2 & F0 & F1 & F2 & E)]]];
    rewrite E; cbn [fst]; split.
  - intros [= <-]. exists 0%nat. rewrite Nat.add_0_r.
    split; [lia|split; [assumption|intros j Hj; exfalso; lia]].
  - intros ([|k] & _ & R & Hfail).
    + rewrite Nat.add_0_r in R. congruence.
    + destruct (Hfail 0%nat ltac:(lia)) as [e He].
      rewrite Nat.add_0_r in He.
      destruct (attemptError_Resolved _ _ _ R0 He).
  - intros [= <-]. exists 1%nat. split; [lia|split; [assumption|]].
    intros j Hj. assert (j = 0)%nat as -> by lia.
    rewrite Nat.add_0_r. eauto.
  - intros ([|[|k]] & _ & R & Hfail).
    + rewrite Nat.add_0_r in R.
      destruct (attemptError_Resolved _ _ _ R F0).
    + congruence.
    + destruct (Hfail 1%nat ltac:(lia)) as [e He].
      destruct (attemptError_Resolved _ _ _ R1 He).
  - intros [= <-]. exists 2%nat. split; [lia|split; [assumption|]].
    intros j Hj. assert (j = 0 \/ j = 1)%nat as [-> | ->] by lia;
      [rewrite Nat.add_0_r|]; eauto.
  - intros ([|[|[|k]]] & Hk & R & _); try lia.
    + rewrite Nat.add_0_r in R.
      destruct (attemptError_Resolved _ _ _ R F0).
    + destruct (attemptError_Resolved _ _ _ R F1).
    + congruence.
  - discriminate.
  - intros ([|[|[|k]]] & Hk & R & _); try lia.
    + rewrite Nat.add_0_r in R.
      destruct (attemptError_Resolved _ _ _ R F0).
    + destruct (attemptError_Resolved _ _ _ R F1).
    + destruct (attemptError_Resolved _ _ _ R F2).
Qed.

(** X1. The wrapper returns [v] exactly when one of the first three
    attempts resolves with [v] and every attempt before it failed; the
    operation has then been invoked once more than the number of
    failed attempts. *)
Theorem fetchWithRetry_returns_first_success (t : Trace) (v : A) :
  fst (fetchWithRetry operation 0 t) = Return v
  <-> exists k,
        (k < 3)%nat
        /\ operation (invocations t + k) = Resolved v
        /\ (forall j, (j < k)%nat ->
              exists e, attemptError (operation (invocations t + j)) = Some e)
        /\ invocations (snd (fetchWithRetry operation 0 t))
           = (invocations t + k + 1)%nat.
Proof.
  split.
  - intros H.
    destruct (fetchWithRetry_cases t)
      as [(v0 & R0 & E)|[(e0 & v1 & F0 & R1 & E)
         |[(e0 & e1 & v2 & F0 & F1 & R2 & E)|(e0 & e1 & e2 & _ & _ & _ & E)]]];
      rewrite E in H |- *; simpl in H; try discriminate; injection H as ->.
    + exists 0%nat. rewrite Nat.add_0_r.
      split; [lia|split; [assumption|split; [intros j Hj; exfalso; lia|]]].
      cbn [snd]. rewrite invocations_app.
      change (invocations [Invoke]) with 1%nat. lia.
    + exists 1%nat. split; [lia|split; [assumption|split]].
      * intros j Hj. assert (j = 0)%nat as -> by lia.
        rewrite Nat.add_0_r. eauto.
      * cbn [snd]. rewrite app_assoc, invocations_app,
          invocations_retryEvents.
        change (invocations [Invoke]) with 1%nat. lia.
    + exists 2%nat. split; [lia|split; [assumption|split]].
      * intros j Hj. assert (j = 0 \/ j = 1)%nat as [-> | ->] by lia;
          [rewrite Nat.add_0_r|]; eauto.
      * cbn [snd]. rewrite 2!app_assoc, invocations_app.
        rewrite <- app_assoc, invocations_third.
        change (invocations [Invoke]) with 1%nat. lia.
  - intros (k & Hk & R & Hfail & _).
    destruct (fetchWithRetry_cases t)
      as [(v0 & R0 & E)|[(e0 & v1 & F0 & R1 & E)
         |[(e0 & e1 & v2 & F0 & F1 & R2 & E)|(e0 & e1 & e2 & F0 & F1 & F2 & E)]]];
      rewrite E; cbn [fst].
    + destruct k as [|k].
      * rewrite Nat.add_0_r in R. congruence.
      * destruct (Hfail 0%nat ltac:(lia)) as [e He].
        rewrite Nat.add_0_r in He.
        destruct (attemptError_Resolved _ _ _ R0 He).
    + destruct k as [|[|k]].
      * rewrite Nat.add_0_r in R.
        destruct (attemptError_Resolved _ _ _ R F0).
      * congruence.
      * destruct (Hfail 1%nat ltac:(lia)) as [e He].
        destruct (attemptError_Resolved _ _ _ R1 He).
    + destruct k as [|[|[|k]]]; try lia.
      * rewrite Nat.add_0_r in R.
        destruct (attemptError_Resolved _ _ _ R F0).
      * destruct (attemptError_Resolved _ _ _ R F1).
      * congruence.
    + destruct k as [|[|[|k]]]; try lia.
      * rewrite Nat.add_0_r in R.
        destruct (attemptError_Resolved _ _ _ R F0).
      * destruct (attemptError_Resolved _ _ _ R F1).
      * destruct (attemptError_Resolved _ _ _ R F2).
Qed.

Lemma invocations_cons_retryEvents retries e d :
  invocations (retryEvents retries e ++ d) = S (invocations d).
Proof.
  rewrite invocations_app.
  now change (invocations (retryEvents retries e)) with 1%nat.
Qed.

Lemma delays_cons_retryEvents retries e d :
  delays (retryEvents retries e ++ d) = S (delays d).
Proof.
  rewrite delays_app.
  now change (delays (retryEvents retries e)) with 1%nat.
Qed.

(** X2. Started at any retry count, the wrapper invokes the operation
    at least once and at most [MaxRetries - retries] times (once when
    the count is already at or past the budget), and it delays exactly
    once between consecutive invocations. *)
Theorem fetchWithRetry_budget (retries : nat) (t : Trace) r t' :
  fetchWithRetry operation retries t = (r, t') ->
  exists d,
    t' = t ++ d
    /\ (1 <= invocations d <= Nat.max 1 (MaxRetries - retries))%nat
    /\ delays d = (invocations d - 1)%nat.
Proof.
  remember (MaxRetries - 1 - retries)%nat as n eqn:Hn.
  revert retries t r t' Hn.
  induction n as [|n IH]; intros retries t r t' Hn Hrun.
  - destruct (attemptError_cases (operation (invocations t)))
      as [[v R]|[e F]].
    + rewrite (fetchWithRetry_resolved _ _ _ _ R) in Hrun.
      injection Hrun as <- <-. exists [Invoke].
      destruct (invocations_last_attempt [] OperationTimeout) as (-> & -> & _).
      split; [reflexivity|lia].
    + rewrite (fetchWithRetry_exhausted _ _ _ _ F) in Hrun
        by (unfold MaxRetries in *; lia).
      injection Hrun as <- <-.
      exists [Invoke; ConsoleError (attemptLabel retries) e].
      destruct (invocations_last_attempt (attemptLabel retries) e)
        as (_ & _ & -> & ->).
      split; [reflexivity|lia].
  - destruct (attemptError_cases (operation (invocations t)))
      as [[v R]|[e F]].
    + rewrite (fetchWithRetry_resolved _ _ _ _ R) in Hrun.
      injection Hrun as <- <-. exists [Invoke].
      destruct (invocations_last_attempt [] OperationTimeout) as (-> & -> & _).
      split; [reflexivity|lia].
    + rewrite (fetchWithRetry_retry _ _ _ _ F) in Hrun
        by (unfold MaxRetries in *; lia).
      apply IH in Hrun; [|unfold MaxRetries in *; lia].
      destruct Hrun as (d & -> & Hinv & Hdel).
      exists (retryEvents retries e ++ d). rewrite <- app_assoc.
      rewrite invocations_cons_retryEvents, delays_cons_retryEvents.
      unfold MaxRetries in *. split; [reflexivity|lia].
Qed.

End RetryInGeneral.

(** ** Looking a user up, with and without the profile *)

Section UsersFurther.
Variable P : Platform.

Lemma getUser_valid npub t :
  invalidNpub npub = false ->
  getUser P npub t
  = match ndk_getUser P npub with
    | Return u => (Return u, t ++ [NdkGetUser npub])
    | Throw e =>
        (Throw e,
         t ++ [NdkGetUser npub; ConsoleError (lit "Error: getUser:") e])
    end.
Proof.
  intros H. unfold getUser. rewrite H.
  unfold try_catch, bind, call, bind, emit, settle, throw.
  destruct (ndk_getUser P npub); [reflexivity|].
  cbn. now rewrite <- app_assoc.
Qed.

Lemma getUserWithProfile_valid_run npub t :
  invalidNpub npub = false ->
  getUserWithProfile P npub t
  = match ndk_getUser P npub with
    | Return u =>
        match fetchWithRetry (user_fetchProfile P u) 0
                (t ++ [NdkGetUser npub]) with
        | (Return p, t1) => (Return (mkUserWithProfile u p), t1)
        | (Throw e, t1) =>
            (Throw e,
             t1 ++ [ConsoleError
                      (lit "Error: getUserWithProfile: fetchProfile:") e;
                    ConsoleError (lit "Error: getUserWithProfile:") e])
        end
    | Throw e =>
        (Throw e,
         t ++ [NdkGetUser npub;
               ConsoleError (lit "Error: getUserWithProfile:") e])
    end.
Proof.
  intros H. unfold getUserWithProfile. rewrite H.
  unfold try_catch, bind, call, bind, emit, settle, throw, ret.
  destruct (ndk_getUser P npub) as [u|e]; cbn -[fetchWithRetry].
  - destruct (fetchWithRetry (user_fetchProfile P u) 0
                (t ++ [NdkGetUser npub])) as [[x|e] t1]; [reflexivity|].
    now rewrite <- app_assoc.
  - now rewrite <- app_assoc.
Qed.

(** X3. [getUserWithProfile] returns exactly when [getUser] returns a
    user for the same npub and the retried profile fetch for that user
    succeeds. What it returns is that user with the profile that the
    fetch which resolved has left on it: the first of at most three
    that resolves in time. *)
Theorem getUserWithProfile_returns_getUser npub t r :
  fst (getUserWithProfile P npub t) = Return r
  <-> fst (getUser P npub t) = Return (fetched r)
      /\ exists k,
          (k < 3)%nat
          /\ user_fetchProfile P (fetched r) (invocations t + k)
             = Resolved (fetched_profile r)
          /\ forall j, (j < k)%nat ->
               exists e,
                 attemptError (user_fetchProfile P (fetched r)
                                 (invocations t + j)) = Some e.
Proof.
  destruct (invalidNpub npub) eqn:Hv.
  - unfold getUserWithProfile, getUser. rewrite Hv. cbn.
    split; [discriminate|intros [H _]; discriminate].
  - rewrite (getUserWithProfile_valid_run _ _ Hv), (getUser_valid _ _ Hv).
    destruct (ndk_getUser P npub) as [u|e]; cbn [fst].
    2:{ split; [discriminate|intros [H _]; discriminate]. }
    pose proof (fetchWithRetry_first_success (user_fetchProfile P u)
                  (t ++ [NdkGetUser npub])) as Hiff.
    assert (invocations (t ++ [NdkGetUser npub]) = invocations t) as Hinv.
    { rewrite invocations_app. change (invocations [NdkGetUser npub]) with 0%nat.
      lia. }
    rewrite Hinv in Hiff.
    destruct (fetchWithRetry (user_fetchProfile P u) 0
                (t ++ [NdkGetUser npub])) as [[p|e] t1] eqn:Hf;
      cbn [fst] in *.
    + split.
      * intros [= <-]. cbn [fetched fetched_profile]. split; [reflexivity|].
        apply (Hiff p). reflexivity.
      * intros [[= Hu] Hk]. destruct r as [u' p']. cbn in Hu, Hk. subst u'.
        apply (Hiff p') in Hk. now injection Hk as ->.
    + split; [discriminate|].
      intros [[= Hu] Hk]. destruct r as [u' p']. cbn in Hu, Hk. subst u'.
      apply (Hiff p') in Hk. discriminate.
Qed.

(** X4. Whatever [getUserWithProfile] throws is the [Invalid npub]
    error of its own check, what [ndk.getUser] threw, or the error of
    the third profile attempt; in the last case the first two attempts
    failed as well and the error is logged by both handlers. *)
Theorem getUserWithProfile_error_provenance npub t e t' :
  getUserWithProfile P npub t = (Throw e, t') ->
  (e = InvalidNpub npub /\ t' = t)
  \/ ndk_getUser P npub = Throw e
  \/ exists u e0 e1 d,
       ndk_getUser P npub = Return u
       /\ attemptError (user_fetchProfile P u (invocations t)) = Some e0
       /\ attemptError (user_fetchProfile P u (invocations t + 1)) = Some e1
       /\ attemptError (user_fetchProfile P u (invocations t + 2)) = Some e
       /\ t' = t ++ d
               ++ [ConsoleError
                     (lit "Error: getUserWithProfile: fetchProfile:") e;
                   ConsoleError (lit "Error: getUserWithProfile:") e].
Proof.
  intros Hrun. destruct (invalidNpub npub) eqn:Hv.
  - left. unfold getUserWithProfile in Hrun. rewrite Hv in Hrun.
    now injection Hrun as <- <-.
  - right. rewrite (getUserWithProfile_valid_run _ _ Hv) in Hrun.
    destruct (ndk_getUser P npub) as [u|e'].
    + right.
      assert (Hn : invocations (t ++ [NdkGetUser npub]) = invocations t).
      { rewrite invocations_app.
        change (invocations [NdkGetUser npub]) with 0%nat. lia. }
      destruct (fetchWithRetry_cases (user_fetchProfile P u)
                  (t ++ [NdkGetUser npub]))
        as [(v0 & _ & E)|[(e0 & v1 & _ & _ & E)
           |[(e0 & e1 & v2 & _ & _ & _ & E)
            |(e0 & e1 & e2 & F0 & F1 & F2 & E)]]];
        rewrite E in Hrun; try discriminate.
      injection Hrun as <- <-. rewrite Hn in F0, F1, F2.
      exists u, e0, e1.
      exists ([NdkGetUser npub] ++ retryEvents 0 e0 ++ retryEvents 1 e1
              ++ [Invoke; ConsoleError (attemptLabel 2) e2]).
      repeat split; try assumption.
      now rewrite <- !app_assoc.
    + left. now injection Hrun as <- _.
Qed.

End UsersFurther.

(** ** The first [connect] *)

Section SessionFurther.
Variable P : Platform.

(** X5. With no session yet, [connect] returns exactly when the signer
    is created and becomes ready, the relays connect, the signer gives
    its user and that user's profile is fetched; the client it returns
    then holds that user and the fixed relay list, and the six steps
    are recorded in that order. *)
Theorem connect_first_time (rt : Runtime) (user : NDKUser) :
  nostrClient rt = None ->
  (new_NDKNip07Signer P LoginTimeoutMSec = Return tt
   /\ signer_blockUntilReady P = Return tt
   /\ ndk_connect P 1 = Return tt
   /\ signer_user P = Return user
   /\ loggedIn_fetchProfile P user = Return tt)
  <-> connect P rt
      = (Return (mkNostrClient Relays user),
         mkRuntime (Some (mkNostrClient Relays user))
                   (trace rt ++ connectSteps user)).
Proof.
  intros Hnone. destruct rt as [c t]. simpl in Hnone. subst c.
  unfold connect, bind, readSingleton, writeSingleton, onTrace, call,
    bind, emit, settle, ret, connectSteps. cbn.
  destruct (new_NDKNip07Signer P LoginTimeoutMSec) as [[]|];
    [|split; [intros (H & _); discriminate|discriminate]].
  destruct (signer_blockUntilReady P) as [[]|]; cbn;
    [|split; [intros (_ & H & _); discriminate|discriminate]].
  destruct (ndk_connect P 1) as [[]|]; cbn;
    [|split; [intros (_ & _ & H & _); discriminate|discriminate]].
  destruct (signer_user P) as [u|]; cbn;
    [|split; [intros (_ & _ & _ & H & _); discriminate|discriminate]].
  destruct (loggedIn_fetchProfile P u) as [[]|] eqn:Hp; cbn.
  - split.
    + intros (_ & _ & _ & [= ->] & _). now rewrite <- !app_assoc.
    + intros [= ->]. rewrite Hp. repeat split.
  - split; [|discriminate].
    intros (_ & _ & _ & [= ->] & H). rewrite Hp in H. discriminate.
Qed.

(** X6. A [connect] that fails has stopped at the step that failed:
    what it recorded is a non-empty prefix of the six steps, so no
    relay connection is opened before the signer is ready and no
    profile is fetched before the relays connect. *)
Theorem connect_stops_at_failure (rt rt' : Runtime) (e : Thrown) :
  nostrClient rt = None ->
  connect P rt = (Throw e, rt') ->
  exists user done rest,
    trace rt' = trace rt ++ done
    /\ done <> []
    /\ connectSteps user = done ++ rest.
Proof.
  intros Hnone. destruct rt as [c t]. simpl in Hnone. subst c.
  unfold connect, bind, readSingleton, writeSingleton, onTrace, call,
    bind, emit, settle, ret, connectSteps. cbn.
  destruct (new_NDKNip07Signer P LoginTimeoutMSec) as [[]|].
  2:{ intros [= <- <-]. exists (mkNDKUser [] []). cbn. eexists. eexists.
      split; [reflexivity|split; [discriminate|reflexivity]]. }
  destruct (signer_blockUntilReady P) as [[]|]; cbn.
  2:{ intros [= <- <-]. exists (mkNDKUser [] []). cbn.
      rewrite <- !app_assoc. eexists. eexists.
      split; [reflexivity|split; [discriminate|reflexivity]]. }
  destruct (ndk_connect P 1) as [[]|]; cbn.
  2:{ intros [= <- <-]. exists (mkNDKUser [] []). cbn.
      rewrite <- !app_assoc. eexists. eexists.
      split; [reflexivity|split; [discriminate|reflexivity]]. }
  destruct (signer_user P) as [u|]; cbn.
  2:{ intros [= <- <-]. exists (mkNDKUser [] []). cbn.
      rewrite <- !app_assoc. eexists. eexists.
      split; [reflexivity|split; [discriminate|reflexivity]]. }
  destruct (loggedIn_fetchProfile P u) as [[]|]; cbn; [discriminate|].
  intros [= <- <-]. exists u. cbn. rewrite <- !app_assoc.
  eexists. exists [].
  split; [reflexivity|split; [discriminate|reflexivity]].
Qed.

End SessionFurther.

(** ** The zap flow, step by step *)

Section ZapFurther.
Variable P : Platform.
Variable self : NostrClient.

(** [requestLnurlPay] in one piece. *)
Lemma requestLnurlPay_run metadata t :
  requestLnurlPay P metadata t
  = match JSON_parse_lud16 P (content metadata) with
    | Throw e => (Throw e, t)
    | Return lud16 =>
        match axios_get_lnurlPay P (toLnurlPayUrl P lud16) with
        | Throw e => (Throw e, t ++ [HttpGetLnurlPay (toLnurlPayUrl P lud16)])
        | Return body =>
            (match allowsNostr body, nostrPubkey body with
             | true, Some (_ :: _) => Return body
             | _, _ =>
                 Throw (Error (lud16 ++ lit " doesn't support Nostr. body: [object Object]"))
             end,
             t ++ [HttpGetLnurlPay (toLnurlPayUrl P lud16)])
        end
    end.
Proof.
  unfold requestLnurlPay, bind, call, bind, emit, settle, throw, ret.
  destruct (JSON_parse_lud16 P (content metadata)) as [lud16|];
    [|reflexivity].
  destruct (axios_get_lnurlPay P (toLnurlPayUrl P lud16)) as [body|];
    [|reflexivity].
  cbn. destruct (allowsNostr body); [|reflexivity].
  now destruct (nostrPubkey body) as [[|c k]|].
Qed.

(** [getZapEndpointWithParams] on a request [makeZapRequest] built. *)
Lemma getZapEndpointWithParams_built msat lnurl to sig lud16 t :
  let ev := builtZapRequest P self msat lnurl to in
  let metadata := zapMetadata P ev sig lud16 in
  getZapEndpointWithParams P ev sig lud16 t
  = match requestLnurlPay P metadata t with
    | (Throw e, t1) => (Throw (NostrRequestLnurlPayError metadata e), t1)
    | (Return lnurlPay, t1) =>
        match callback lnurlPay with
        | Some ((_ :: _) as callbackUrl) =>
            match encodeURI_JSON P ev with
            | Throw e => (Throw e, t1)
            | Return nostr =>
                if tooSmall lnurlPay msat
                then (Throw (NostrMinSendableConstraintError msat
                               (default 0 (minSendable lnurlPay))), t1)
                else if tooLarge lnurlPay msat
                then (Throw (NostrMaxSendableConstraintError msat
                               (default 0 (maxSendable lnurlPay))), t1)
                else (zapEndpointUrl P callbackUrl (numberToString msat)
                        nostr (Some lnurl), t1)
            end
        | _ =>
            (Throw (NostrGetZapEndpointCallbackUrlError metadata lnurlPay),
             t1)
        end
    end.
Proof.
  intros ev metadata.
  assert (H4 : tags ev !! 4%nat
               = Some [lit "e";
                       generateEventId P
                         (unsignedZapRequest P self msat lnurl to)])
    by reflexivity.
  assert (H1 : tags ev !! 1%nat = Some [lit "amount"; numberToString msat])
    by reflexivity.
  assert (H2 : tags ev !! 2%nat = Some [lit "lnurl"; lnurl]) by reflexivity.
  assert (Hmd : metadata
                = mkNostrEvent 0 (pubkey ev) (created_at ev) (tags ev)
                    (JSON_stringify_lud16 P lud16)
                    (Some (generateEventId P
                             (unsignedZapRequest P self msat lnurl to)))
                    (Some sig)) by reflexivity.
  clearbody metadata ev.
  unfold getZapEndpointWithParams. rewrite H4. cbn [lookup list_lookup].
  rewrite <- Hmd. unfold bind at 1, try_catch.
  destruct (requestLnurlPay P metadata t) as [[lnurlPay|e] t1];
    [|reflexivity].
  destruct (callback lnurlPay) as [[|c cb]|]; try reflexivity.
  unfold bind at 1, settle.
  destruct (encodeURI_JSON P ev) as [nostr|]; [|reflexivity].
  rewrite H1, H2. cbn [lookup list_lookup mbind option_bind].
  rewrite stringToNumber_numberToString.
  unfold tooSmall, tooLarge, bind, throw_if, throw, ret, amountToString.
  destruct (minSendable lnurlPay) as [min|];
    [destruct (negb (min =? 0) && (msat <? min)); [reflexivity|]|];
    (destruct (maxSendable lnurlPay) as [max|];
     [destruct (negb (max =? 0) && (max <? msat))|]); reflexivity.
Qed.

(** [sendZapRequest] in one piece. *)
Lemma sendZapRequest_run nip05Id sat t :
  sendZapRequest P self nip05Id sat t
  = match NDKUser_fromNip05 P nip05Id with
    | Throw e => (Throw e, t ++ [FromNip05 nip05Id])
    | Return None =>
        (Throw (NostrUnknownUserError nip05Id), t ++ [FromNip05 nip05Id])
    | Return (Some to) =>
        match toBech32EncodedLnurl P (toLnurlPayUrl P nip05Id) with
        | Throw e => (Throw e, t ++ [FromNip05 nip05Id])
        | Return lnurl =>
            let ev := builtZapRequest P self (sat * 1000) lnurl to in
            match signer_sign P ev with
            | Throw e => (Throw e, t ++ [FromNip05 nip05Id; SignerSign ev])
            | Return sig =>
                match getZapEndpointWithParams P ev sig nip05Id
                        (t ++ [FromNip05 nip05Id; SignerSign ev]) with
                | (Throw e, t1) => (Throw e, t1)
                | (Return zapEndpoint, t1) =>
                    (match axios_get_zapEndpoint P zapEndpoint with
                     | Throw e => Throw e
                     | Return response => invoiceOf response
                     end,
                     t1 ++ [HttpGetZapEndpoint zapEndpoint])
                end
            end
        end
    end.
Proof.
  unfold sendZapRequest.
  destruct (makeZapRequest P self nip05Id (sat * 1000) t)
    as [[ev|e] t1] eqn:Hmk.
  - rewrite (bind_Return _ _ _ _ _ Hmk). cbv beta.
    destruct (makeZapRequest_Return _ _ _ _ _ _ _ Hmk)
      as (to & lnurl & -> & -> & -> & ->).
    fold (builtZapRequest P self (sat * 1000) lnurl to). cbv zeta.
    unfold bind at 1.
    destruct (signer_sign P _) as [sig|e].
    + rewrite call_Return, <- app_assoc. cbn [app].
      unfold bind at 1.
      destruct (getZapEndpointWithParams P _ sig nip05Id _)
        as [[z|e] t2]; [|reflexivity].
      unfold bind, call, bind, emit, settle, invoiceOf, throw, ret.
      destruct (axios_get_zapEndpoint P z) as [[data|]|]; try reflexivity.
      destruct (eqb_string (status data) (lit "OK")); [|reflexivity].
      now destruct (pr data) as [[|c k]|].
    + now rewrite call_Throw, <- app_assoc.
  - rewrite (bind_Throw _ _ _ _ _ Hmk).
    revert Hmk.
    unfold makeZapRequest, bind, call, bind, emit, settle, throw, ret.
    destruct (NDKUser_fromNip05 P nip05Id) as [[to|]|];
      try (now intros [= <- <-]).
    destruct (toBech32EncodedLnurl P (toLnurlPayUrl P nip05Id));
      [discriminate|now intros [= <- <-]].
Qed.

Lemma requestLnurlPay_trace metadata t t0 :
  fst (requestLnurlPay P metadata t) = fst (requestLnurlPay P metadata t0)
  /\ match fst (requestLnurlPay P metadata t) with
     | Return _ =>
         exists u, snd (requestLnurlPay P metadata t)
                   = t ++ [HttpGetLnurlPay u]
     | Throw _ =>
         snd (requestLnurlPay P metadata t) = t
         \/ exists u, snd (requestLnurlPay P metadata t)
                      = t ++ [HttpGetLnurlPay u]
     end.
Proof.
  rewrite !requestLnurlPay_run.
  destruct (JSON_parse_lud16 P (content metadata)) as [lud16|];
    [|split; [reflexivity|now left]].
  destruct (axios_get_lnurlPay P (toLnurlPayUrl P lud16)) as [body|];
    [|split; [reflexivity|right; eauto]].
  split; [reflexivity|]. cbn [fst snd].
  destruct (allowsNostr body); [|right; eauto].
  destruct (nostrPubkey body) as [[|c k]|]; eauto.
Qed.

Lemma getZapEndpointWithParams_trace msat lnurl to sig lud16 t :
  match fst (getZapEndpointWithParams P
               (builtZapRequest P self msat lnurl to) sig lud16 t) with
  | Return _ =>
      exists u,
        snd (getZapEndpointWithParams P
               (builtZapRequest P self msat lnurl to) sig lud16 t)
        = t ++ [HttpGetLnurlPay u]
  | Throw _ =>
      snd (getZapEndpointWithParams P
             (builtZapRequest P self msat lnurl to) sig lud16 t) = t
      \/ exists u,
          snd (getZapEndpointWithParams P
                 (builtZapRequest P self msat lnurl to) sig lud16 t)
          = t ++ [HttpGetLnurlPay u]
  end.
Proof.
  rewrite getZapEndpointWithParams_built. cbv zeta.
  destruct (requestLnurlPay_trace
              (zapMetadata P (builtZapRequest P self msat lnurl to) sig lud16)
              t t) as [_ Ht].
  destruct (requestLnurlPay P _ t) as [[lnurlPay|e] t1]; cbn [fst snd] in *;
    [|exact Ht].
  destruct (callback lnurlPay) as [[|c cb]|]; cbn [fst snd];
    try (right; exact Ht).
  destruct (encodeURI_JSON P _); cbn [fst snd]; [|right; exact Ht].
  destruct (tooSmall lnurlPay msat); cbn [fst snd]; [right; exact Ht|].
  destruct (tooLarge lnurlPay msat); cbn [fst snd]; [right; exact Ht|].
  destruct (zapEndpointUrl P _ _ _ _); cbn [fst snd];
    [exact Ht|right; exact Ht].
Qed.

(** X7. [sendZapRequest] contacts its collaborators at most once
    each and in a fixed order: recipient lookup, signer, the provider's
    metadata, the payment endpoint. Whatever happens, what a run
    records is a non-empty prefix of these four calls; a run that
    returns has made all four. *)
Theorem sendZapRequest_call_order nip05Id sat t r t' :
  sendZapRequest P self nip05Id sat t = (r, t') ->
  exists ev lnurlPayUrl zapEndpoint done rest,
    t' = t ++ done
    /\ done <> []
    /\ zapCalls nip05Id ev lnurlPayUrl zapEndpoint = done ++ rest
    /\ (forall resp, r = Return resp -> rest = []).
Proof.
  rewrite sendZapRequest_run. unfold zapCalls.
  set (ev0 := mkNostrEvent 0 [] 0 [] [] None None).
  destruct (NDKUser_fromNip05 P nip05Id) as [[to|]|].
  2, 3: intros [= <- <-]; exists ev0, None, [], [FromNip05 nip05Id];
    eexists; (split; [reflexivity|split; [discriminate|split;
      [reflexivity|discriminate]]]).
  destruct (toBech32EncodedLnurl P (toLnurlPayUrl P nip05Id)) as [lnurl|].
  2: intros [= <- <-]; exists ev0, None, [], [FromNip05 nip05Id];
    eexists; (split; [reflexivity|split; [discriminate|split;
      [reflexivity|discriminate]]]).
  cbv zeta. set (ev := builtZapRequest P self (sat * 1000) lnurl to).
  destruct (signer_sign P ev) as [sig|].
  2: intros [= <- <-]; exists ev, None, [],
       [FromNip05 nip05Id; SignerSign ev];
    eexists; (split; [reflexivity|split; [discriminate|split;
      [reflexivity|discriminate]]]).
  pose proof (getZapEndpointWithParams_trace (sat * 1000) lnurl to sig
                nip05Id (t ++ [FromNip05 nip05Id; SignerSign ev])) as Ht.
  fold ev in Ht.
  destruct (getZapEndpointWithParams P ev sig nip05Id _)
    as [[z|e] t1] eqn:Hget; cbn [fst snd] in Ht.
  - destruct Ht as [u ->]. intros [= <- <-]. exists ev, u, z,
      [FromNip05 nip05Id; SignerSign ev; HttpGetLnurlPay u;
       HttpGetZapEndpoint z], [].
    split; [now rewrite <- !app_assoc|].
    split; [discriminate|]. split; reflexivity.
  - destruct Ht as [->|[u ->]]; intros [= <- <-].
    + exists ev, None, [], [FromNip05 nip05Id; SignerSign ev].
      eexists; (split; [reflexivity|split; [discriminate|split;
        [reflexivity|discriminate]]]).
    + exists ev, u, [],
        [FromNip05 nip05Id; SignerSign ev; HttpGetLnurlPay u].
      eexists; (split; [now rewrite <- !app_assoc|split; [discriminate|split;
        [reflexivity|discriminate]]]).
Qed.

Lemma tooSmall_spec lnurlPay amount :
  tooSmall lnurlPay amount = true <-> belowDeclaredMin lnurlPay amount.
Proof.
  unfold tooSmall, belowDeclaredMin.
  destruct (minSendable lnurlPay) as [min|].
  - rewrite andb_true_iff, negb_true_iff, Z.eqb_neq, Z.ltb_lt. split.
    + intros [H1 H2]. now exists min.
    + now intros (m & [= ->] & H1 & H2).
  - split; [discriminate|]. now intros (m & H & _).
Qed.

Lemma tooLarge_spec lnurlPay amount :
  tooLarge lnurlPay amount = true <-> aboveDeclaredMax lnurlPay amount.
Proof.
  unfold tooLarge, aboveDeclaredMax.
  destruct (maxSendable lnurlPay) as [max|].
  - rewrite andb_true_iff, negb_true_iff, Z.eqb_neq, Z.ltb_lt. split.
    + intros [H1 H2]. now exists max.
    + now intros (m & [= ->] & H1 & H2).
  - split; [discriminate|]. now intros (m & H & _).
Qed.

Lemma within_bounds lnurlPay amount :
  tooSmall lnurlPay amount = false /\ tooLarge lnurlPay amount = false
  <-> ~ belowDeclaredMin lnurlPay amount
      /\ ~ aboveDeclaredMax lnurlPay amount.
Proof.
  rewrite <- tooSmall_spec, <- tooLarge_spec, !not_true_iff_false.
  reflexivity.
Qed.

(** When [requestLnurlPay] returns the provider's answer. *)
Lemma requestLnurlPay_Return ev sig nip05Id t lnurlPay :
  fst (requestLnurlPay P (zapMetadata P ev sig nip05Id) t) = Return lnurlPay
  <-> providerAnswer P nip05Id = Some lnurlPay
      /\ allowsNostr lnurlPay = true
      /\ exists c k, nostrPubkey lnurlPay = Some (c :: k).
Proof.
  rewrite requestLnurlPay_run. unfold providerAnswer, zapMetadata.
  cbn [content].
  destruct (JSON_parse_lud16 P (JSON_stringify_lud16 P nip05Id))
    as [lud16|]; cbn [fst].
  2:{ split; [discriminate|intros [H _]; discriminate]. }
  destruct (axios_get_lnurlPay P (toLnurlPayUrl P lud16)) as [body|];
    cbn [fst].
  2:{ split; [discriminate|intros [H _]; discriminate]. }
  split.
  - destruct (allowsNostr body) eqn:Ha; [|discriminate].
    destruct (nostrPubkey body) as [[|c k]|] eqn:Hk; try discriminate.
    intros [= <-]. rewrite Ha, Hk. eauto.
  - intros ([= ->] & Ha & c & k & Hk). now rewrite Ha, Hk.
Qed.

(** When the payment endpoint's URL is built. *)
Lemma getZapEndpointWithParams_Return msat lnurl to sig nip05Id t z :
  fst (getZapEndpointWithParams P (builtZapRequest P self msat lnurl to)
         sig nip05Id t) = Return z
  <-> exists lnurlPay callbackUrl nostr,
        providerAnswer P nip05Id = Some lnurlPay
        /\ allowsNostr lnurlPay = true
        /\ (exists c k, nostrPubkey lnurlPay = Some (c :: k))
        /\ callback lnurlPay = Some callbackUrl /\ callbackUrl <> []
        /\ encodeURI_JSON P (builtZapRequest P self msat lnurl to)
           = Return nostr
        /\ ~ belowDeclaredMin lnurlPay msat
        /\ ~ aboveDeclaredMax lnurlPay msat
        /\ zapEndpointUrl P callbackUrl (numberToString msat) nostr
             (Some lnurl) = Return z.
Proof.
  rewrite getZapEndpointWithParams_built. cbv zeta.
  pose proof (requestLnurlPay_Return (builtZapRequest P self msat lnurl to)
                sig nip05Id t) as Hreq.
  destruct (requestLnurlPay P _ t) as [[lp|e] t1]; cbn [fst] in *.
  - split.
    + intros H. destruct (proj1 (Hreq lp) eq_refl) as (Hans & Ha & Hk).
      destruct (callback lp) as [[|c cb]|] eqn:Hcb; try discriminate.
      destruct (encodeURI_JSON P _) as [nostr|] eqn:Henc; [|discriminate].
      destruct (tooSmall lp msat) eqn:Hs; [discriminate|].
      destruct (tooLarge lp msat) eqn:Hl; [discriminate|].
      cbn [fst] in H. exists lp, (c :: cb), nostr.
      destruct (proj1 (within_bounds lp msat) (conj Hs Hl)) as [Hb Ha'].
      repeat split; try assumption; try discriminate.
    + intros (lp' & cb & nostr & Hans & Ha & Hk & Hcb & Hne & Henc
              & Hb & Ha' & Hurl).
      assert (lp' = lp) as ->.
      { pose proof (proj2 (Hreq lp') (conj Hans (conj Ha Hk))) as E.
        now injection E. }
      rewrite Hcb. destruct cb as [|c cb]; [congruence|]. rewrite Henc.
      destruct (proj2 (within_bounds lp msat) (conj Hb Ha')) as [-> ->].
      now rewrite Hurl.
  - split; [discriminate|].
    intros (lp' & cb & nostr & Hans & Ha & Hk & _).
    pose proof (proj2 (Hreq lp') (conj Hans (conj Ha Hk))). discriminate.
Qed.

Lemma invoiceOf_Return response resp :
  invoiceOf response = Return resp
  <-> exists data,
        response = Some data
        /\ status data = lit "OK"
        /\ pr data = Some (resp_pr resp) /\ resp_pr resp <> []
        /\ resp_verify resp = verify data
        /\ resp_successAction resp = successAction data.
Proof.
  unfold invoiceOf. destruct response as [data|].
  2:{ split; [discriminate|]. intros (d & H & _). discriminate. }
  unfold eqb_string.
  destruct (bool_decide_reflect (status data = lit "OK")) as [Hs|Hs].
  - destruct (pr data) as [[|c k]|] eqn:Hpr.
    + split; [discriminate|]. intros (d & [= <-] & _ & H & Hne & _).
      rewrite Hpr in H. injection H as H. congruence.
    + split.
      * intros [= <-]. exists data. cbn. repeat split; try assumption.
        discriminate.
      * intros (d & [= <-] & _ & H & _ & Hv & Ha). destruct resp; cbn in *.
        rewrite Hpr in H. injection H as <-. now subst.
    + split; [discriminate|]. intros (d & [= <-] & _ & H & _).
      rewrite Hpr in H. discriminate.
  - split; [discriminate|]. intros (d & [= <-] & H & _). contradiction.
Qed.

(** X8. [sendZapRequest] returns an invoice exactly when: the
    recipient resolves and the address encodes; the signer signs the
    request; the provider answers with Nostr support, a public key and
    a non-empty callback URL; the request serialises; the amount is
    not below a declared non-zero minimum nor above a declared
    non-zero maximum; the payment URL is built from the callback, the
    decimal amount in millisatoshis, the serialised request and the
    encoded address; and the payment endpoint answers with status
    [OK] and a non-empty [pr]. The invoice, the verify URL and the
    success action returned are the ones of that answer. *)
Theorem sendZapRequest_returns nip05Id sat t resp :
  fst (sendZapRequest P self nip05Id sat t) = Return resp
  <-> exists to lnurl sig lnurlPay callbackUrl nostr zapEndpoint data,
        NDKUser_fromNip05 P nip05Id = Return (Some to)
        /\ toBech32EncodedLnurl P (toLnurlPayUrl P nip05Id) = Return lnurl
        /\ signer_sign P (builtZapRequest P self (sat * 1000) lnurl to)
           = Return sig
        /\ (providerAnswer P nip05Id = Some lnurlPay
            /\ allowsNostr lnurlPay = true
            /\ (exists c k, nostrPubkey lnurlPay = Some (c :: k))
            /\ callback lnurlPay = Some callbackUrl /\ callbackUrl <> []
            /\ encodeURI_JSON P (builtZapRequest P self (sat * 1000) lnurl to)
               = Return nostr
            /\ ~ belowDeclaredMin lnurlPay (sat * 1000)
            /\ ~ aboveDeclaredMax lnurlPay (sat * 1000)
            /\ zapEndpointUrl P callbackUrl (numberToString (sat * 1000))
                 nostr (Some lnurl) = Return zapEndpoint)
        /\ axios_get_zapEndpoint P zapEndpoint = Return (Some data)
        /\ status data = lit "OK"
        /\ pr data = Some (resp_pr resp) /\ resp_pr resp <> []
        /\ resp_verify resp = verify data
        /\ resp_successAction resp = successAction data.
Proof.
  rewrite sendZapRequest_run. split.
  - destruct (NDKUser_fromNip05 P nip05Id) as [[to|]|]; try discriminate.
    destruct (toBech32EncodedLnurl P (toLnurlPayUrl P nip05Id)) as [lnurl|];
      [|discriminate].
    cbv zeta.
    destruct (signer_sign P _) as [sig|] eqn:Hsig; [|discriminate].
    pose proof (getZapEndpointWithParams_Return (sat * 1000) lnurl to sig
                  nip05Id (t ++ [FromNip05 nip05Id;
                                 SignerSign (builtZapRequest P self
                                               (sat * 1000) lnurl to)]))
      as Hget.
    destruct (getZapEndpointWithParams P _ sig nip05Id _) as [[z|e] t1];
      [|discriminate].
    cbn [fst] in *.
    destruct (proj1 (Hget z) eq_refl) as (lp & cb & nostr & Hrest).
    destruct (axios_get_zapEndpoint P z) as [response|] eqn:Hz;
      [|discriminate].
    intros Hinv. apply invoiceOf_Return in Hinv
      as (data & -> & Hst & Hpr & Hne & Hv & Ha).
    exists to, lnurl, sig, lp, cb, nostr, z, data.
    repeat (split; [first [reflexivity|assumption]|]). assumption.
  - intros (to & lnurl & sig & lp & cb & nostr & z & data & -> & -> & Hsig
            & Hrest & Hz & Hinv).
    cbv zeta. rewrite Hsig.
    assert (Hget : forall t0,
               fst (getZapEndpointWithParams P
                      (builtZapRequest P self (sat * 1000) lnurl to) sig
                      nip05Id t0) = Return z).
    { intros t0. apply getZapEndpointWithParams_Return.
      exists lp, cb, nostr. exact Hrest. }
    specialize (Hget (t ++ [FromNip05 nip05Id;
                            SignerSign (builtZapRequest P self
                                          (sat * 1000) lnurl to)])).
    destruct (getZapEndpointWithParams P _ sig nip05Id _) as [r1 t1].
    cbn [fst] in Hget. subst r1. cbn [fst]. rewrite Hz.
    apply invoiceOf_Return. now exists data.
Qed.

(** X9. Bounds are inclusive and optional: when the flow reaches the
    amount check with an amount that is at least every declared
    minimum and at most every declared maximum (equality included, a
    missing bound imposing nothing), the payment URL is built and
    fetched exactly once. *)
Theorem amount_within_bounds_is_sent
    nip05Id sat t to lnurl sig lnurlPay callbackUrl nostr zapEndpoint :
  NDKUser_fromNip05 P nip05Id = Return (Some to) ->
  toBech32EncodedLnurl P (toLnurlPayUrl P nip05Id) = Return lnurl ->
  signer_sign P (builtZapRequest P self (sat * 1000) lnurl to) = Return sig ->
  providerAnswer P nip05Id = Some lnurlPay ->
  allowsNostr lnurlPay = true ->
  (exists c k, nostrPubkey lnurlPay = Some (c :: k)) ->
  callback lnurlPay = Some callbackUrl -> callbackUrl <> [] ->
  encodeURI_JSON P (builtZapRequest P self (sat * 1000) lnurl to)
  = Return nostr ->
  (forall min, minSendable lnurlPay = Some min -> min <= sat * 1000) ->
  (forall max, maxSendable lnurlPay = Some max -> sat * 1000 <= max) ->
  zapEndpointUrl P callbackUrl (numberToString (sat * 1000)) nostr
    (Some lnurl) = Return zapEndpoint ->
  zapEndpointGets (snd (sendZapRequest P self nip05Id sat t))
  = zapEndpointGets t ++ [HttpGetZapEndpoint zapEndpoint].
Proof.
  intros Hto Hlnurl Hsig Hans Ha Hk Hcb Hne Henc Hmin Hmax Hurl.
  rewrite sendZapRequest_run, Hto, Hlnurl. cbv zeta. rewrite Hsig.
  set (ev := builtZapRequest P self (sat * 1000) lnurl to) in *.
  set (t0 := t ++ [FromNip05 nip05Id; SignerSign ev]).
  assert (Hget : fst (getZapEndpointWithParams P ev sig nip05Id t0)
                 = Return zapEndpoint).
  { apply getZapEndpointWithParams_Return.
    exists lnurlPay, callbackUrl, nostr.
    repeat (split; [assumption|]). split; [|split; [|assumption]].
    - intros (m & Hm & _ & Hlt). specialize (Hmin m Hm). lia.
    - intros (m & Hm & _ & Hlt). specialize (Hmax m Hm). lia. }
  pose proof (getZapEndpointWithParams_trace (sat * 1000) lnurl to sig
                nip05Id t0) as Ht.
  fold ev in Ht. rewrite Hget in Ht. destruct Ht as [u Ht].
  destruct (getZapEndpointWithParams P ev sig nip05Id t0) as [r1 t1].
  cbn [fst snd] in *. subst r1 t1. cbn [snd]. unfold t0.
  rewrite !zapEndpointGets_app.
  change (zapEndpointGets [FromNip05 nip05Id; SignerSign ev])
    with (@nil Event).
  change (zapEndpointGets [HttpGetLnurlPay u]) with (@nil Event).
  now rewrite !app_nil_r.
Qed.

(** X10. When the provider's metadata cannot be had (the address does
    not parse back, the request fails, or the provider does not
    support Nostr), [sendZapRequest] throws
    [NostrRequestLnurlPayError] with the underlying error as cause and
    with a metadata event of kind 0 that carries the request's tags,
    the request's id (the second element of its [e] tag) as [id], the
    signature as [sig] and the address as content; the payment
    endpoint is not contacted. *)
Theorem lnurlPay_failure_carries_request
    nip05Id sat t to lnurl signature cause :
  NDKUser_fromNip05 P nip05Id = Return (Some to) ->
  toBech32EncodedLnurl P (toLnurlPayUrl P nip05Id) = Return lnurl ->
  signer_sign P (builtZapRequest P self (sat * 1000) lnurl to) = Return signature ->
  fst (requestLnurlPay P
         (zapMetadata P (builtZapRequest P self (sat * 1000) lnurl to)
            signature nip05Id) []) = Throw cause ->
  exists metadata,
    fst (sendZapRequest P self nip05Id sat t)
    = Throw (NostrRequestLnurlPayError metadata cause)
    /\ kind metadata = 0
    /\ tags metadata = tags (builtZapRequest P self (sat * 1000) lnurl to)
    /\ id metadata
       = Some (generateEventId P
                 (unsignedZapRequest P self (sat * 1000) lnurl to))
    /\ sig metadata = Some signature
    /\ content metadata = JSON_stringify_lud16 P nip05Id
    /\ zapEndpointGets (snd (sendZapRequest P self nip05Id sat t))
       = zapEndpointGets t.
Proof.
  intros Hto Hlnurl Hsig Hreq.
  exists (zapMetadata P (builtZapRequest P self (sat * 1000) lnurl to)
            signature nip05Id).
  rewrite sendZapRequest_run, Hto, Hlnurl. cbv zeta. rewrite Hsig.
  rewrite getZapEndpointWithParams_built. cbv zeta.
  set (ev := builtZapRequest P self (sat * 1000) lnurl to) in *.
  set (t0 := t ++ [FromNip05 nip05Id; SignerSign ev]).
  destruct (requestLnurlPay_trace (zapMetadata P ev signature nip05Id) t0 [])
    as [Hfst Hsnd].
  rewrite Hreq in Hfst.
  destruct (requestLnurlPay P (zapMetadata P ev signature nip05Id) t0)
    as [r1 t1].
  cbn [fst snd] in *. subst r1. cbn [fst snd].
  repeat (split; [reflexivity|]).
  destruct Hsnd as [->|[u ->]]; unfold t0;
    rewrite !zapEndpointGets_app;
    change (zapEndpointGets [FromNip05 nip05Id; SignerSign ev])
      with (@nil Event);
    try change (zapEndpointGets [HttpGetLnurlPay u]) with (@nil Event);
    now rewrite !app_nil_r.
Qed.

End ZapFurther.

(** ** The matcher and the language of a pattern *)

Section MatcherFurther.

Lemma dropLit_spec p s rest : dropLit p s = Some rest <-> s = p ++ rest.
Proof.
  revert s. induction p as [|c p IH]; intros s; simpl.
  - split; [now intros [= ->]|now intros ->].
  - destruct s as [|d s]; [split; discriminate|].
    destruct (N.eqb_spec c d) as [->|Hne].
    + rewrite IH. split; [now intros ->|now intros [= ->]].
    + split; [discriminate|]. intros [= H _]. congruence.
Qed.

Lemma plusK_sound {R} f s (k : jsstring -> option R) x :
  plusK f s k = Some x ->
  exists m rest,
    s = m ++ rest /\ Matches (PlusClass f) m /\ k rest = Some x.
Proof.
  revert x. induction s as [|c s IH]; intros x; simpl; [discriminate|].
  destruct (f c) eqn:Hc; [|discriminate].
  destruct (plusK f s k) as [y|] eqn:Hp.
  - intros [= <-]. destruct (IH y eq_refl) as (m & rest & -> & Hm & Hk).
    exists (c :: m), rest. repeat split; [|assumption].
    now apply MPlusMore.
  - intros Hk. exists [c], s. repeat split; [|assumption].
    now apply MPlusOne.
Qed.

(** What the matcher finds is in the language. *)
Lemma matchK_sound {R} r :
  forall s (k : jsstring -> option R) x,
    matchK r s k = Some x ->
    exists m rest, s = m ++ rest /\ Matches r m /\ k rest = Some x.
Proof.
  induction r as [p|f|f|r1 IH1 r2 IH2|r1 IH1 r2 IH2|r1 IH1];
    intros s k x; simpl.
  - destruct (dropLit p s) as [s'|] eqn:Hd; [|discriminate].
    apply dropLit_spec in Hd. subst s. intros Hk.
    exists p, s'. repeat split; [constructor|assumption].
  - destruct s as [|c s]; [discriminate|].
    destruct (f c) eqn:Hc; [|discriminate]. intros Hk.
    exists [c], s. repeat split; [now constructor|assumption].
  - apply plusK_sound.
  - intros H. apply IH1 in H as (m1 & rest1 & -> & Hm1 & H).
    apply IH2 in H as (m2 & rest & -> & Hm2 & Hk).
    exists (m1 ++ m2), rest. rewrite <- app_assoc.
    repeat split; [now constructor|assumption].
  - destruct (matchK r1 s k) as [y|] eqn:H1.
    + intros [= <-]. apply IH1 in H1 as (m & rest & -> & Hm & Hk).
      exists m, rest. repeat split; [now apply MAltL|assumption].
    + intros H. apply IH2 in H as (m & rest & -> & Hm & Hk).
      exists m, rest. repeat split; [now apply MAltR|assumption].
  - destruct (matchK r1 s k) as [y|] eqn:H1.
    + intros [= <-]. apply IH1 in H1 as (m & rest & -> & Hm & Hk).
      exists m, rest. repeat split; [now apply MOptSome|assumption].
    + intros Hk. exists [], s. repeat split; [apply MOptNone|assumption].
Qed.

(** Whatever is in the language, the matcher finds some match. *)
Lemma matchK_complete r m :
  Matches r m ->
  forall {R} rest (k : jsstring -> option R),
    k rest <> None -> matchK r (m ++ rest) k <> None.
Proof.
  induction 1 as [p|f c Hc|f c Hc|f c m Hc Hm IH|r1 r2 m1 m2 H1 IH1 H2 IH2
                 |r1 r2 m H1 IH1|r1 r2 m H2 IH2|r1 m H1 IH1|r1];
    intros R rest k Hk; simpl.
  - now rewrite (proj2 (dropLit_spec p (p ++ rest) rest) eq_refl).
  - now rewrite Hc.
  - rewrite Hc. now destruct (plusK f rest k).
  - rewrite Hc. specialize (IH R rest k Hk). simpl in IH.
    now destruct (plusK f (m ++ rest) k).
  - rewrite <- app_assoc. apply IH1. now apply IH2.
  - specialize (IH1 R rest k Hk). now destruct (matchK r1 (m ++ rest) k).
  - specialize (IH2 R rest k Hk).
    destruct (matchK r1 (m ++ rest) k); [discriminate|assumption].
  - specialize (IH1 R rest k Hk). now destruct (matchK r1 (m ++ rest) k).
  - destruct (matchK r1 rest k); [discriminate|assumption].
Qed.

Lemma matchHere_Matches r s m :
  matchHere r s = Some m -> Matches r m /\ exists rest, s = m ++ rest.
Proof.
  unfold matchHere.
  destruct (matchK r s (fun rest => Some rest)) as [rest|] eqn:H;
    [|discriminate].
  apply matchK_sound in H as (m' & rest' & -> & Hm & [= ->]).
  intros [= <-]. rewrite length_app.
  replace (length m' + length rest - length rest)%nat with (length m')
    by lia.
  rewrite take_app_length. split; [assumption|eauto].
Qed.

(** [test] finds a pattern exactly when the string contains a string
    of its language. *)
Lemma test_contains r s :
  test r s = true <-> exists m, Matches r m /\ contains s m.
Proof.
  split.
  - induction s as [|c s IH]; simpl.
    + destruct (matchHere r []) as [m|] eqn:H; [|discriminate].
      intros _. apply matchHere_Matches in H as [Hm [rest Hs]].
      exists m. split; [assumption|]. now exists [], rest.
    + destruct (matchHere r (c :: s)) as [m|] eqn:H.
      * intros _. apply matchHere_Matches in H as [Hm [rest Hs]].
        exists m. split; [assumption|]. now exists [], rest.
      * intros Ht. destruct (IH Ht) as (m & Hm & before & after & ->).
        exists m. split; [assumption|]. now exists (c :: before), after.
  - intros (m & Hm & before & after & ->).
    assert (Hhere : matchHere r (m ++ after) <> None).
    { unfold matchHere.
      pose proof (matchK_complete r m Hm after (fun rest => Some rest)) as H.
      destruct (matchK r (m ++ after) _); [discriminate|].
      exfalso. apply H; [discriminate|reflexivity]. }
    induction before as [|c before IH]; simpl.
    + destruct (m ++ after) as [|c s] eqn:E; simpl;
        destruct (matchHere r _); congruence.
    + destruct (matchHere r (c :: before ++ m ++ after)); [reflexivity|].
      exact IH.
Qed.

End MatcherFurther.

(** ** The two patterns of the note service *)

Section PatternsFurther.

Lemma Matches_Seq r1 r2 m :
  Matches (Seq r1 r2) m ->
  exists m1 m2, m = m1 ++ m2 /\ Matches r1 m1 /\ Matches r2 m2.
Proof. inversion 1; subst. eauto. Qed.

Lemma Matches_Lit p m : Matches (Lit p) m -> m = p.
Proof. now inversion 1. Qed.

Lemma Matches_Opt r m : Matches (Opt r) m -> m = [] \/ Matches r m.
Proof. inversion 1; subst; auto. Qed.

Lemma Matches_Alt r1 r2 m :
  Matches (Alt r1 r2) m -> Matches r1 m \/ Matches r2 m.
Proof. inversion 1; subst; auto. Qed.

Lemma Matches_PlusClass f m :
  Matches (PlusClass f) m ->
  exists c m', m = c :: m' /\ f c = true /\ Forall (fun c => f c = true) m'.
Proof.
  remember (PlusClass f) as r eqn:Hr.
  induction 1 as [| |g c Hc|g c m Hc Hm IH| | | | |]; try discriminate;
    injection Hr as ->.
  - exists c, []. repeat split; [assumption|constructor].
  - destruct (IH eq_refl) as (c' & m' & -> & Hc' & Hm').
    exists c, (c' :: m'). repeat split; [assumption|now constructor].
Qed.

(** X11. [isYouTubeUrl] holds exactly for the strings that contain
    [youtube.com/] or [youtu.be/] followed by a letter, a digit, an
    underscore or a hyphen. The scheme, the [www.] prefix and the
    [watch?v=] part of the pattern decide nothing, and the host may
    occur anywhere in the string. *)
Theorem isYouTubeUrl_contains (url : jsstring) :
  isYouTubeUrl url = true
  <-> exists host c,
        In host youTubeHosts
        /\ isWordOrDash c = true
        /\ contains url (host ++ lit "/" ++ [c]).
Proof.
  unfold isYouTubeUrl. rewrite test_contains. split.
  - intros (m & Hm & before & after & ->). unfold youTubePattern in Hm.
    apply Matches_Seq in Hm as (a & m1 & -> & _ & Hm).
    apply Matches_Seq in Hm as (w & m2 & -> & _ & Hm).
    apply Matches_Seq in Hm as (h & m3 & -> & Hh & Hm).
    apply Matches_Seq in Hm as (sl & m4 & -> & Hsl & Hm).
    apply Matches_Seq in Hm as (v & run & -> & Hv & Hrun).
    apply Matches_Lit in Hsl. subst sl.
    apply Matches_PlusClass in Hrun as (c & run' & -> & Hc & _).
    assert (Hhost : In h youTubeHosts).
    { apply Matches_Alt in Hh as [Hh|Hh]; apply Matches_Lit in Hh; subst h;
        [now left|right; now left]. }
    apply Matches_Opt in Hv as [->|Hv].
    + exists h, c. repeat split; try assumption.
      exists (before ++ a ++ w), (run' ++ after).
      rewrite <- !app_assoc. reflexivity.
    + apply Matches_Lit in Hv. subst v.
      exists h, 119%N. repeat split; try assumption.
      exists (before ++ a ++ w), (lit "atch?v=" ++ c :: run' ++ after).
      rewrite <- !app_assoc. reflexivity.
  - intros (host & c & Hhost & Hc & Hin).
    exists (host ++ lit "/" ++ [c]). split; [|assumption].
    unfold youTubePattern.
    apply (MSeq _ _ [] _ (MOptNone _)).
    apply (MSeq _ _ [] _ (MOptNone _)).
    apply MSeq.
    + destruct Hhost as [<-|[<-|[]]]; [apply MAltL|apply MAltR];
        constructor.
    + apply MSeq; [constructor|].
      apply (MSeq _ _ [] _ (MOptNone _)). now apply MPlusOne.
Qed.

(** A greedy class run, with nothing after the pattern, takes every
    unit of the class. *)
Lemma plusK_greedy f s rest :
  plusK f s (fun r => Some r) = Some rest ->
  exists m,
    s = m ++ rest /\ m <> []
    /\ Forall (fun c => f c = true) m
    /\ (rest = [] \/ exists c a, rest = c :: a /\ f c = false).
Proof.
  revert rest. induction s as [|c s IH]; intros rest; simpl;
    [discriminate|].
  destruct (f c) eqn:Hc; [|discriminate].
  destruct (plusK f s (fun r => Some r)) as [y|] eqn:Hp.
  - intros [= <-]. destruct (IH y eq_refl) as (m & -> & _ & Hm & Hend).
    exists (c :: m). repeat split; [discriminate|now constructor|assumption].
  - intros [= <-]. exists [c].
    repeat split; [discriminate|now repeat constructor|].
    destruct s as [|d s]; [now left|right].
    exists d, s. split; [reflexivity|].
    simpl in Hp. destruct (f d); [|reflexivity].
    now destruct (plusK f s (fun r => Some r)).
Qed.

Lemma schemes_not_space scheme :
  In scheme urlSchemes -> Forall (fun c => isNotSpace c = true) scheme.
Proof.
  intros [<-|[<-|[]]]; repeat constructor.
Qed.

(** A match of the URL pattern at the start of a string. *)
Lemma matchHere_urlPattern s m :
  matchHere urlPattern s = Some m ->
  exists scheme body after,
    In scheme urlSchemes
    /\ s = m ++ after /\ m = scheme ++ body
    /\ body <> []
    /\ Forall (fun c => isNotSpace c = true) body
    /\ (after = [] \/ exists c a, after = c :: a /\ isNotSpace c = false).
Proof.
  unfold matchHere.
  destruct (matchK urlPattern s (fun rest => Some rest)) as [rest|] eqn:H;
    [|discriminate].
  intros [= <-].
  assert (Hshape : exists scheme body,
             In scheme urlSchemes /\ s = (scheme ++ body) ++ rest
             /\ body <> [] /\ Forall (fun c => isNotSpace c = true) body
             /\ (rest = [] \/ exists c a, rest = c :: a
                                          /\ isNotSpace c = false)).
  { unfold urlPattern in H. cbn [matchK] in H.
    destruct (dropLit (lit "http") s) as [s1|] eqn:H1; [|discriminate].
    apply dropLit_spec in H1. subst s.
    destruct (dropLit (lit "s") s1) as [s2|] eqn:H2.
    - apply dropLit_spec in H2. subst s1.
      destruct (dropLit (lit "://") s2) as [s3|] eqn:H3.
      + apply dropLit_spec in H3. subst s2.
        destruct (plusK isNotSpace s3 (fun r => Some r)) as [y|] eqn:Hp.
        * injection H as ->.
          destruct (plusK_greedy _ _ _ Hp) as (body & -> & Hne & Hb & Hend).
          exists (lit "https://"), body.
          split; [right; now left|].
          split; [rewrite <- !app_assoc; reflexivity|].
          repeat split; assumption.
        * destruct (dropLit (lit "://") (lit "s" ++ lit "://" ++ s3))
            eqn:H4; [|discriminate].
          apply dropLit_spec in H4. discriminate.
      + destruct (dropLit (lit "://") (lit "s" ++ s2)) eqn:H4;
          [|discriminate].
        apply dropLit_spec in H4. discriminate.
    - destruct (dropLit (lit "://") s1) as [s3|] eqn:H3; [|discriminate].
      apply dropLit_spec in H3. subst s1.
      destruct (plusK_greedy _ _ _ H) as (body & -> & Hne & Hb & Hend).
      exists (lit "http://"), body.
      split; [now left|].
      split; [rewrite <- !app_assoc; reflexivity|].
      repeat split; assumption. }
  destruct Hshape as (scheme & body & Hs & -> & Hne & Hb & Hend).
  exists scheme, body, rest. rewrite length_app.
  replace (length (scheme ++ body) + length rest - length rest)%nat
    with (length (scheme ++ body)) by lia.
  rewrite take_app_length. repeat split; assumption.
Qed.

Lemma matchAllFrom_In r skip s m :
  In m (matchAllFrom r skip s) ->
  exists before after,
    s = before ++ m ++ after /\ matchHere r (m ++ after) = Some m.
Proof.
  revert skip. induction s as [|c s IH]; intros skip; simpl; [intros []|].
  destruct skip as [|n].
  - destruct (matchHere r (c :: s)) as [m0|] eqn:H.
    + intros [->|Hin].
      * pose proof (matchHere_prefix _ _ _ H) as Hs.
        exists [], (drop (length m) (c :: s)). cbn [app].
        rewrite <- Hs. split; [reflexivity|assumption].
      * destruct (IH _ Hin) as (before & after & -> & Hm).
        now exists (c :: before), after.
    + intros Hin. destruct (IH _ Hin) as (before & after & -> & Hm).
      now exists (c :: before), after.
  - intros Hin. destruct (IH _ Hin) as (before & after & -> & Hm).
    now exists (c :: before), after.
Qed.

(** X12. Every URL the service scans out of a text begins with
    [http://] or [https://], has at least one more unit, holds no
    white space, and runs up to the next white space or the end of the
    text, so punctuation that follows a link without a space is part
    of the URL handed to the classifier. *)
Theorem scanned_urls_shape (text url : jsstring) :
  In url (matchAll urlPattern text) ->
  exists scheme body before after,
    In scheme urlSchemes
    /\ url = scheme ++ body /\ body <> []
    /\ Forall (fun c => isWhiteSpace c = false) url
    /\ text = before ++ url ++ after
    /\ (after = [] \/ exists c a, after = c :: a /\ isWhiteSpace c = true).
Proof.
  intros Hin. apply matchAllFrom_In in Hin as (before & after & -> & Hm).
  apply matchHere_urlPattern in Hm
    as (scheme & body & after' & Hs & Heq & -> & Hne & Hb & Hend).
  apply app_inv_head in Heq. subst after'.
  exists scheme, body, before, after. repeat split; try assumption.
  - apply Forall_app. split.
    + pose proof (schemes_not_space _ Hs) as Hsch.
      rewrite Forall_forall in *. intros c Hc.
      specialize (Hsch c Hc). unfold isNotSpace in Hsch.
      now apply negb_true_iff in Hsch.
    + rewrite Forall_forall in *. intros c Hc.
      specialize (Hb c Hc). unfold isNotSpace in Hb.
      now apply negb_true_iff in Hb.
  - destruct Hend as [->|(c & a & -> & Hc)]; [now left|right].
    exists c, a. split; [reflexivity|]. unfold isNotSpace in Hc.
    now apply negb_false_iff in Hc.
Qed.

(** X13. A note whose text does not contain [http] has no media, and
    assembling its media cannot fail, whatever the URL parser does. *)
Theorem text_without_links_has_no_media
    (C : Collaborators) (event : NDKEvent) (t : Trace) :
  ~ contains (ev_content event) (lit "http") ->
  extractMedia C event t = (Return [], t).
Proof.
  intros Hno. unfold extractMedia.
  destruct (matchAll urlPattern (ev_content event)) as [|url l] eqn:E;
    [reflexivity|].
  exfalso. apply Hno.
  assert (Hin : In url (matchAll urlPattern (ev_content event)))
    by (rewrite E; now left).
  apply matchAllFrom_In in Hin as (before & after & -> & Hm).
  apply matchHere_urlPattern in Hm
    as (scheme & body & after' & Hs & _ & -> & _).
  destruct Hs as [<-|[<-|[]]].
  - exists before, (lit "://" ++ body ++ after).
    rewrite <- !app_assoc. reflexivity.
  - exists before, (lit "s://" ++ body ++ after).
    rewrite <- !app_assoc. reflexivity.
Qed.

End PatternsFurther.

(** ** Counting reactions *)

Section ReactionsFurther.
Variable C : Collaborators.

Lemma length_filter_cons {X} (p : X -> bool) x l :
  length (filter p (x :: l))
  = ((if p x then 1 else 0) + length (filter p l))%nat.
Proof.
  rewrite filter_cons. destruct (p x).
  - rewrite decide_True by exact I. reflexivity.
  - rewrite decide_False by exact (fun x => x). reflexivity.
Qed.

(** One turn of the loop, by the kind of the reaction. *)
Lemma countReaction_step likesCount custom reactionEvent :
  countReaction C (likesCount, custom) reactionEvent
  = (likesCount + (if isLike reactionEvent then 1 else 0),
     if isCustom C reactionEvent
     then <[trim (ev_content reactionEvent)
            := default 0 (custom !! trim (ev_content reactionEvent)) + 1]>
            custom
     else custom).
Proof.
  unfold countReaction, isCustom, isLike.
  set (content := trim (ev_content reactionEvent)).
  destruct (eqb_string content (lit "+") || eqb_string content []); cbn.
  - reflexivity.
  - rewrite Z.add_0_r.
    replace ((length content =? 1)%nat && matchEmoji C content)
      with (match content with [c] => Emoji C c | _ => false end).
    + now destruct (_ || _).
    + destruct content as [|c [|c' rest]]; cbn; try reflexivity.
      unfold matchEmoji. cbn. now rewrite orb_false_r.
Qed.

(** The counters after a list of reactions, from any counters. *)
Lemma countReaction_fold events :
  forall likes0 custom0,
    fst (fold_left (countReaction C) events (likes0, custom0))
    = likes0 + Z.of_nat (length (filter isLike events))
    /\ forall key,
        snd (fold_left (countReaction C) events (likes0, custom0)) !! key
        = match customCount C key events with
          | O => custom0 !! key
          | S n => Some (default 0 (custom0 !! key) + Z.of_nat (S n))
          end.
Proof.
  induction events as [|ev events IH]; intros likes0 custom0.
  - cbn. split; [lia|reflexivity].
  - cbn [fold_left]. rewrite countReaction_step.
    destruct (IH (likes0 + (if isLike ev then 1 else 0))
                 (if isCustom C ev
                  then <[trim (ev_content ev)
                         := default 0 (custom0 !! trim (ev_content ev)) + 1]>
                         custom0
                  else custom0)) as [Hl Hc].
    split.
    + rewrite Hl, length_filter_cons. destruct (isLike ev); lia.
    + intros key. rewrite Hc. unfold customCount.
      rewrite length_filter_cons. fold (customCount C key events).
      unfold eqb_string.
      destruct (isCustom C ev); cbn [andb].
      * destruct (bool_decide_reflect (trim (ev_content ev) = key))
          as [->|Hne].
        -- rewrite lookup_insert_eq. cbn [default].
           destruct (customCount C key events); cbn [Nat.add];
             unfold Datatypes.id; f_equal; lia.
        -- rewrite lookup_insert_ne by assumption. reflexivity.
      * reflexivity.
Qed.

(** X14. What [createNoteReactionsFromEvent] returns: the number of
    likes is the number of fetched reactions that are [+] or empty
    once trimmed; for every text, the entry of [customReactions] is the
    number of fetched reactions with that trimmed text that are
    wrapped in colons or are one code unit with the Emoji property,
    and is absent when there is none; the repost count is the number
    of fetched reposts; the zap amount is the relays' sum. *)
Theorem reactions_are_tallies event t r t' :
  createNoteReactionsFromEvent C event t = (Return r, t') ->
  exists reactionEvents repostEvents,
    client_fetchEvents C [Reaction] [ev_id event] = Return reactionEvents
    /\ client_fetchEvents C [Repost] [ev_id event] = Return repostEvents
    /\ likesCount r = Z.of_nat (length (filter isLike reactionEvents))
    /\ (forall key,
          customReactions r !! key
          = tally (customCount C key reactionEvents))
    /\ repostsCount r = Z.of_nat (length repostEvents)
    /\ client_calculateZapsAmount C (ev_id event) = Return (zapsAmount r).
Proof.
  unfold createNoteReactionsFromEvent. intros H.
  bind_case H reactionEvents t1 E1; [|discriminate].
  apply call_trace in E1 as [E1 _].
  destruct (countReaction_fold reactionEvents 0 ∅) as [Hl Hc].
  destruct (fold_left (countReaction C) reactionEvents (0, ∅))
    as [likes custom].
  bind_case H repostEvents t2 E2; [|discriminate].
  apply call_trace in E2 as [E2 _].
  bind_case H zaps t3 E3; [|discriminate].
  apply call_trace in E3 as [E3 _].
  injection H as <- <-. exists reactionEvents, repostEvents.
  cbn in *. repeat split; try (now symmetry).
  intros key. rewrite Hc, lookup_empty. unfold tally.
  destruct (customCount C key reactionEvents); [reflexivity|].
  cbn [default]. f_equal.
Qed.

(** X15. The counters do not depend on the order in which the relays
    return the reactions. *)
Theorem reactions_order_irrelevant (events1 events2 : list NDKEvent) :
  Permutation events1 events2 ->
  fold_left (countReaction C) events1 (0, ∅)
  = fold_left (countReaction C) events2 (0, ∅).
Proof.
  intros Hp.
  destruct (countReaction_fold events1 0 ∅) as [Hl1 Hc1].
  destruct (countReaction_fold events2 0 ∅) as [Hl2 Hc2].
  destruct (fold_left (countReaction C) events1 (0, ∅)) as [l1 c1].
  destruct (fold_left (countReaction C) events2 (0, ∅)) as [l2 c2].
  cbn [fst snd] in *. f_equal.
  - rewrite Hl1, Hl2. now rewrite Hp.
  - apply map_eq. intros key. rewrite Hc1, Hc2. unfold customCount.
    now rewrite Hp.
Qed.

End ReactionsFurther.

(** ** What an assembled note holds, and what assembling it costs *)

Section AssemblyFurther.
Variable C : Collaborators.

Lemma body_fields self event depth t n t' :
  createNoteFromEvent_body C self event depth t = (Return n, t') ->
  note_id n = ev_id event
  /\ text n = ev_content event
  /\ json n = ev_raw event
  /\ replyChildNotes n = []
  /\ npub (author n) = user_npub (ev_author event)
  /\ user_key (author n) = user_pubkey (ev_author event)
  /\ repo_fetchProfile C (user_npub (ev_author event))
     = Return (profile (author n))
  /\ (exists t0, extractMedia C event t0 = (Return (media n), t0))
  /\ note_created_at n = default 0 (ev_created_at event) * 1000.
Proof.
  unfold createNoteFromEvent_body. intros H.
  bind_case H x1 t1 E1; [|discriminate].
  apply call_trace in E1 as [E1 _].
  bind_case H x2 t2 E2; [|discriminate].
  pose proof (extractMedia_trace _ _ _ _ _ E2) as ->.
  bind_case H x3 t3 E3; [|discriminate].
  bind_case H x4 t4 E4; [|discriminate].
  bind_case H x5 t5 E5; [|discriminate].
  injection H as <- <-. cbn.
  repeat split; try (now symmetry); [eauto|].
  destruct (ev_created_at event) as [ts|]; cbn; [|reflexivity].
  destruct (Z.eqb_spec ts 0) as [->|]; reflexivity.
Qed.

(** X16. Every note [createNoteFromEvent] returns, at any depth,
    carries the event's id, text and raw JSON, the event author's npub
    and public key with the profile the repository returned, the
    media [extractMedia] found, an empty list of reply children, and
    as creation time the event's timestamp in milliseconds, the epoch
    when the event has none. The same holds of its parent for the
    event the relays returned as the reply target. *)
Theorem assembled_note_fields event depth t n t' :
  createNoteFromEvent C event depth t = (Return n, t') ->
  (note_id n = ev_id event
   /\ text n = ev_content event
   /\ json n = ev_raw event
   /\ replyChildNotes n = []
   /\ npub (author n) = user_npub (ev_author event)
   /\ user_key (author n) = user_pubkey (ev_author event)
   /\ repo_fetchProfile C (user_npub (ev_author event))
      = Return (profile (author n))
   /\ (exists t0, extractMedia C event t0 = (Return (media n), t0))
   /\ note_created_at n = default 0 (ev_created_at event) * 1000)
  /\ forall p,
      replyParentNote n = Some p ->
      exists eventId e,
        replyEventIdOf event = Some eventId
        /\ client_fetchEvent C eventId = Return (Some e)
        /\ note_id p = ev_id e
        /\ text p = ev_content e
        /\ replyChildNotes p = []
        /\ note_created_at p = default 0 (ev_created_at e) * 1000.
Proof.
  intros H. split; [exact (body_fields _ _ _ _ _ _ H)|].
  intros p Hp. unfold createNoteFromEvent in H.
  destruct depth as [|d].
  - apply body_root in H.
    2:{ intros e s r s' He. now apply body_below_root in He. }
    destruct (replyEventIdOf event) as [[|c o]|];
      try (destruct H as [_ H]; congruence).
    destruct H as [_ H].
    destruct (client_fetchEvent C (c :: o)) as [[e|]|] eqn:Hf;
      try congruence.
    destruct H as (p' & t1 & t2 & Hrun & Hn & _).
    assert (p' = p) as -> by congruence.
    apply body_fields in Hrun
      as (H1 & H2 & _ & H4 & _ & _ & _ & _ & H9).
    exists (c :: o), e. repeat split; assumption.
  - apply body_below_root in H as [_ H]; [|discriminate].
    rewrite (H n eq_refl) in Hp. discriminate.
Qed.

(** X17. The author of an assembled note is verified (in the sense of
    [User.verified]) exactly when the profile repository returned a
    profile for the event author's npub whose [nostrAddress] is a
    non-empty string. *)
Theorem assembled_author_verified event depth t n t' :
  createNoteFromEvent C event depth t = (Return n, t') ->
  verified (author n) = true
  <-> exists p c k,
        repo_fetchProfile C (user_npub (ev_author event)) = Return (Some p)
        /\ nostrAddress p = Some (c :: k).
Proof.
  intros H. apply body_fields in H as (_ & _ & _ & _ & _ & _ & Hp & _).
  unfold verified. rewrite Hp. split.
  - destruct (profile (author n)) as [p|]; [|discriminate].
    destruct (nostrAddress p) as [[|c k]|] eqn:Ha; try discriminate.
    intros _. now exists p, c, k.
  - intros (p & c & k & [= Hq] & Ha). rewrite Hq, Ha. reflexivity.
Qed.

(** *** Calls per note *)

Section Accounting.
Variable p : Event -> bool.

Lemma count_app t d : count p (t ++ d) = (count p t + count p d)%nat.
Proof. unfold count. now rewrite filter_app, length_app. Qed.

Lemma count_one ev : count p [ev] = weight p ev.
Proof.
  unfold count, weight. rewrite filter_cons, filter_nil.
  destruct (p ev).
  - now rewrite decide_True by exact I.
  - now rewrite decide_False by exact (fun x => x).
Qed.

Lemma adds_ret {A} (v : A) : adds p (ret v) 0.
Proof. intros t r t' [= _ <-]. lia. Qed.

Lemma adds_call {A} ev (c : Completion A) : adds p (call ev c) (weight p ev).
Proof.
  intros t r t' H. apply call_trace in H as [_ ->].
  rewrite count_app, count_one. lia.
Qed.

Lemma adds_bind {A B} (c : M Trace A) (k : A -> M Trace B) n m :
  adds p c n -> (forall v, adds p (k v) m) -> adds p (bind c k) (n + m).
Proof.
  intros Hc Hk t r t' H. unfold bind in H.
  destruct (c t) as [[v|e] t1] eqn:E; apply Hc in E.
  - apply Hk in H. lia.
  - injection H as _ <-. lia.
Qed.

Lemma adds_more {A} (c : M Trace A) n m :
  (n <= m)%nat -> adds p c n -> adds p c m.
Proof. intros Hle Hc t r t' H. apply Hc in H. lia. Qed.

Lemma adds_extractMedia event : adds p (extractMedia C event) 0.
Proof.
  intros t r t' H. apply extractMedia_trace in H. subst. lia.
Qed.

(** Bounds on the weight of each kind of call. *)
Variables wProfile wFetch wEvents wZaps : nat.
Hypothesis HProfile : forall n, (weight p (RepoFetchProfile n) <= wProfile)%nat.
Hypothesis HFetch : forall e, (weight p (ClientFetchEvent e) <= wFetch)%nat.
Hypothesis HEvents :
  forall k e, (weight p (ClientFetchEvents k e) <= wEvents)%nat.
Hypothesis HZaps :
  forall e, (weight p (ClientCalculateZapsAmount e) <= wZaps)%nat.

Lemma adds_reactions event :
  adds p (createNoteReactionsFromEvent C event) (2 * wEvents + wZaps).
Proof.
  unfold createNoteReactionsFromEvent.
  apply (adds_more _ (wEvents + (wEvents + (wZaps + 0)))); [lia|].
  apply adds_bind.
  { eapply adds_more; [apply HEvents|apply adds_call]. }
  intros reactionEvents.
  destruct (fold_left (countReaction C) reactionEvents (0, ∅)) as [l c].
  apply adds_bind.
  { eapply adds_more; [apply HEvents|apply adds_call]. }
  intros repostEvents. apply adds_bind.
  { eapply adds_more; [apply HZaps|apply adds_call]. }
  intros z. apply adds_ret.
Qed.

Lemma adds_body self event depth k :
  (forall e, adds p (self e 1%nat) k) ->
  adds p (createNoteFromEvent_body C self event depth)
       (wProfile + wFetch + k + (2 * wEvents + wZaps)).
Proof.
  intros Hself. unfold createNoteFromEvent_body.
  apply (adds_more _ (wProfile
                      + (0 + (wFetch + (k + ((2 * wEvents + wZaps) + 0))))));
    [lia|].
  apply adds_bind.
  { eapply adds_more; [apply HProfile|apply adds_call]. }
  intros x1. apply adds_bind; [apply adds_extractMedia|].
  intros x2. apply adds_bind.
  { destruct (replyEventIdOf event) as [[|c o]|];
      try (eapply adds_more; [|apply adds_ret]; lia).
    destruct depth.
    - eapply adds_more; [apply HFetch|apply adds_call].
    - eapply adds_more; [|apply adds_ret]; lia. }
  intros x3. apply adds_bind.
  { destruct x3 as [e|].
    - apply (adds_more _ (k + 0)); [lia|].
      apply adds_bind; [apply Hself|]. intros v. apply adds_ret.
    - eapply adds_more; [|apply adds_ret]; lia. }
  intros x4. apply adds_bind; [apply adds_reactions|].
  intros x5. apply adds_ret.
Qed.

Lemma adds_body_below_root self event depth :
  depth <> 0%nat ->
  adds p (createNoteFromEvent_body C self event depth)
       (wProfile + (2 * wEvents + wZaps)).
Proof.
  intros Hd t r t' H.
  rewrite (body_below_root_self C self (fun _ _ => ret (mkNote [] (mkUser [] [] None) [] [] [] None [] (mkNoteReactions 0 0 0 ∅) 0)) event depth t Hd) in H.
  destruct depth as [|d]; [congruence|].
  revert t r t' H. change (adds p (createNoteFromEvent_body C (fun _ _ => ret (mkNote [] (mkUser [] [] None) [] [] [] None [] (mkNoteReactions 0 0 0 ∅) 0)) event (S d)) (wProfile + (2 * wEvents + wZaps))).
  unfold createNoteFromEvent_body.
  apply (adds_more _ (wProfile + (0 + (0 + (0 + ((2 * wEvents + wZaps) + 0))))));
    [lia|].
  apply adds_bind.
  { eapply adds_more; [apply HProfile|apply adds_call]. }
  intros x1. apply adds_bind; [apply adds_extractMedia|].
  intros x2. apply adds_bind.
  { destruct (replyEventIdOf event) as [[|c o]|]; apply adds_ret. }
  intros x3. apply adds_bind.
  { destruct x3 as [e|].
    - apply (adds_more _ (0 + 0)); [lia|].
      apply adds_bind; [apply adds_ret|]. intros v. apply adds_ret.
    - apply adds_ret. }
  intros x4. apply adds_bind; [apply adds_reactions|].
  intros x5. apply adds_ret.
Qed.

Lemma adds_createNoteFromEvent event depth :
  adds p (createNoteFromEvent C event depth)
       (2 * wProfile + wFetch + 4 * wEvents + 2 * wZaps).
Proof.
  unfold createNoteFromEvent.
  eapply adds_more; [|apply adds_body].
  2:{ intros e. apply adds_body_below_root. discriminate. }
  lia.
Qed.

End Accounting.

(** X18. Assembling one note, at any depth and whatever fails on the
    way, asks the profile repository at most twice, fetches at most
    one event by id, fetches reaction or repost lists at most four
    times and asks for a zap amount at most twice, however long the
    reply chain is. *)
Theorem assembly_calls_bounded event depth t r t' :
  createNoteFromEvent C event depth t = (r, t') ->
  (count isProfileFetch t' <= count isProfileFetch t + 2)%nat
  /\ (count isReplyFetch t' <= count isReplyFetch t + 1)%nat
  /\ (count isEventsFetch t' <= count isEventsFetch t + 4)%nat
  /\ (count isZapsCalc t' <= count isZapsCalc t + 2)%nat.
Proof.
  intros H. repeat split.
  - apply (adds_createNoteFromEvent isProfileFetch 1 0 0 0) in H;
      [exact H|intros; cbn; lia..].
  - apply (adds_createNoteFromEvent isReplyFetch 0 1 0 0) in H;
      [exact H|intros; cbn; lia..].
  - apply (adds_createNoteFromEvent isEventsFetch 0 0 1 0) in H;
      [exact H|intros; cbn; lia..].
  - apply (adds_createNoteFromEvent isZapsCalc 0 0 0 1) in H;
      [exact H|intros; cbn; lia..].
Qed.

End AssemblyFurther.

(** ** Subscribing to notes *)

Section FeedFurther.
Import Feed.
Variable F : FeedPlatform.
Variable C : Collaborators.
Variable self : NostrClient.

Lemma omap_snoc {A B} (f : A -> option B) l x :
  omap f (l ++ [x]) = omap f l ++ match f x with Some y => [y] | None => [] end.
Proof. rewrite omap_app. cbn. now destruct (f x). Qed.

Lemma subscribeEvents_run filters isForever s :
  subscribeEvents F filters isForever s
  = let b := negb (default true isForever) in
    match ndk_subscribe F filters b with
    | Return v => (Return v, (fst s, snd s ++ [NdkSubscribe filters b]))
    | Throw e =>
        (Throw e,
         (fst s,
          (snd s ++ [NdkSubscribe filters b]) ++ [ConsoleErrorSubscribe e]))
    end.
Proof.
  unfold subscribeEvents, try_catch, feedCall, bind, throw. cbn.
  now destruct (ndk_subscribe F filters (negb (default true isForever))).
Qed.

(** X19. [subscribeNotes] always asks for the logged-in user's follows,
    also when the caller names the authors; if that fails nothing is
    subscribed. Otherwise it opens exactly one subscription and returns
    what opening it returned, logging a failure before passing it on.
    The subscription is for text notes, with the caller's limit or 20,
    the caller's authors (even an empty list) or else the followed
    users' keys, the caller's dates converted, a search string only
    when [image] is true, and it ends at the end of stored events only
    when the caller passed [isForever] as false. No note is assembled
    while subscribing. *)
Theorem subscribeNotes_subscription options s r s' :
  subscribeNotes F self options s = (r, s') ->
  fst s' = fst s
  /\ delivered s' = delivered s
  /\ (exists rest, snd s' = snd s ++ GetFollows (client_user self) :: rest)
  /\ match user_follows F (client_user self) with
     | Throw e => r = Throw e /\ subscriptions s' = subscriptions s
     | Return follows =>
         exists f b,
           subscriptions s' = subscriptions s ++ [(f, b)]
           /\ r = ndk_subscribe F f b
           /\ (forall e, r = Throw e ->
                 last (snd s') = Some (ConsoleErrorSubscribe e))
           /\ kinds f = [Text]
           /\ limit f = default 20 (options ≫= opt_limit)
           /\ authors f = default (map user_pubkey follows)
                                  (options ≫= authorPubkeys)
           /\ since f = unixtimeOf F <$> (options ≫= opt_since)
           /\ until f = unixtimeOf F <$> (options ≫= opt_until)
           /\ search f
              = (if default false (options ≫= opt_image)
                 then Some (lit "http.+(jpg|jpeg|png|gif|webp|svg)")
                 else None)
           /\ (b = true <-> options ≫= opt_isForever = Some false)
     end.
Proof.
  unfold subscribeNotes, getLoggedInUser, bind, ret, feedCall.
  destruct (user_follows F (client_user self)) as [follows|e].
  - rewrite subscribeEvents_run. cbn.
    set (f := filterOptions F options follows).
    set (b := negb (default true (options ≫= opt_isForever))).
    destruct (ndk_subscribe F f b) as [v|e] eqn:Hsub;
      intros [= <- <-]; cbn.
    + split; [reflexivity|]. split.
      { unfold delivered. cbn. now rewrite !omap_snoc, !app_nil_r. }
      split; [exists [NdkSubscribe f b]; now rewrite <- app_assoc|].
      exists f, b. split.
      { unfold subscriptions. cbn. rewrite !omap_snoc. cbn.
        now rewrite app_nil_r. }
      split; [now symmetry|]. split; [discriminate|].
      split; [reflexivity|]. split; [reflexivity|]. split.
      { subst f. cbn. now destruct (options ≫= authorPubkeys). }
      split; [reflexivity|]. split; [reflexivity|]. split.
      { subst f. cbn. now destruct (options ≫= opt_image) as [[|]|]. }
      subst b. destruct (options ≫= opt_isForever) as [[|]|]; cbn;
        split; congruence.
    + split; [reflexivity|]. split.
      { unfold delivered. cbn. now rewrite !omap_snoc, !app_nil_r. }
      split.
      { exists [NdkSubscribe f b; ConsoleErrorSubscribe e].
        now rewrite <- !app_assoc. }
      exists f, b. split.
      { unfold subscriptions. cbn. rewrite !omap_snoc. cbn.
        now rewrite !app_nil_r. }
      split; [now symmetry|]. split.
      { intros e' [= <-]. now rewrite last_snoc. }
      split; [reflexivity|]. split; [reflexivity|]. split.
      { subst f. cbn. now destruct (options ≫= authorPubkeys). }
      split; [reflexivity|]. split; [reflexivity|]. split.
      { subst f. cbn. now destruct (options ≫= opt_image) as [[|]|]. }
      subst b. destruct (options ≫= opt_isForever) as [[|]|]; cbn;
        split; congruence.
  - intros [= <- <-]. cbn. split; [reflexivity|]. split.
    { unfold delivered. cbn. now rewrite omap_snoc, app_nil_r. }
    split; [now exists []|]. split; [reflexivity|].
    unfold subscriptions. cbn. now rewrite omap_snoc, app_nil_r.
Qed.

(** X20. The listener [subscribeNotes] registers hands exactly one note
    to [onNote] for an event whose note is assembled, the note of that
    event assembled from depth 0, and none for an event whose assembly
    fails; it opens no subscription, and the service calls it makes are
    those of the assembly. *)
Theorem noteListener_delivers event s r s' :
  noteListener C event s = (r, s') ->
  subscriptions s' = subscriptions s
  /\ match createNoteFromEvent C event 0 (fst s) with
     | (Return n, t') =>
         r = Return tt
         /\ fst s' = t'
         /\ delivered s' = delivered s ++ [n]
         /\ note_id n = ev_id event
     | (Throw e, t') =>
         r = Throw e /\ fst s' = t' /\ delivered s' = delivered s
     end.
Proof.
  unfold noteListener, bind, onService, feedCall.
  destruct (createNoteFromEvent C event 0 (fst s)) as [[n|e] t'] eqn:Hn;
    intros [= <- <-]; cbn.
  - split.
    { unfold subscriptions. now rewrite omap_snoc, app_nil_r. }
    split; [reflexivity|]. split; [reflexivity|]. split.
    { unfold delivered. now rewrite omap_snoc. }
    unfold createNoteFromEvent in Hn.
    now apply body_fields in Hn as (H1 & _).
  - repeat split; reflexivity.
Qed.

End FeedFurther.

(** ** The further properties on concrete runs *)

Lemma fetchWithRetry_returns_first_success_witness :
  exists k,
    (k < 3)%nat
    /\ Demo.flaky (Retry.invocations [] + k) = Resolved 7
    /\ (forall j, (j < k)%nat ->
          exists e,
            Retry.attemptError (Demo.flaky (Retry.invocations [] + j))
            = Some e)
    /\ Retry.invocations (snd (Retry.fetchWithRetry Demo.flaky 0 []))
       = (Retry.invocations [] + k + 1)%nat.
Proof.
  apply (proj1 (fetchWithRetry_returns_first_success Demo.flaky [] 7)).
  reflexivity.
Defined.

Lemma fetchWithRetry_budget_witness :
  exists r t',
    Retry.fetchWithRetry Demo.alwaysFails 1 [] = (r, t')
    /\ exists d,
        t' = [] ++ d
        /\ (1 <= Retry.invocations d <= Nat.max 1 (Retry.MaxRetries - 1))%nat
        /\ Retry.delays d = (Retry.invocations d - 1)%nat.
Proof.
  eexists. eexists. split; [vm_compute; reflexivity|].
  eapply (fetchWithRetry_budget Demo.alwaysFails 1 []).
  vm_compute. reflexivity.
Defined.

Lemma getUserWithProfile_returns_getUser_witness :
  fst (getUser Demo.patchy Demo.carol [])
  = Return (fetched (mkUserWithProfile (mkNDKUser Demo.carol (lit "pk"))
                       (Some Demo.storedProfile)))
  /\ exists k,
      (k < 3)%nat
      /\ user_fetchProfile Demo.patchy
           (fetched (mkUserWithProfile (mkNDKUser Demo.carol (lit "pk"))
                       (Some Demo.storedProfile)))
           (Retry.invocations [] + k)
         = Resolved
             (fetched_profile
                (mkUserWithProfile (mkNDKUser Demo.carol (lit "pk"))
                   (Some Demo.storedProfile)))
      /\ forall j, (j < k)%nat ->
           exists e,
             Retry.attemptError
               (user_fetchProfile Demo.patchy
                  (fetched (mkUserWithProfile (mkNDKUser Demo.carol (lit "pk"))
                              (Some Demo.storedProfile)))
                  (Retry.invocations [] + j)) = Some e.
Proof.
  apply (proj1 (getUserWithProfile_returns_getUser
                  Demo.patchy Demo.carol []
                  (mkUserWithProfile (mkNDKUser Demo.carol (lit "pk"))
                     (Some Demo.storedProfile)))).
  vm_compute. reflexivity.
Defined.

Lemma getUserWithProfile_error_provenance_witness :
  exists e t',
    getUserWithProfile Demo.offline Demo.carol [] = (Throw e, t')
    /\ ((e = InvalidNpub Demo.carol /\ t' = [])
        \/ ndk_getUser Demo.offline Demo.carol = Throw e
        \/ exists u e0 e1 d,
             ndk_getUser Demo.offline Demo.carol = Return u
             /\ Retry.attemptError
                  (user_fetchProfile Demo.offline u (Retry.invocations []))
                = Some e0
             /\ Retry.attemptError
                  (user_fetchProfile Demo.offline u (Retry.invocations [] + 1))
                = Some e1
             /\ Retry.attemptError
                  (user_fetchProfile Demo.offline u (Retry.invocations [] + 2))
                = Some e
             /\ t' = [] ++ d
                     ++ [ConsoleError
                           (lit "Error: getUserWithProfile: fetchProfile:") e;
                         ConsoleError (lit "Error: getUserWithProfile:") e]).
Proof.
  eexists. eexists. split; [vm_compute; reflexivity|].
  eapply (getUserWithProfile_error_provenance Demo.offline Demo.carol []).
  vm_compute. reflexivity.
Defined.

Lemma connect_first_time_witness :
  connect (Demo.platform Demo.openProvider) (mkRuntime None [])
  = (Return (mkNostrClient Relays Demo.alice),
     mkRuntime (Some (mkNostrClient Relays Demo.alice))
               (trace (mkRuntime None []) ++ connectSteps Demo.alice)).
Proof.
  apply (proj1 (connect_first_time (Demo.platform Demo.openProvider)
                  (mkRuntime None []) Demo.alice eq_refl)).
  repeat split; reflexivity.
Defined.

Lemma connect_stops_at_failure_witness :
  exists e rt',
    connect Demo.offline (mkRuntime None []) = (Throw e, rt')
    /\ exists user done rest,
        trace rt' = trace (mkRuntime None []) ++ done
        /\ done <> []
        /\ connectSteps user = done ++ rest.
Proof.
  eexists. eexists. split; [vm_compute; reflexivity|].
  eapply (connect_stops_at_failure Demo.offline (mkRuntime None []));
    [reflexivity|vm_compute; reflexivity].
Defined.

Lemma sendZapRequest_call_order_witness :
  exists r t',
    sendZapRequest (Demo.platform Demo.openProvider) Demo.client
      (lit "bob@pay.example") 21 [] = (r, t')
    /\ exists ev lnurlPayUrl zapEndpoint done rest,
        t' = [] ++ done
        /\ done <> []
        /\ zapCalls (lit "bob@pay.example") ev lnurlPayUrl zapEndpoint
           = done ++ rest
        /\ (forall resp, r = Return resp -> rest = []).
Proof.
  eexists. eexists. split; [vm_compute; reflexivity|].
  eapply (sendZapRequest_call_order (Demo.platform Demo.openProvider)
            Demo.client (lit "bob@pay.example") 21 []).
  vm_compute. reflexivity.
Defined.

Lemma sendZapRequest_returns_witness :
  exists to lnurl sig lnurlPay callbackUrl nostr zapEndpoint data,
    NDKUser_fromNip05 (Demo.platform Demo.openProvider)
      (lit "bob@pay.example") = Return (Some to)
    /\ toBech32EncodedLnurl (Demo.platform Demo.openProvider)
         (toLnurlPayUrl (Demo.platform Demo.openProvider)
            (lit "bob@pay.example")) = Return lnurl
    /\ signer_sign (Demo.platform Demo.openProvider)
         (builtZapRequest (Demo.platform Demo.openProvider) Demo.client
            (21 * 1000) lnurl to)
       = Return sig
    /\ (providerAnswer (Demo.platform Demo.openProvider)
          (lit "bob@pay.example") = Some lnurlPay
        /\ allowsNostr lnurlPay = true
        /\ (exists c k, nostrPubkey lnurlPay = Some (c :: k))
        /\ callback lnurlPay = Some callbackUrl /\ callbackUrl <> []
        /\ encodeURI_JSON (Demo.platform Demo.openProvider)
             (builtZapRequest (Demo.platform Demo.openProvider) Demo.client
                (21 * 1000) lnurl to)
           = Return nostr
        /\ ~ belowDeclaredMin lnurlPay (21 * 1000)
        /\ ~ aboveDeclaredMax lnurlPay (21 * 1000)
        /\ zapEndpointUrl (Demo.platform Demo.openProvider) callbackUrl
             (numberToString (21 * 1000)) nostr (Some lnurl)
           = Return zapEndpoint)
    /\ axios_get_zapEndpoint (Demo.platform Demo.openProvider) zapEndpoint
       = Return (Some data)
    /\ status data = lit "OK"
    /\ pr data
       = Some (resp_pr (mkSendZapRequestResponse (lit "lnbc1") None None))
    /\ resp_pr (mkSendZapRequestResponse (lit "lnbc1") None None) <> []
    /\ resp_verify (mkSendZapRequestResponse (lit "lnbc1") None None)
       = verify data
    /\ resp_successAction (mkSendZapRequestResponse (lit "lnbc1") None None)
       = successAction data.
Proof.
  apply (proj1 (sendZapRequest_returns (Demo.platform Demo.openProvider)
                  Demo.client (lit "bob@pay.example") 21 []
                  (mkSendZapRequestResponse (lit "lnbc1") None None))).
  vm_compute. reflexivity.
Defined.

Lemma amount_within_bounds_is_sent_witness :
  minSendable Demo.openProvider = Some (1 * 1000)
  /\ exists zapEndpoint,
      zapEndpointGets
        (snd (sendZapRequest (Demo.platform Demo.openProvider) Demo.client
                (lit "bob@pay.example") 1 []))
      = zapEndpointGets [] ++ [HttpGetZapEndpoint zapEndpoint].
Proof.
  split; [reflexivity|]. eexists.
  eapply (amount_within_bounds_is_sent (Demo.platform Demo.openProvider)
            Demo.client (lit "bob@pay.example") 1 []).
  - vm_compute. reflexivity.
  - vm_compute. reflexivity.
  - vm_compute. reflexivity.
  - vm_compute. reflexivity.
  - reflexivity.
  - do 2 eexists. vm_compute. reflexivity.
  - vm_compute. reflexivity.
  - discriminate.
  - vm_compute. reflexivity.
  - intros min [= <-]. lia.
  - intros max [= <-]. lia.
  - vm_compute. reflexivity.
Defined.

Lemma lnurlPay_failure_carries_request_witness :
  exists to lnurl signature cause,
    fst (requestLnurlPay (Demo.platform Demo.plainProvider)
           (zapMetadata (Demo.platform Demo.plainProvider)
              (builtZapRequest (Demo.platform Demo.plainProvider)
                 Demo.client (21 * 1000) lnurl to)
              signature (lit "bob@pay.example")) []) = Throw cause
    /\ exists metadata,
        fst (sendZapRequest (Demo.platform Demo.plainProvider) Demo.client
               (lit "bob@pay.example") 21 [])
        = Throw (NostrRequestLnurlPayError metadata cause)
        /\ kind metadata = 0
        /\ tags metadata
           = tags (builtZapRequest (Demo.platform Demo.plainProvider)
                     Demo.client (21 * 1000) lnurl to)
        /\ id metadata
           = Some (generateEventId (Demo.platform Demo.plainProvider)
                     (unsignedZapRequest (Demo.platform Demo.plainProvider)
                        Demo.client (21 * 1000) lnurl to))
        /\ sig metadata = Some signature
        /\ content metadata
           = JSON_stringify_lud16 (Demo.platform Demo.plainProvider)
               (lit "bob@pay.example")
        /\ zapEndpointGets
             (snd (sendZapRequest (Demo.platform Demo.plainProvider)
                     Demo.client (lit "bob@pay.example") 21 []))
           = zapEndpointGets [].
Proof.
  exists Demo.bob,
    (lit "lnurl1" ++ lit "https://pay.example/lnurlp/"
       ++ lit "bob@pay.example"),
    (lit "sig").
  eexists. split; [vm_compute; reflexivity|].
  apply (lnurlPay_failure_carries_request
           (Demo.platform Demo.plainProvider) Demo.client
           (lit "bob@pay.example") 21 []);
    vm_compute; reflexivity.
Defined.

Lemma isYouTubeUrl_contains_witness :
  exists host c,
    In host youTubeHosts
    /\ isWordOrDash c = true
    /\ contains (lit "https://youtu.be/abc") (host ++ lit "/" ++ [c]).
Proof.
  apply (proj1 (isYouTubeUrl_contains (lit "https://youtu.be/abc"))).
  vm_compute. reflexivity.
Defined.

Lemma scanned_urls_shape_witness :
  exists scheme body before after,
    In scheme urlSchemes
    /\ lit "https://example.com/cat.JPG" = scheme ++ body /\ body <> []
    /\ Forall (fun c => isWhiteSpace c = false)
              (lit "https://example.com/cat.JPG")
    /\ ev_content Demo.d
       = before ++ lit "https://example.com/cat.JPG" ++ after
    /\ (after = [] \/ exists c a, after = c :: a /\ isWhiteSpace c = true).
Proof.
  apply (scanned_urls_shape (ev_content Demo.d)
           (lit "https://example.com/cat.JPG")).
  vm_compute. now left.
Defined.

Lemma text_without_links_has_no_media_witness :
  extractMedia Demo.collaborators Demo.a [] = (Return [], []).
Proof.
  apply (text_without_links_has_no_media Demo.collaborators Demo.a []).
  intros Hc.
  assert (test (Lit (lit "http")) (ev_content Demo.a) = true) as Ht.
  { apply test_contains. exists (lit "http"). split; [constructor|exact Hc]. }
  vm_compute in Ht. discriminate.
Defined.

Lemma reactions_are_tallies_witness :
  exists r t',
    createNoteReactionsFromEvent Demo.lively Demo.a [] = (Return r, t')
    /\ exists reactionEvents repostEvents,
        client_fetchEvents Demo.lively [Reaction] [ev_id Demo.a]
        = Return reactionEvents
        /\ client_fetchEvents Demo.lively [Repost] [ev_id Demo.a]
           = Return repostEvents
        /\ likesCount r = Z.of_nat (length (filter isLike reactionEvents))
        /\ (forall key,
              customReactions r !! key
              = tally (customCount Demo.lively key reactionEvents))
        /\ repostsCount r = Z.of_nat (length repostEvents)
        /\ client_calculateZapsAmount Demo.lively (ev_id Demo.a)
           = Return (zapsAmount r).
Proof.
  eexists. eexists. split; [vm_compute; reflexivity|].
  eapply (reactions_are_tallies Demo.lively Demo.a []).
  vm_compute. reflexivity.
Defined.

Lemma reactions_order_irrelevant_witness :
  fold_left (countReaction Demo.collaborators)
    [Demo.post Demo.bob "r1" "+" []; Demo.post Demo.bob "r3" ":smile:" []]
    (0, ∅)
  = fold_left (countReaction Demo.collaborators)
      [Demo.post Demo.bob "r3" ":smile:" []; Demo.post Demo.bob "r1" "+" []]
      (0, ∅).
Proof.
  apply (reactions_order_irrelevant Demo.collaborators).
  apply perm_swap.
Defined.

Lemma assembled_note_fields_witness :
  exists n t',
    createNoteFromEvent Demo.collaborators Demo.d 0 [] = (Return n, t')
    /\ (note_id n = ev_id Demo.d
        /\ text n = ev_content Demo.d
        /\ json n = ev_raw Demo.d
        /\ replyChildNotes n = []
        /\ npub (author n) = user_npub (ev_author Demo.d)
        /\ user_key (author n) = user_pubkey (ev_author Demo.d)
        /\ repo_fetchProfile Demo.collaborators
             (user_npub (ev_author Demo.d))
           = Return (profile (author n))
        /\ (exists t0,
               extractMedia Demo.collaborators Demo.d t0
               = (Return (media n), t0))
        /\ note_created_at n = default 0 (ev_created_at Demo.d) * 1000)
    /\ forall p,
        replyParentNote n = Some p ->
        exists eventId e,
          replyEventIdOf Demo.d = Some eventId
          /\ client_fetchEvent Demo.collaborators eventId = Return (Some e)
          /\ note_id p = ev_id e
          /\ text p = ev_content e
          /\ replyChildNotes p = []
          /\ note_created_at p = default 0 (ev_created_at e) * 1000.
Proof.
  eexists. eexists. split; [vm_compute; reflexivity|].
  eapply (assembled_note_fields Demo.collaborators Demo.d 0 []).
  vm_compute. reflexivity.
Defined.

Lemma assembled_author_verified_witness :
  exists n t',
    createNoteFromEvent Demo.named Demo.a 0 [] = (Return n, t')
    /\ (verified (author n) = true
        <-> exists p c k,
              repo_fetchProfile Demo.named (user_npub (ev_author Demo.a))
              = Return (Some p)
              /\ nostrAddress p = Some (c :: k)).
Proof.
  eexists. eexists. split; [vm_compute; reflexivity|].
  eapply (assembled_author_verified Demo.named Demo.a 0 []).
  vm_compute. reflexivity.
Defined.

Lemma assembly_calls_bounded_witness :
  exists r t',
    createNoteFromEvent Demo.collaborators Demo.d 0 [] = (r, t')
    /\ (count isProfileFetch t' <= count isProfileFetch [] + 2)%nat
    /\ (count isReplyFetch t' <= count isReplyFetch [] + 1)%nat
    /\ (count isEventsFetch t' <= count isEventsFetch [] + 4)%nat
    /\ (count isZapsCalc t' <= count isZapsCalc [] + 2)%nat.
Proof.
  eexists. eexists. split; [vm_compute; reflexivity|].
  eapply (assembly_calls_bounded Demo.collaborators Demo.d 0 []).
  vm_compute. reflexivity.
Defined.

Lemma subscribeNotes_subscription_witness :
  exists r s',
    Feed.subscribeNotes Demo.feed Demo.client (Some Demo.imagesOnce) ([], [])
    = (r, s')
    /\ fst s' = fst (@nil Event, @nil Feed.FeedCall)
    /\ Feed.delivered s' = Feed.delivered (@nil Event, @nil Feed.FeedCall)
    /\ (exists rest,
           snd s'
           = snd (@nil Event, @nil Feed.FeedCall)
               ++ Feed.GetFollows (client_user Demo.client) :: rest)
    /\ match Feed.user_follows Demo.feed (client_user Demo.client) with
       | Throw e =>
           r = Throw e
           /\ Feed.subscriptions s'
              = Feed.subscriptions (@nil Event, @nil Feed.FeedCall)
       | Return follows =>
           exists f b,
             Feed.subscriptions s'
             = Feed.subscriptions (@nil Event, @nil Feed.FeedCall) ++ [(f, b)]
             /\ r = Feed.ndk_subscribe Demo.feed f b
             /\ (forall e, r = Throw e ->
                   last (snd s') = Some (Feed.ConsoleErrorSubscribe e))
             /\ Feed.kinds f = [Feed.Text]
             /\ Feed.limit f
                = default 20 (Some Demo.imagesOnce ≫= Feed.opt_limit)
             /\ Feed.authors f
                = default (map user_pubkey follows)
                          (Some Demo.imagesOnce ≫= Feed.authorPubkeys)
             /\ Feed.since f
                = Feed.unixtimeOf Demo.feed
                    <$> (Some Demo.imagesOnce ≫= Feed.opt_since)
             /\ Feed.until f
                = Feed.unixtimeOf Demo.feed
                    <$> (Some Demo.imagesOnce ≫= Feed.opt_until)
             /\ Feed.search f
                = (if default false (Some Demo.imagesOnce ≫= Feed.opt_image)
                   then Some (lit "http.+(jpg|jpeg|png|gif|webp|svg)")
                   else None)
             /\ (b = true
                 <-> Some Demo.imagesOnce ≫= Feed.opt_isForever = Some false)
       end.
Proof.
  eexists. eexists. split; [vm_compute; reflexivity|].
  eapply (subscribeNotes_subscription Demo.feed Demo.client
            (Some Demo.imagesOnce) ([], [])).
  vm_compute. reflexivity.
Defined.

Lemma noteListener_delivers_witness :
  exists r s',
    Feed.noteListener Demo.collaborators Demo.d ([], []) = (r, s')
    /\ Feed.subscriptions s'
       = Feed.subscriptions (@nil Event, @nil Feed.FeedCall)
    /\ match createNoteFromEvent Demo.collaborators Demo.d 0
               (fst (@nil Event, @nil Feed.FeedCall)) with
       | (Return n, t') =>
           r = Return tt
           /\ fst s' = t'
           /\ Feed.delivered s'
              = Feed.delivered (@nil Event, @nil Feed.FeedCall) ++ [n]
           /\ note_id n = ev_id Demo.d
       | (Throw e, t') =>
           r = Throw e
           /\ fst s' = t'
           /\ Feed.delivered s'
              = Feed.delivered (@nil Event, @nil Feed.FeedCall)
       end.
Proof.
  eexists. eexists. split; [vm_compute; reflexivity|].
  eapply (noteListener_delivers Demo.collaborators Demo.d ([], [])).
  vm_compute. reflexivity.
Defined.
